(** * RNS.Interfaces.LocalInterface: HDLC framing and the local shared-instance
      interfaces

    A shallow embedding of [RNS/Interfaces/LocalInterface.py].  Byte strings
    are lists of integers, Python objects live in a store and are named by
    their index, and every method is a function of a small state-and-exception
    monad over that store. *)

From Stdlib Require Import ZArith Lia.
From stdpp Require Import base list strings pretty.

Local Open Scope Z_scope.

(** ** Python's [bytes] operations used by the module *)

Module Py.

(** A [bytes] value.  Every element the program builds lies in [0, 256);
    the results below hold for arbitrary integers. *)
Abbreviation bytes := (list Z).

(** [data.startswith(old)] *)
Fixpoint startswith (old data : bytes) : bool :=
  match old, data with
  | [], _ => true
  | _ :: _, [] => false
  | o :: old', d :: data' => (o =? d) && startswith old' data'
  end.

(** The scan of [bytes.replace] for a non-empty [old]: occurrences are
    searched from the left and do not overlap; [skip] counts the bytes of a
    matched occurrence that are still to be passed over. *)
Fixpoint replace_scan (old new : bytes) (skip : nat) (data : bytes) : bytes :=
  match data with
  | [] => []
  | b :: rest =>
      match skip with
      | S k => replace_scan old new k rest
      | O =>
          if startswith old data
          then new ++ replace_scan old new (Nat.pred (length old)) rest
          else b :: replace_scan old new 0 rest
      end
  end.

(** [data.replace(old, new)].  For an empty [old] Python inserts [new]
    before every byte and at the end. *)
Definition replace (old new data : bytes) : bytes :=
  match old with
  | [] => new ++ flat_map (fun b => b :: new) data
  | _ :: _ => replace_scan old new 0 data
  end.

(** Index of the first [b] in [data], counted from [i]. *)
Fixpoint index_from (b : Z) (i : Z) (data : bytes) : Z :=
  match data with
  | [] => -1
  | d :: rest => if d =? b then i else index_from b (i + 1) rest
  end.

(** [data.find(b, start)] for a byte value [b] and [0 <= start]: the lowest
    index at or after [start] that holds [b], or [-1]. *)
Definition find (b : Z) (start : Z) (data : bytes) : Z :=
  index_from b start (drop (Z.to_nat start) data).

(** [data[lo:hi]] for [0 <= lo] and [0 <= hi]. *)
Definition slice (lo hi : Z) (data : bytes) : bytes :=
  take (Z.to_nat hi - Z.to_nat lo) (drop (Z.to_nat lo) data).

(** [data[lo:]] for [0 <= lo]. *)
Definition slice_from (lo : Z) (data : bytes) : bytes :=
  drop (Z.to_nat lo) data.

(** [len(data)] *)
Definition len (data : bytes) : Z := Z.of_nat (length data).

End Py.

Import Py.

(** ** class HDLC *)

Module HDLC.

Definition FLAG : Z := 0x7E.
Definition ESC : Z := 0x7D.
Definition ESC_MASK : Z := 0x20.

(** [HDLC.escape] *)
Definition escape (data : bytes) : bytes :=
  let data := replace [ESC] [ESC; Z.lxor ESC ESC_MASK] data in
  let data := replace [FLAG] [ESC; Z.lxor FLAG ESC_MASK] data in
  data.

(** The frame put on the wire by [process_outgoing]:
    [bytes([HDLC.FLAG])+HDLC.escape(data)+bytes([HDLC.FLAG])]. *)
Definition encode (data : bytes) : bytes :=
  [FLAG] ++ escape data ++ [FLAG].

(** The two substitutions [read_loop] applies to the bytes between two
    flags, in the order of the source. *)
Definition unescape (frame : bytes) : bytes :=
  let frame := replace [ESC; Z.lxor FLAG ESC_MASK] [FLAG] frame in
  let frame := replace [ESC; Z.lxor ESC ESC_MASK] [ESC] frame in
  frame.

End HDLC.

(** ** Python values and objects *)

(** The values an attribute such as [target_port] holds in this module. *)
Inductive pyval :=
| PyNone
| PyInt (z : Z)
| PyStr (s : string).

(** [str(v)] *)
Definition py_str (v : pyval) : string :=
  match v with
  | PyNone => "None"
  | PyInt z => pretty z
  | PyStr s => s
  end.

(** Objects are named by their position in the store. *)
Abbreviation ref := nat (only parsing).

(** [x in l] on a list of object references (identity comparison). *)
Definition py_in (x : ref) (l : list ref) : bool := bool_decide (x ∈ l).

(** [l.remove(x)]: drops the first occurrence; [None] stands for the
    [ValueError] raised when there is none. *)
Fixpoint py_remove (x : ref) (l : list ref) : option (list ref) :=
  match l with
  | [] => None
  | y :: l' =>
      if decide (y = x) then Some l'
      else match py_remove x l' with
           | Some r => Some (y :: r)
           | None => None
           end
  end.

(** The attributes of a [LocalClientInterface] that its methods read or
    write; those that only other modules read ([name], [mode], [target_ip],
    [HW_MTU], the announce rates) are left out.  [rxb] and [txb] are
    inherited from [Interface]. *)
Record client := Client {
  online : bool;
  IN : bool;
  OUT : bool;
  socket : option nat;
  parent_interface : option ref;
  reconnecting : bool;
  never_connected : bool;
  detached : bool;
  target_port : pyval;
  is_connected_to_shared_instance : bool;
  rxb : Z;
  txb : Z;
  bitrate : Z;
  writing : bool;
  force_bitrate : bool;
  send_lock : bool   (* [hasattr(self, "send_lock")] *)
}.

Definition set_online (v : bool) (o : client) : client :=
  Client v (IN o) (OUT o) (socket o) (parent_interface o) (reconnecting o)
    (never_connected o) (detached o) (target_port o)
    (is_connected_to_shared_instance o) (rxb o) (txb o) (bitrate o)
    (writing o) (force_bitrate o) (send_lock o).
Definition set_IN (v : bool) (o : client) : client :=
  Client (online o) v (OUT o) (socket o) (parent_interface o) (reconnecting o)
    (never_connected o) (detached o) (target_port o)
    (is_connected_to_shared_instance o) (rxb o) (txb o) (bitrate o)
    (writing o) (force_bitrate o) (send_lock o).
Definition set_OUT (v : bool) (o : client) : client :=
  Client (online o) (IN o) v (socket o) (parent_interface o) (reconnecting o)
    (never_connected o) (detached o) (target_port o)
    (is_connected_to_shared_instance o) (rxb o) (txb o) (bitrate o)
    (writing o) (force_bitrate o) (send_lock o).
Definition set_socket (v : option nat) (o : client) : client :=
  Client (online o) (IN o) (OUT o) v (parent_interface o) (reconnecting o)
    (never_connected o) (detached o) (target_port o)
    (is_connected_to_shared_instance o) (rxb o) (txb o) (bitrate o)
    (writing o) (force_bitrate o) (send_lock o).
Definition set_parent_interface (v : option ref) (o : client) : client :=
  Client (online o) (IN o) (OUT o) (socket o) v (reconnecting o)
    (never_connected o) (detached o) (target_port o)
    (is_connected_to_shared_instance o) (rxb o) (txb o) (bitrate o)
    (writing o) (force_bitrate o) (send_lock o).
Definition set_reconnecting (v : bool) (o : client) : client :=
  Client (online o) (IN o) (OUT o) (socket o) (parent_interface o) v
    (never_connected o) (detached o) (target_port o)
    (is_connected_to_shared_instance o) (rxb o) (txb o) (bitrate o)
    (writing o) (force_bitrate o) (send_lock o).
Definition set_never_connected (v : bool) (o : client) : client :=
  Client (online o) (IN o) (OUT o) (socket o) (parent_interface o)
    (reconnecting o) v (detached o) (target_port o)
    (is_connected_to_shared_instance o) (rxb o) (txb o) (bitrate o)
    (writing o) (force_bitrate o) (send_lock o).
Definition set_detached (v : bool) (o : client) : client :=
  Client (online o) (IN o) (OUT o) (socket o) (parent_interface o)
    (reconnecting o) (never_connected o) v (target_port o)
    (is_connected_to_shared_instance o) (rxb o) (txb o) (bitrate o)
    (writing o) (force_bitrate o) (send_lock o).
Definition set_target_port (v : pyval) (o : client) : client :=
  Client (online o) (IN o) (OUT o) (socket o) (parent_interface o)
    (reconnecting o) (never_connected o) (detached o) v
    (is_connected_to_shared_instance o) (rxb o) (txb o) (bitrate o)
    (writing o) (force_bitrate o) (send_lock o).
Definition set_is_connected_to_shared_instance (v : bool) (o : client) : client :=
  Client (online o) (IN o) (OUT o) (socket o) (parent_interface o)
    (reconnecting o) (never_connected o) (detached o) (target_port o)
    v (rxb o) (txb o) (bitrate o)
    (writing o) (force_bitrate o) (send_lock o).
Definition set_rxb (v : Z) (o : client) : client :=
  Client (online o) (IN o) (OUT o) (socket o) (parent_interface o)
    (reconnecting o) (never_connected o) (detached o) (target_port o)
    (is_connected_to_shared_instance o) v (txb o) (bitrate o)
    (writing o) (force_bitrate o) (send_lock o).
Definition set_txb (v : Z) (o : client) : client :=
  Client (online o) (IN o) (OUT o) (socket o) (parent_interface o)
    (reconnecting o) (never_connected o) (detached o) (target_port o)
    (is_connected_to_shared_instance o) (rxb o) v (bitrate o)
    (writing o) (force_bitrate o) (send_lock o).
Definition set_bitrate (v : Z) (o : client) : client :=
  Client (online o) (IN o) (OUT o) (socket o) (parent_interface o)
    (reconnecting o) (never_connected o) (detached o) (target_port o)
    (is_connected_to_shared_instance o) (rxb o) (txb o) v
    (writing o) (force_bitrate o) (send_lock o).
Definition set_writing (v : bool) (o : client) : client :=
  Client (online o) (IN o) (OUT o) (socket o) (parent_interface o)
    (reconnecting o) (never_connected o) (detached o) (target_port o)
    (is_connected_to_shared_instance o) (rxb o) (txb o) (bitrate o)
    v (force_bitrate o) (send_lock o).
Definition set_force_bitrate (v : bool) (o : client) : client :=
  Client (online o) (IN o) (OUT o) (socket o) (parent_interface o)
    (reconnecting o) (never_connected o) (detached o) (target_port o)
    (is_connected_to_shared_instance o) (rxb o) (txb o) (bitrate o)
    (writing o) v (send_lock o).
Definition set_send_lock (v : bool) (o : client) : client :=
  Client (online o) (IN o) (OUT o) (socket o) (parent_interface o)
    (reconnecting o) (never_connected o) (detached o) (target_port o)
    (is_connected_to_shared_instance o) (rxb o) (txb o) (bitrate o)
    (writing o) (force_bitrate o) v.

(** The attributes of a [LocalServerInterface].  [bind_port] and
    [_force_bitrate] may be absent ([None]): the constructor sets the first
    only under [bindport != None], and [incoming_connection] tests the second
    with [hasattr]. *)
Record server := Server {
  s_online : bool;
  clients : Z;
  s_IN : bool;
  s_OUT : bool;
  bind_port : option pyval;
  s_rxb : Z;
  s_txb : Z;
  s_bitrate : Z;
  s_force_bitrate : option bool
}.

Definition set_clients (v : Z) (s : server) : server :=
  Server (s_online s) v (s_IN s) (s_OUT s) (bind_port s) (s_rxb s) (s_txb s)
    (s_bitrate s) (s_force_bitrate s).
Definition set_s_rxb (v : Z) (s : server) : server :=
  Server (s_online s) (clients s) (s_IN s) (s_OUT s) (bind_port s) v (s_txb s)
    (s_bitrate s) (s_force_bitrate s).
Definition set_s_txb (v : Z) (s : server) : server :=
  Server (s_online s) (clients s) (s_IN s) (s_OUT s) (bind_port s) (s_rxb s) v
    (s_bitrate s) (s_force_bitrate s).

(** The request handler passed to [incoming_connection]: the accepted socket
    and the peer address. *)
Record handler := Handler {
  request : nat;
  client_address : string * Z
}.

(** ** The shared state, its events and the monad of methods *)

Inductive loglevel :=
| LOG_CRITICAL | LOG_ERROR | LOG_WARNING | LOG_NOTICE | LOG_INFO | LOG_DEBUG.

(** One constructor per [RNS.log] call of the module. *)
Inductive message :=
| MsgConnectionAttemptFailed
| MsgReconnected
| MsgNonInitiatorReconnect
| MsgInboundError
| MsgTransmitException
| MsgContainedException
| MsgSocketClosed
| MsgInterfaceError
| MsgTearingDown
| MsgDetaching
| MsgShutdownError
| MsgCloseError
| MsgUnrecoverable
| MsgLostSharedInstance.

Inductive thread_target :=
| ReadLoop (self : ref)
| ReappearedJob.

(** What a run does to the outside world, in the order it happens: the
    calls of [RNS.log] and [RNS.trace_exception], of [owner.inbound], of the
    socket, of [time.sleep], of the hooks of [RNS.Transport] and [RNS], and
    the threads it starts.  [EvSendall] is a [sendall] that returned, all of
    its bytes sent; [EvSendallRaised] one that raised, after which any part
    of its bytes, from none to all, may have reached the peer.  [EvSleep]
    is a sleep that returned, for a duration computed from [num/den]:
    [RECONNECT_WAIT], or the float [len(data) / bitrate * 8].  [EvReconnect]
    and [EvTeardown] mark the entry of the two methods. *)
Inductive event :=
| EvLog (m : message) (level : loglevel) (self : ref)
| EvTraceException
| EvInbound (data : bytes) (self : ref)
| EvSendall (self : ref) (data : bytes)
| EvSendallRaised (self : ref) (data : bytes)
| EvSleep (num den : Z)
| EvConnect (self : ref) (sock : nat)
| EvShutdown (self : ref)
| EvClose (self : ref)
| EvDisappeared
| EvThread (t : thread_target)
| EvPersist
| EvPanic
| EvExit
| EvReconnect (self : ref)
| EvTeardown (self : ref) (nowarning : bool).

(** The store of objects and the globals of [RNS.Transport] and
    [RNS.Reticulum] the module touches.  The registries are lists of
    references to client interfaces: the interfaces of other kinds that
    [RNS.Transport.interfaces] holds are never looked at by this module. *)
Record world := World {
  clients_heap : list client;
  servers_heap : list server;
  interfaces : list ref;               (* RNS.Transport.interfaces *)
  local_client_interfaces : list ref;  (* RNS.Transport.local_client_interfaces *)
  transport_owner : bool;
    (* hasattr(RNS.Transport, "owner") and RNS.Transport.owner != None *)
  panic_on_interface_error : bool;     (* RNS.Reticulum.panic_on_interface_error *)
  trace : list event
}.

Definition with_clients_heap (v : list client) (w : world) : world :=
  World v (servers_heap w) (interfaces w) (local_client_interfaces w)
    (transport_owner w) (panic_on_interface_error w) (trace w).
Definition with_servers_heap (v : list server) (w : world) : world :=
  World (clients_heap w) v (interfaces w) (local_client_interfaces w)
    (transport_owner w) (panic_on_interface_error w) (trace w).
Definition with_interfaces (v : list ref) (w : world) : world :=
  World (clients_heap w) (servers_heap w) v (local_client_interfaces w)
    (transport_owner w) (panic_on_interface_error w) (trace w).
Definition with_local_client_interfaces (v : list ref) (w : world) : world :=
  World (clients_heap w) (servers_heap w) (interfaces w) v
    (transport_owner w) (panic_on_interface_error w) (trace w).
Definition with_trace (v : list event) (w : world) : world :=
  World (clients_heap w) (servers_heap w) (interfaces w)
    (local_client_interfaces w) (transport_owner w)
    (panic_on_interface_error w) v.

Inductive exn :=
| SocketError | OwnerError | IOError | ValueError | ZeroDivisionError
| OverflowError | AttributeError.

(** How a call ends: it returns, an [Exception] propagates, the process is
    gone, or the model has no behaviour (a reference to no object, or a loop
    out of fuel).  Only exceptions derived from [Exception] are modelled:
    those are the ones the [except Exception] clauses of the module catch; a
    [SystemExit] or [KeyboardInterrupt] raised inside a callback is not a
    behaviour of the model. *)
Inductive outcome (A : Type) :=
| Ret (a : A) (w : world)
| Exn (e : exn) (w : world)
| Exited (w : world)
| Stuck.
Arguments Ret {A} a w.
Arguments Exn {A} e w.
Arguments Exited {A} w.
Arguments Stuck {A}.

Definition M (A : Type) : Type := world -> outcome A.

Definition ret {A} (a : A) : M A := fun w => Ret a w.
Definition bind {A B} (m : M A) (f : A -> M B) : M B := fun w =>
  match m w with
  | Ret a w' => f a w'
  | Exn e w' => Exn e w'
  | Exited w' => Exited w'
  | Stuck => Stuck
  end.

Declare Scope method_scope.
Delimit Scope method_scope with method.
Bind Scope method_scope with M.
Notation "x <- m ;; k" := (bind m (fun x => k))
  (at level 100, m at next level, k at level 200,
   right associativity) : method_scope.
Notation "m ;; k" := (bind m (fun _ => k))
  (at level 100, k at level 200, right associativity) : method_scope.
Local Open Scope method_scope.

Definition gets {A} (f : world -> A) : M A := fun w => Ret (f w) w.
Definition modify (f : world -> world) : M unit := fun w => Ret tt (f w).
Definition raise {A} (e : exn) : M A := fun w => Exn e w.
Definition stuck {A} : M A := fun _ => Stuck.
Definition emit (e : event) : M unit :=
  modify (fun w => with_trace (trace w ++ [e]) w).

(** [try: m except Exception as e: h e] *)
Definition try_except {A} (m : M A) (h : exn -> M A) : M A := fun w =>
  match m w with
  | Exn e w' => h e w'
  | r => r
  end.

(** [self.f] and [self.f = v] on a client, [srv.f] and [srv.f = v] on a
    server. *)
Definition attr {A} (self : ref) (f : client -> A) : M A := fun w =>
  match clients_heap w !! self with
  | Some o => Ret (f o) w
  | None => Stuck
  end.
Definition setattr (self : ref) (upd : client -> client) : M unit := fun w =>
  match clients_heap w !! self with
  | Some o => Ret tt (with_clients_heap (<[self := upd o]> (clients_heap w)) w)
  | None => Stuck
  end.
Definition s_attr {A} (srv : ref) (f : server -> A) : M A := fun w =>
  match servers_heap w !! srv with
  | Some s => Ret (f s) w
  | None => Stuck
  end.
Definition s_setattr (srv : ref) (upd : server -> server) : M unit := fun w =>
  match servers_heap w !! srv with
  | Some s => Ret tt (with_servers_heap (<[srv := upd s]> (servers_heap w)) w)
  | None => Stuck
  end.

(** [RNS.log(msg, level)] *)
Definition log (m : message) (level : loglevel) (self : ref) : M unit :=
  emit (EvLog m level self).

(** Modelled from the spec: [RNS.exit] is not in this module; the spec has
    teardown of the initiating connection terminate the process. *)
Definition rns_exit {A} : M A := fun w =>
  Exited (with_trace (trace w ++ [EvExit]) w).

(** Modelled from the spec: [RNS.panic] is not in this module; the spec has
    it trigger a process-wide abort. *)
Definition rns_panic {A} : M A := fun w =>
  Exited (with_trace (trace w ++ [EvPanic]) w).

(** ** class LocalClientInterface *)

Definition RECONNECT_WAIT : Z := 8.

(** [str(self)] of a client. *)
Definition client_str (o : client) : string :=
  "LocalInterface[" +:+ py_str (target_port o) +:+ "]".

(** [str(self)] of a server; [None] is the [AttributeError] of a server
    built without a bind port. *)
Definition server_str (s : server) : option string :=
  match bind_port s with
  | Some p => Some ("Shared Instance[" +:+ py_str p +:+ "]")
  | None => None
  end.

(** The object [__init__] leaves behind for [connected_socket != None].
    [Interface.__init__], which creates the byte counters, is not in this
    module; they are taken to start at 0, and no property below depends on
    where they start. *)
Definition spawned_client (connected_socket : nat) : client :=
  {| online := true; IN := true; OUT := false;
     socket := Some connected_socket; parent_interface := None;
     reconnecting := false; never_connected := true; detached := false;
     target_port := PyNone; is_connected_to_shared_instance := false;
     rxb := 0; txb := 0; bitrate := 1000000000; writing := false;
     force_bitrate := false; send_lock := false |}.

(** Allocation of a new client object. *)
Definition new_client (o : client) : M ref := fun w =>
  Ret (length (clients_heap w))
      (with_clients_heap (clients_heap w ++ [o]) w).

(** What the socket hands to one [recv(4096)]: bytes (none when the peer
    closed; at most 4096, a bound no property below depends on) or an
    exception. *)
Inductive recv_result :=
| Received (data : bytes)
| RecvRaises.

(** The connection attempts of one [reconnect]: the sockets of the attempts
    that fail, then the socket of the one that succeeds. *)
Record reconnect_script := ReconnectScript {
  failed_attempts : list nat;
  final_socket : nat
}.

Section LocalInterface.

(** [RNS.Reticulum.HEADER_MINSIZE], a size defined outside this module. *)
Variable HEADER_MINSIZE : nat.

(** Whether [self.owner.inbound(data, self)] raises an [Exception], given
    the state of the process when it is called: the owner is handed the
    interface and can read its counters and everything else in the store, and
    all that happened before. *)
Variable inbound_raises : world -> bytes -> ref -> bool.

(** What computing the duration [len(data) / self.bitrate * 8] and sleeping
    for it raise, if anything, for [n] bytes at a bitrate [rate] other than
    0.  The duration is a float, so Python's arithmetic and [time.sleep]
    decide, not this module: [ValueError] for a duration below zero (which a
    quotient that rounds to [-0.0] is not), [OverflowError] for one out of
    range. *)
Variable latency_raises : Z -> Z -> option exn.

(** [self.owner.inbound(data, self)] *)
Definition owner_inbound (data : bytes) (self : ref) : M unit :=
  at_call <- gets (fun w => w);;
  emit (EvInbound data self);;
  if inbound_raises at_call data self then raise OwnerError else ret tt.

(** [connect]; [ok] tells whether [socket.connect] succeeds. *)
Definition connect (self : ref) (sock : nat) (ok : bool) : M bool :=
  setattr self (set_socket (Some sock));;
  emit (EvConnect self sock);;
  if ok then
    setattr self (set_online true);;
    setattr self (set_is_connected_to_shared_instance true);;
    setattr self (set_never_connected false);;
    ret true
  else raise SocketError.

(** One round of the [while not self.online] loop of [reconnect]. *)
Definition reconnect_attempt (self : ref) (sock : nat) (ok : bool) : M unit :=
  emit (EvSleep RECONNECT_WAIT 1);;
  try_except (connect self sock ok;; ret tt)
    (fun _ => log MsgConnectionAttemptFailed LOG_DEBUG self).

Fixpoint reconnect_loop (self : ref) (failed : list nat) (sock : nat)
  : M unit :=
  on <- attr self online;;
  if negb on then
    match failed with
    | f :: failed' =>
        reconnect_attempt self f false;;
        reconnect_loop self failed' sock
    | [] => reconnect_attempt self sock true
    end
  else ret tt.

(** [reconnect] *)
Definition reconnect (self : ref) (rs : reconnect_script) : M unit :=
  emit (EvReconnect self);;
  shared <- attr self is_connected_to_shared_instance;;
  if shared then
    busy <- attr self reconnecting;;
    if negb busy then
      setattr self (set_reconnecting true);;
      reconnect_loop self (failed_attempts rs) (final_socket rs);;
      never <- attr self never_connected;;
      (if negb never then log MsgReconnected LOG_INFO self else ret tt);;
      setattr self (set_reconnecting false);;
      emit (EvThread (ReadLoop self));;
      emit (EvThread ReappearedJob)
    else ret tt
  else
    log MsgNonInitiatorReconnect LOG_ERROR self;;
    raise IOError.

(** [process_incoming] *)
Definition process_incoming (self : ref) (data : bytes) : M unit :=
  r <- attr self rxb;;
  setattr self (set_rxb (r + len data));;
  parent <- attr self parent_interface;;
  match parent with
  | Some p =>
      pr <- s_attr p s_rxb;;
      s_setattr p (set_s_rxb (pr + len data))
  | None => ret tt
  end;;
  try_except (owner_inbound data self)
    (fun _ => log MsgInboundError LOG_ERROR self;; emit EvTraceException).

(** [RNS.Transport.interfaces.remove(self)] and the same on
    [local_client_interfaces]. *)
Definition interfaces_remove (self : ref) : M unit := fun w =>
  match py_remove self (interfaces w) with
  | Some l => Ret tt (with_interfaces l w)
  | None => Exn ValueError w
  end.
Definition local_client_interfaces_remove (self : ref) : M unit := fun w =>
  match py_remove self (local_client_interfaces w) with
  | Some l => Ret tt (with_local_client_interfaces l w)
  | None => Exn ValueError w
  end.

(** [teardown] *)
Definition teardown (self : ref) (nowarning : bool) : M unit :=
  emit (EvTeardown self nowarning);;
  setattr self (set_online false);;
  setattr self (set_OUT false);;
  setattr self (set_IN false);;
  ifs <- gets interfaces;;
  (if py_in self ifs then interfaces_remove self else ret tt);;
  lci <- gets local_client_interfaces;;
  (if py_in self lci then
     local_client_interfaces_remove self;;
     parent <- attr self parent_interface;;
     match parent with
     | Some p =>
         n <- s_attr p clients;;
         s_setattr p (set_clients (n - 1));;
         has_owner <- gets transport_owner;;
         if has_owner then emit EvPersist else ret tt
     | None => ret tt
     end
   else ret tt);;
  (if negb nowarning then
     log MsgUnrecoverable LOG_ERROR self;;
     panic <- gets panic_on_interface_error;;
     if panic then rns_panic else ret tt
   else ret tt);;
  shared <- attr self is_connected_to_shared_instance;;
  if shared then
    (if negb nowarning then log MsgLostSharedInstance LOG_CRITICAL self
     else ret tt);;
    rns_exit
  else ret tt.

(** [self.socket.sendall(data)]; [sent] tells whether the call returns,
    having sent all the bytes.  When it raises, some of the bytes may have
    been sent all the same.  A connection without a socket raises on the
    attribute. *)
Definition socket_sendall (self : ref) (data : bytes) (sent : bool) : M unit :=
  s <- attr self socket;;
  match s with
  | None => raise AttributeError
  | Some _ =>
      if sent then emit (EvSendall self data)
      else (emit (EvSendallRaised self data);; raise SocketError)
  end.

(** The latency simulation of [process_outgoing]:
    [s = len(data) / self.bitrate * 8; time.sleep(s)] under the send lock.
    The division raises for a zero bitrate; for any other, [latency_raises]
    tells what the float computation and [time.sleep] do. *)
Definition simulate_latency (self : ref) (data : bytes) : M unit :=
  has_lock <- attr self send_lock;;
  (if negb has_lock then setattr self (set_send_lock true) else ret tt);;
  rate <- attr self bitrate;;
  if rate =? 0 then raise ZeroDivisionError
  else match latency_raises (len data) rate with
       | Some e => raise e
       | None => emit (EvSleep (len data * 8) rate)
       end.

(** [process_outgoing] *)
Definition process_outgoing (self : ref) (data : bytes) (sent : bool)
  : M unit :=
  on <- attr self online;;
  if on then
    try_except
      (setattr self (set_writing true);;
       force <- attr self force_bitrate;;
       (if force then simulate_latency self data else ret tt);;
       let data := [HDLC.FLAG] ++ HDLC.escape data ++ [HDLC.FLAG] in
       socket_sendall self data sent;;
       setattr self (set_writing false);;
       t <- attr self txb;;
       setattr self (set_txb (t + len data));;
       parent <- attr self parent_interface;;
       match parent with
       | Some p =>
           pt <- s_attr p s_txb;;
           s_setattr p (set_s_txb (pt + len data))
       | None => ret tt
       end)
      (fun _ =>
         log MsgTransmitException LOG_ERROR self;;
         log MsgContainedException LOG_ERROR self;;
         emit EvTraceException;;
         teardown self false)
  else ret tt.

(** The [while flags_remaining] loop of [read_loop].  Every round that
    goes on cuts at least one byte off the buffer, so [fuel] above the
    buffer length is never used up. *)
Fixpoint flags_loop (fuel : nat) (self : ref) (frame_buffer : bytes)
  : M bytes :=
  match fuel with
  | O => stuck
  | S fuel' =>
      let frame_start := find HDLC.FLAG 0 frame_buffer in
      if negb (frame_start =? -1) then
        let frame_end := find HDLC.FLAG (frame_start + 1) frame_buffer in
        if negb (frame_end =? -1) then
          let frame := slice (frame_start + 1) frame_end frame_buffer in
          let frame :=
            replace [HDLC.ESC; Z.lxor HDLC.FLAG HDLC.ESC_MASK] [HDLC.FLAG]
              frame in
          let frame :=
            replace [HDLC.ESC; Z.lxor HDLC.ESC HDLC.ESC_MASK] [HDLC.ESC]
              frame in
          (if Z.of_nat HEADER_MINSIZE <? len frame
           then process_incoming self frame else ret tt);;
          flags_loop fuel' self (slice_from frame_end frame_buffer)
        else ret frame_buffer
      else ret frame_buffer
  end.

(** [self.socket.recv(4096)] *)
Definition socket_recv (self : ref) (r : recv_result) : M bytes :=
  s <- attr self socket;;
  match s with
  | None => raise AttributeError
  | Some _ =>
      match r with
      | Received data => ret data
      | RecvRaises => raise SocketError
      end
  end.

(** The [while True] loop of [read_loop], from a given [frame_buffer], over
    the results of the successive [recv] calls.  [Some frame_buffer] is the
    loop blocked in the next [recv]; [None] is the loop left by [break]. *)
Fixpoint read_loop_from (self : ref) (frame_buffer : bytes)
    (script : list recv_result) (rs : reconnect_script)
  : M (option bytes) :=
  match script with
  | [] => ret (Some frame_buffer)
  | r :: script' =>
      data_in <- socket_recv self r;;
      if 0 <? len data_in then
        let frame_buffer := frame_buffer ++ data_in in
        frame_buffer <-
          flags_loop (S (length frame_buffer)) self frame_buffer;;
        read_loop_from self frame_buffer script' rs
      else
        setattr self (set_online false);;
        shared <- attr self is_connected_to_shared_instance;;
        gone <- attr self detached;;
        (if shared && negb gone then
           log MsgSocketClosed LOG_WARNING self;;
           emit EvDisappeared;;
           reconnect self rs
         else teardown self true);;
        ret None
  end.

(** [read_loop] *)
Definition read_loop (self : ref) (script : list recv_result)
    (rs : reconnect_script) : M (option bytes) :=
  try_except (read_loop_from self [] script rs)
    (fun _ =>
       setattr self (set_online false);;
       log MsgInterfaceError LOG_ERROR self;;
       log MsgTearingDown LOG_ERROR self;;
       teardown self false;;
       ret None).

(** [detach]; [shutdown_ok] and [close_ok] tell whether the two socket
    calls succeed. *)
Definition detach (self : ref) (shutdown_ok close_ok : bool) : M unit :=
  s <- attr self socket;;
  match s with
  | Some _ =>
      log MsgDetaching LOG_DEBUG self;;
      setattr self (set_detached true);;
      try_except
        (if shutdown_ok then emit (EvShutdown self) else raise SocketError)
        (fun _ => log MsgShutdownError LOG_NOTICE self);;
      try_except
        (if close_ok then emit (EvClose self) else raise SocketError)
        (fun _ => log MsgCloseError LOG_NOTICE self);;
      setattr self (set_socket None)
  | None => ret tt
  end.

(** The object at the start of [__init__], before the branch on its
    arguments.  The attributes that every modelled run assigns before it
    returns ([target_port], [is_connected_to_shared_instance], [bitrate],
    [writing], [_force_bitrate]) hold placeholders until then; the counters
    are those of [Interface.__init__], as in [spawned_client]. *)
Definition blank_client : client :=
  {| online := false; IN := true; OUT := false; socket := None;
     parent_interface := None; reconnecting := false; never_connected := true;
     detached := false; target_port := PyNone;
     is_connected_to_shared_instance := false; rxb := 0; txb := 0;
     bitrate := 0; writing := false; force_bitrate := false;
     send_lock := false |}.

(** [LocalClientInterface.__init__]; [sock] and [ok] are the socket that
    [connect] creates and whether its [connect] call succeeds.  Given neither
    argument the constructor never assigns
    [is_connected_to_shared_instance]: the record cannot hold such an object,
    and the model has no behaviour there. *)
Definition __init__ (target_port : option Z) (connected_socket : option nat)
    (sock : nat) (ok : bool) : M ref :=
  self <- new_client blank_client;;
  match connected_socket with
  | Some s =>
      setattr self (set_target_port PyNone);;
      setattr self (set_socket (Some s));;
      setattr self (set_is_connected_to_shared_instance false)
  | None =>
      match target_port with
      | Some p =>
          setattr self (set_target_port (PyInt p));;
          connect self sock ok;;
          ret tt
      | None => stuck
      end
  end;;
  setattr self (set_bitrate 1000000000);;
  setattr self (set_online true);;
  setattr self (set_writing false);;
  setattr self (set_force_bitrate false);;
  match connected_socket with
  | None => emit (EvThread (ReadLoop self))
  | Some _ => ret tt
  end;;
  ret self.

(** ** class LocalServerInterface *)

(** [hasattr(self, "owner")] on a server: [__init__] assigns [owner] under
    [bindport != None] only (line 314), in the branch that assigns
    [bind_port] (line 307), and nothing in the module assigns or deletes
    either of them afterwards. *)
Definition has_owner (s : server) : bool :=
  match bind_port s with
  | Some _ => true
  | None => false
  end.

(** [incoming_connection] up to the registration of the spawned
    interface (lines 336 to 349).  The constructor call of line 337 reads
    [self.owner] for its first argument: on a server without that attribute
    it raises [AttributeError] before any object is created. *)
Definition spawn (self : ref) (h : handler) : M ref :=
  owner <- s_attr self has_owner;;
  if owner then
    spawned_interface <- new_client (spawned_client (request h));;
    out <- s_attr self s_OUT;;
    setattr spawned_interface (set_OUT out);;
    inn <- s_attr self s_IN;;
    setattr spawned_interface (set_IN inn);;
    setattr spawned_interface
      (set_target_port (PyStr (py_str (PyInt (snd (client_address h))))));;
    setattr spawned_interface (set_parent_interface (Some self));;
    rate <- s_attr self s_bitrate;;
    setattr spawned_interface (set_bitrate rate);;
    force <- s_attr self s_force_bitrate;;
    match force with
    | Some f => setattr spawned_interface (set_force_bitrate f)
    | None => ret tt
    end;;
    modify (fun w => with_interfaces (interfaces w ++ [spawned_interface]) w);;
    modify (fun w =>
      with_local_client_interfaces
        (local_client_interfaces w ++ [spawned_interface]) w);;
    n <- s_attr self clients;;
    s_setattr self (set_clients (n + 1));;
    ret spawned_interface
  else raise AttributeError.

(** [incoming_connection]: the spawned interface's read loop runs in the
    accepting call. *)
Definition incoming_connection (self : ref) (h : handler)
    (script : list recv_result) (rs : reconnect_script) : M unit :=
  spawned_interface <- spawn self h;;
  read_loop spawned_interface script rs;;
  ret tt.

(** [LocalServerInterface.process_outgoing] *)
Definition server_process_outgoing (self : ref) (data : bytes) : M unit :=
  ret tt.


(** ** Functions used to state the properties *)

(** The escape of one byte after the first and after both substitutions
    of [HDLC.escape]. *)
Definition esc_byte (b : Z) : bytes :=
  if b =? HDLC.ESC then [HDLC.ESC; Z.lxor HDLC.ESC HDLC.ESC_MASK] else [b].
Definition flag_byte (b : Z) : bytes :=
  if b =? HDLC.FLAG then [HDLC.ESC; Z.lxor HDLC.FLAG HDLC.ESC_MASK] else [b].

(** The frames one pass of the [while flags_remaining] loop hands to
    [process_incoming], in order, and the buffer it leaves: the loop of
    [flags_loop] without its effects. *)
Definition keep (frame : bytes) : list bytes :=
  if Z.of_nat HEADER_MINSIZE <? len frame then [frame] else [].

Fixpoint frames_fuel (fuel : nat) (frame_buffer : bytes) : list bytes * bytes :=
  match fuel with
  | O => ([], frame_buffer)
  | S fuel' =>
      let frame_start := find HDLC.FLAG 0 frame_buffer in
      if negb (frame_start =? -1) then
        let frame_end := find HDLC.FLAG (frame_start + 1) frame_buffer in
        if negb (frame_end =? -1) then
          let frame :=
            HDLC.unescape (slice (frame_start + 1) frame_end frame_buffer) in
          let rest := frames_fuel fuel' (slice_from frame_end frame_buffer) in
          (keep frame ++ fst rest, snd rest)
        else ([], frame_buffer)
      else ([], frame_buffer)
  end.

Definition frames_of (frame_buffer : bytes) : list bytes * bytes :=
  frames_fuel (S (length frame_buffer)) frame_buffer.

(** The state [process_incoming self data] leaves behind; [w2] is the
    state with the counters raised, in which the owner is called. *)
Definition received (self : ref) (data : bytes) (w : world) : world :=
  match clients_heap w !! self with
  | None => w
  | Some o =>
      let w1 :=
        with_clients_heap
          (<[self := set_rxb (rxb o + len data) o]> (clients_heap w)) w in
      let w2 :=
        match parent_interface o with
        | Some p =>
            match servers_heap w !! p with
            | Some s =>
                with_servers_heap
                  (<[p := set_s_rxb (s_rxb s + len data) s]> (servers_heap w))
                  w1
            | None => w1
            end
        | None => w1
        end in
      with_trace
        (trace w ++ EvInbound data self ::
           (if inbound_raises w2 data self
            then [EvLog MsgInboundError LOG_ERROR self; EvTraceException]
            else []))
        w2
  end.

Definition received_all (self : ref) (frames : list bytes) (w : world) : world :=
  fold_left (fun w data => received self data w) frames w.

(** The frames handed to the owner by [self], as the trace records them. *)
Fixpoint deliveries (self : ref) (tr : list event) : list bytes :=
  match tr with
  | [] => []
  | EvInbound data c :: tr' =>
      if decide (c = self) then data :: deliveries self tr'
      else deliveries self tr'
  | _ :: tr' => deliveries self tr'
  end.

(** A client object with its parent, if it has one, in the store. *)
Definition allocated (w : world) (self : ref) : Prop :=
  exists o, clients_heap w !! self = Some o
    /\ forall p, parent_interface o = Some p -> is_Some (servers_heap w !! p).

(** An allocated client that holds a socket. *)
Definition connected (w : world) (self : ref) : Prop :=
  exists o, clients_heap w !! self = Some o
    /\ is_Some (socket o)
    /\ forall p, parent_interface o = Some p -> is_Some (servers_heap w !! p).

(** [n] calls of [process_outgoing], one per frame, on each of which
    [sendall] returns. *)
Fixpoint send_all (self : ref) (frames : list bytes) : M unit :=
  match frames with
  | [] => ret tt
  | data :: frames' =>
      process_outgoing self data true;;
      send_all self frames'
  end.

(** The registry after [if self in l: l.remove(self)]. *)
Definition remove_if_in (x : ref) (l : list ref) : list ref :=
  match py_remove x l with
  | Some l' => l'
  | None => l
  end.

(** What [teardown] leaves behind: whether it ends the process, the events
    it causes after its entry, and the state. *)
Definition teardown_exits (nowarning : bool) (w : world) (o : client) : bool :=
  (negb nowarning && panic_on_interface_error w)
  || is_connected_to_shared_instance o.

Definition teardown_events (self : ref) (nowarning : bool) (w : world)
    (o : client) : list event :=
  (if py_in self (local_client_interfaces w)
   then match parent_interface o with
        | Some _ => if transport_owner w then [EvPersist] else []
        | None => []
        end
   else [])
  ++ (if negb nowarning then [EvLog MsgUnrecoverable LOG_ERROR self] else [])
  ++ (if negb nowarning && panic_on_interface_error w then [EvPanic]
      else if is_connected_to_shared_instance o
           then (if negb nowarning
                 then [EvLog MsgLostSharedInstance LOG_CRITICAL self]
                 else [])
                ++ [EvExit]
           else []).

Definition teardown_servers (self : ref) (w : world) (o : client)
  : list server :=
  if py_in self (local_client_interfaces w)
  then match parent_interface o with
       | Some p =>
           match servers_heap w !! p with
           | Some s => <[p := set_clients (clients s - 1) s]> (servers_heap w)
           | None => servers_heap w
           end
       | None => servers_heap w
       end
  else servers_heap w.

Definition teardown_world (self : ref) (nowarning : bool) (w : world)
    (o : client) : world :=
  {| clients_heap :=
       <[self := set_IN false (set_OUT false (set_online false o))]>
         (clients_heap w);
     servers_heap := teardown_servers self w o;
     interfaces := remove_if_in self (interfaces w);
     local_client_interfaces := remove_if_in self (local_client_interfaces w);
     transport_owner := transport_owner w;
     panic_on_interface_error := panic_on_interface_error w;
     trace :=
       trace w ++ EvTeardown self nowarning
         :: teardown_events self nowarning w o |}.

(** How often a server's spawned interfaces stand in a registry. *)
Definition children (w : world) (srv : ref) (registry : list ref) : list ref :=
  filter (fun c => parent_interface <$> clients_heap w !! c = Some (Some srv))
    registry.

(** A registry that holds [x] at one place at most. *)
Definition at_most_once (x : ref) (l : list ref) : Prop :=
  forall i j : nat, l !! i = Some x -> l !! j = Some x -> i = j.

(** Events other than the entry of [teardown]. *)
Definition no_teardown (e : event) : Prop :=
  match e with
  | EvTeardown _ _ => False
  | _ => True
  end.

(** Events other than the disappearance signal and the entry of
    [reconnect]. *)
Definition no_reconnect (e : event) : Prop :=
  match e with
  | EvReconnect _ | EvDisappeared => False
  | _ => True
  end.

(** A computation that, started with [self] in the store, ends with
    [self] in the store and has caused no [teardown]; [may_raise] lets it end
    by an exception, [returns] does not. *)
Definition may_raise {A} (self : ref) (m : M A) : Prop :=
  forall w o, clients_heap w !! self = Some o ->
    exists w' o' tl,
      clients_heap w' !! self = Some o'
      /\ trace w' = trace w ++ tl
      /\ Forall no_teardown tl
      /\ ((exists a, m w = Ret a w') \/ (exists e, m w = Exn e w')).

Definition returns {A} (self : ref) (m : M A) : Prop :=
  forall w o, clients_heap w !! self = Some o ->
    exists w' o' tl,
      clients_heap w' !! self = Some o'
      /\ trace w' = trace w ++ tl
      /\ Forall no_teardown tl
      /\ exists a, m w = Ret a w'.

(** The interface [incoming_connection] registers for handler [h] on the
    server [s] stored at [srv]. *)
Definition spawned_interface_of (srv : ref) (s : server) (h : handler) : client :=
  {| online := true; IN := s_IN s; OUT := s_OUT s;
     socket := Some (request h); parent_interface := Some srv;
     reconnecting := false; never_connected := true; detached := false;
     target_port := PyStr (py_str (PyInt (snd (client_address h))));
     is_connected_to_shared_instance := false;
     rxb := 0; txb := 0; bitrate := s_bitrate s; writing := false;
     force_bitrate :=
       match s_force_bitrate s with Some f => f | None => false end;
     send_lock := false |}.

(** The state after the registration. *)
Definition spawn_world (srv : ref) (s : server) (h : handler) (w : world)
  : world :=
  {| clients_heap := clients_heap w ++ [spawned_interface_of srv s h];
     servers_heap := <[srv := set_clients (clients s + 1) s]> (servers_heap w);
     interfaces := interfaces w ++ [length (clients_heap w)];
     local_client_interfaces :=
       local_client_interfaces w ++ [length (clients_heap w)];
     transport_owner := transport_owner w;
     panic_on_interface_error := panic_on_interface_error w;
     trace := trace w |}.

(** A process that has built its servers, has perhaps dialled out, and has
    accepted nothing yet: no stored interface has a parent, the registries
    hold stored interfaces once each, and every client counter is 0. *)
Definition initial (w : world) : Prop :=
  (forall c o, clients_heap w !! c = Some o -> parent_interface o = None)
  /\ NoDup (interfaces w)
  /\ NoDup (local_client_interfaces w)
  /\ (forall c, c ∈ interfaces w -> is_Some (clients_heap w !! c))
  /\ (forall c, c ∈ local_client_interfaces w ->
        is_Some (clients_heap w !! c))
  /\ Forall (fun s => clients s = 0) (servers_heap w).

(** The state an outcome ends in, when the run has one. *)
Definition outcome_state {A} (r : outcome A) : option world :=
  match r with
  | Ret _ w | Exn _ w | Exited w => Some w
  | Stuck => None
  end.

(** One operation of the module, run without interleaving to the state in
    which it returns, raises or ends the process: a server registers an
    accepted connection ([step_accept], the state in which the spawned read
    loop starts) or handles it to the end ([step_incoming]); an interface is
    torn down; a read loop runs over some reads; a frame is sent; an
    interface is detached. *)
Inductive step : world -> world -> Prop :=
| step_accept (srv : ref) (h : handler) (w w' : world) :
    outcome_state (spawn srv h w) = Some w' -> step w w'
| step_incoming (srv : ref) (h : handler) (script : list recv_result)
    (rs : reconnect_script) (w w' : world) :
    outcome_state (incoming_connection srv h script rs w) = Some w' ->
    step w w'
| step_teardown (c : ref) (nowarning : bool) (w w' : world) :
    outcome_state (teardown c nowarning w) = Some w' -> step w w'
| step_read (c : ref) (script : list recv_result) (rs : reconnect_script)
    (w w' : world) :
    outcome_state (read_loop c script rs w) = Some w' -> step w w'
| step_outgoing (c : ref) (data : bytes) (sent : bool) (w w' : world) :
    outcome_state (process_outgoing c data sent w) = Some w' -> step w w'
| step_detach (c : ref) (shutdown_ok close_ok : bool) (w w' : world) :
    outcome_state (detach c shutdown_ok close_ok w) = Some w' -> step w w'.

Inductive reachable : world -> Prop :=
| reachable_initial (w : world) : initial w -> reachable w
| reachable_step (w w' : world) : reachable w -> step w w' -> reachable w'.

(** What holds of the registries and counters between operations. *)
Record consistent (w : world) : Prop := Consistent {
  parents_stored :
    forall c o p, clients_heap w !! c = Some o ->
      parent_interface o = Some p -> is_Some (servers_heap w !! p);
  interfaces_once : NoDup (interfaces w);
  local_clients_once : NoDup (local_client_interfaces w);
  interfaces_stored :
    forall c, c ∈ interfaces w -> is_Some (clients_heap w !! c);
  local_clients_stored :
    forall c, c ∈ local_client_interfaces w -> is_Some (clients_heap w !! c);
  children_in_both :
    forall c o, clients_heap w !! c = Some o ->
      is_Some (parent_interface o) ->
      (c ∈ interfaces w <-> c ∈ local_client_interfaces w);
  clients_counted :
    forall srv s, servers_heap w !! srv = Some s ->
      clients s = Z.of_nat (length (children w srv (interfaces w)))
}.

(** A computation that leaves a consistent state consistent, however it
    ends. *)
Definition keeps_consistent {A} (m : M A) : Prop :=
  forall w w', consistent w -> outcome_state (m w) = Some w' -> consistent w'.

(** A computation that, started with [self] and its parent in the store,
    has a behaviour and leaves them there.  [settles] lets it end by an
    exception; [contained] does not: the computation returns or ends the
    process. *)
Definition settles {A} (self : ref) (m : M A) : Prop :=
  forall w, allocated w self ->
    match m w with
    | Ret _ w' | Exn _ w' => allocated w' self
    | Exited _ => True
    | Stuck => False
    end.

Definition contained {A} (self : ref) (m : M A) : Prop :=
  forall w, allocated w self ->
    match m w with
    | Ret _ w' => allocated w' self
    | Exited _ => True
    | Exn _ _ | Stuck => False
    end.

(** The calls of [process_outgoing] whose [try] body raises: the interface
    has no socket, [sendall] raises, or the latency simulation divides by a
    zero bitrate or raises while computing the duration or sleeping. *)
Definition send_fails (o : client) (data : bytes) (sent : bool) : Prop :=
  socket o = None \/ sent = false
  \/ (force_bitrate o = true
      /\ (bitrate o = 0 \/ is_Some (latency_raises (len data) (bitrate o)))).

(** Events other than a [sendall] that returned. *)
Definition no_send (e : event) : Prop :=
  match e with
  | EvSendall _ _ => False
  | _ => True
  end.

(** Events other than a call on a socket. *)
Definition no_socket_call (e : event) : Prop :=
  match e with
  | EvSendall _ _ | EvSendallRaised _ _ | EvConnect _ _ | EvShutdown _
  | EvClose _ => False
  | _ => True
  end.

(** The bytes [self] has put on its socket by the [sendall]s that returned,
    as the trace records them. *)
Fixpoint wire (self : ref) (tr : list event) : bytes :=
  match tr with
  | [] => []
  | EvSendall c data :: tr' =>
      if decide (c = self) then data ++ wire self tr' else wire self tr'
  | _ :: tr' => wire self tr'
  end.

(** ** Concrete states *)

(** A server as [LocalServerInterface.__init__] leaves it for
    [bindport=37428], in a process that has accepted nothing. *)
Definition example_server : server :=
  {| s_online := true; clients := 0; s_IN := true; s_OUT := false;
     bind_port := Some (PyInt 37428); s_rxb := 0; s_txb := 0;
     s_bitrate := 1000000000; s_force_bitrate := None |}.

(** A server built without a bind port: it is offline and has neither
    [bind_port] nor [owner]; [rate] is the bitrate its base class gave it. *)
Definition unbound_server (rate : Z) : server :=
  {| s_online := false; clients := 0; s_IN := true; s_OUT := false;
     bind_port := None; s_rxb := 0; s_txb := 0;
     s_bitrate := rate; s_force_bitrate := None |}.

Definition fresh_world : world :=
  {| clients_heap := []; servers_heap := [example_server];
     interfaces := []; local_client_interfaces := [];
     transport_owner := false; panic_on_interface_error := false;
     trace := [] |}.

Definition example_handler : handler :=
  {| request := 7; client_address := ("127.0.0.1"%string, 50123) |}.

(** The state after the server accepted one connection. *)
Definition accepted_world : world :=
  spawn_world 0 example_server example_handler fresh_world.

(** An initiating connection as [__init__] leaves it for
    [target_port=37428], registered by its owner. *)
Definition example_initiator : client :=
  {| online := true; IN := true; OUT := false; socket := Some 3%nat;
     parent_interface := None; reconnecting := false;
     never_connected := false; detached := false;
     target_port := PyInt 37428; is_connected_to_shared_instance := true;
     rxb := 0; txb := 0; bitrate := 1000000000; writing := false;
     force_bitrate := false; send_lock := false |}.

Definition dialed_world : world :=
  {| clients_heap := [example_initiator]; servers_heap := [];
     interfaces := [0%nat]; local_client_interfaces := [];
     transport_owner := false; panic_on_interface_error := false;
     trace := [] |}.

(** An owner whose [inbound] never raises, and one that always does. *)
Definition calm_owner : world -> bytes -> ref -> bool :=
  fun _ _ _ => false.

(** A clock on which the latency simulation never raises. *)
Definition steady_clock : Z -> Z -> option exn := fun _ _ => None.

(** An owner that checks the books: it raises unless the receive counter of
    the interface it is handed already counts the frame. *)
Definition auditing_owner : world -> bytes -> ref -> bool :=
  fun w data self =>
    match clients_heap w !! self with
    | Some o => rxb o <? len data
    | None => true
    end.

Definition no_retries : reconnect_script :=
  {| failed_attempts := []; final_socket := 4%nat |}.

(** * Properties *)

Import HDLC.


(** ** The framer: escaping and its inverse *)

Lemma replace_single (o : Z) (new data : bytes) :
  replace [o] new data = flat_map (fun b => if b =? o then new else [b]) data.
Proof.
  unfold replace.
  induction data as [|b data IH]; [reflexivity|].
  cbn [replace_scan startswith flat_map length Nat.pred].
  rewrite (Z.eqb_sym o b), andb_true_r, IH.
  destruct (b =? o); reflexivity.
Qed.

Lemma escape_flat_map (p : bytes) :
  escape p = flat_map flag_byte (flat_map esc_byte p).
Proof. unfold escape. rewrite !replace_single. reflexivity. Qed.

Lemma scan_hit (a b : Z) (new rest : bytes) :
  replace_scan [a; b] new 0 (a :: b :: rest)
  = new ++ replace_scan [a; b] new 0 rest.
Proof. cbn. rewrite !Z.eqb_refl. reflexivity. Qed.

Lemma scan_miss (a b x : Z) (new rest : bytes) :
  a <> x ->
  replace_scan [a; b] new 0 (x :: rest)
  = x :: replace_scan [a; b] new 0 rest.
Proof.
  intros H. cbn. destruct (Z.eqb_spec a x); [contradiction|reflexivity].
Qed.

Lemma scan_miss_second (a b y : Z) (new rest : bytes) :
  b <> y ->
  replace_scan [a; b] new 0 (a :: y :: rest)
  = a :: replace_scan [a; b] new 0 (y :: rest).
Proof.
  intros H. cbn [replace_scan startswith].
  rewrite Z.eqb_refl. destruct (Z.eqb_spec b y); [contradiction|reflexivity].
Qed.

(** Undoing the flag substitution leaves the escaped escape bytes alone. *)
Lemma unflag_flat_map (p : bytes) :
  replace [ESC; Z.lxor FLAG ESC_MASK] [FLAG]
    (flat_map flag_byte (flat_map esc_byte p)) = flat_map esc_byte p.
Proof.
  unfold replace.
  induction p as [|b p IH]; [reflexivity|].
  cbn [flat_map]. rewrite flat_map_app.
  unfold esc_byte at 1 3.
  destruct (Z.eqb_spec b ESC) as [->|Hesc].
  - change (flat_map flag_byte [ESC; Z.lxor ESC ESC_MASK])
      with [ESC; Z.lxor ESC ESC_MASK].
    cbn [app].
    rewrite scan_miss_second by discriminate.
    rewrite scan_miss by discriminate.
    rewrite IH. reflexivity.
  - cbn [flat_map app]. rewrite app_nil_r. unfold flag_byte at 1.
    destruct (Z.eqb_spec b FLAG) as [->|Hflag].
    + cbn [app]. rewrite scan_hit, IH. reflexivity.
    + cbn [app]. rewrite scan_miss by congruence.
      rewrite IH. reflexivity.
Qed.

Lemma unesc_flat_map (p : bytes) :
  replace [ESC; Z.lxor ESC ESC_MASK] [ESC] (flat_map esc_byte p) = p.
Proof.
  unfold replace.
  induction p as [|b p IH]; [reflexivity|].
  cbn [flat_map]. unfold esc_byte at 1.
  destruct (Z.eqb_spec b ESC) as [->|Hesc].
  - cbn [app]. rewrite scan_hit, IH. reflexivity.
  - cbn [app]. rewrite scan_miss by congruence.
    rewrite IH. reflexivity.
Qed.

Lemma unescape_escape (p : bytes) : unescape (escape p) = p.
Proof.
  unfold unescape. rewrite escape_flat_map, unflag_flat_map.
  apply unesc_flat_map.
Qed.

Lemma flag_not_in_escape (p : bytes) : FLAG ∉ escape p.
Proof.
  rewrite escape_flat_map.
  induction (flat_map esc_byte p) as [|b l IH]; cbn [flat_map].
  - apply not_elem_of_nil.
  - rewrite elem_of_app. intros [H|H]; [|exact (IH H)].
    unfold flag_byte in H.
    destruct (Z.eqb_spec b FLAG) as [->|Hb].
    + apply elem_of_cons in H as [H|H]; [discriminate|].
      apply list_elem_of_singleton in H. discriminate.
    + apply list_elem_of_singleton in H. congruence.
Qed.

(** C1: applying the substitutions of the read loop to [HDLC.escape p]
    gives [p] back, and in the frame [FLAG + escape(p) + FLAG] the flag byte
    stands at the two ends only. *)
Theorem escape_roundtrip_and_flags (p : bytes) :
  replace [ESC; Z.lxor ESC ESC_MASK] [ESC]
    (replace [ESC; Z.lxor FLAG ESC_MASK] [FLAG] (escape p)) = p
  /\ forall i : nat,
       encode p !! i = Some FLAG ->
       i = 0%nat \/ i = S (length (escape p)).
Proof.
  split; [exact (unescape_escape p)|].
  intros i Hi. unfold encode in Hi.
  destruct i as [|i]; [left; reflexivity|right].
  change (([FLAG] ++ escape p ++ [FLAG]) !! S i)
    with ((escape p ++ [FLAG]) !! i) in Hi.
  destruct (decide (i < length (escape p))%nat) as [Hlt|Hge].
  - rewrite lookup_app_l in Hi by exact Hlt.
    exfalso. apply (flag_not_in_escape p).
    apply list_elem_of_lookup. eauto.
  - rewrite lookup_app_r in Hi by lia.
    destruct (i - length (escape p))%nat as [|k] eqn:E; [f_equal; lia|].
    cbn in Hi. discriminate.
Qed.

(** ** Python's [find] and slices on a buffer *)

Lemma index_from_bounds (b i : Z) (data : bytes) :
  index_from b i data = -1
  \/ i <= index_from b i data < i + len data.
Proof.
  unfold len. revert i.
  induction data as [|d data IH]; intros i; [left; reflexivity|].
  cbn [index_from]. destruct (d =? b).
  - right. cbn [length]. lia.
  - destruct (IH (i + 1)) as [H|H]; [left; exact H|right].
    cbn [length]. lia.
Qed.

Lemma index_from_app (b i : Z) (data extra : bytes) :
  index_from b i data <> -1 ->
  index_from b i (data ++ extra) = index_from b i data.
Proof.
  revert i. induction data as [|d data IH]; intros i H; [contradiction|].
  cbn [app index_from] in *. destruct (d =? b); [reflexivity|].
  apply IH. exact H.
Qed.

Lemma index_from_skip (b i : Z) (e rest : bytes) :
  b ∉ e -> index_from b i (e ++ b :: rest) = i + len e.
Proof.
  unfold len. revert i. induction e as [|d e IH]; intros i H.
  - cbn. rewrite Z.eqb_refl. lia.
  - cbn [app index_from].
    destruct (Z.eqb_spec d b) as [->|_].
    + exfalso. apply H. left.
    + rewrite IH; [cbn [length]; lia|].
      intros Hin. apply H. right. exact Hin.
Qed.

Lemma index_from_absent (b i : Z) (data : bytes) :
  b ∉ data -> index_from b i data = -1.
Proof.
  revert i. induction data as [|d data IH]; intros i H; [reflexivity|].
  cbn [index_from]. destruct (Z.eqb_spec d b) as [->|_].
  - exfalso. apply H. left.
  - apply IH. intros Hin. apply H. right. exact Hin.
Qed.

Lemma index_from_lookup (b i : Z) (data : bytes) :
  index_from b i data <> -1 ->
  data !! Z.to_nat (index_from b i data - i) = Some b.
Proof.
  revert i. induction data as [|d data IH]; intros i H; [contradiction|].
  cbn [index_from] in *. destruct (Z.eqb_spec d b) as [->|_].
  - replace (i - i) with 0 by lia. reflexivity.
  - specialize (IH (i + 1) H).
    destruct (index_from_bounds b (i + 1) data) as [E|E]; [contradiction|].
    replace (Z.to_nat (index_from b (i + 1) data - i))
      with (S (Z.to_nat (index_from b (i + 1) data - (i + 1)))) by lia.
    exact IH.
Qed.

Lemma find_bounds (b start : Z) (data : bytes) :
  0 <= start -> find b start data <> -1 ->
  start <= find b start data < len data.
Proof.
  unfold find, len. intros Hs H.
  destruct (index_from_bounds b start (drop (Z.to_nat start) data)) as [E|E];
    [contradiction|].
  unfold len in E. rewrite length_drop in E.
  destruct (decide (Z.to_nat start < length data)%nat) as [Hlt|Hge]; [lia|].
  rewrite drop_ge in H by lia. contradiction.
Qed.

Lemma find_app (b start : Z) (data extra : bytes) :
  0 <= start -> find b start data <> -1 ->
  find b start (data ++ extra) = find b start data.
Proof.
  intros Hs H. pose proof (find_bounds b start data Hs H) as Hb.
  unfold find, len in *.
  rewrite drop_app_le by lia.
  apply index_from_app. exact H.
Qed.

Lemma find_lookup (b start : Z) (data : bytes) :
  0 <= start -> find b start data <> -1 ->
  data !! Z.to_nat (find b start data) = Some b.
Proof.
  intros Hs H. pose proof (find_bounds b start data Hs H) as Hb.
  unfold find in *.
  pose proof (index_from_lookup b start _ H) as L.
  rewrite lookup_drop in L.
  replace (Z.to_nat (index_from b start (drop (Z.to_nat start) data)))
    with (Z.to_nat start
          + Z.to_nat (index_from b start (drop (Z.to_nat start) data) - start))%nat
    by lia.
  exact L.
Qed.

(** Where the two flags of a complete frame stand, and that the cut of line
    215 shortens the buffer. *)
Lemma frame_bounds (buf : bytes) :
  find FLAG 0 buf <> -1 ->
  find FLAG (find FLAG 0 buf + 1) buf <> -1 ->
  0 <= find FLAG 0 buf
  /\ find FLAG 0 buf < find FLAG (find FLAG 0 buf + 1) buf < len buf
  /\ (length (slice_from (find FLAG (find FLAG 0 buf + 1) buf) buf)
      < length buf)%nat.
Proof.
  intros H1 H2.
  pose proof (find_bounds FLAG 0 buf ltac:(lia) H1) as B1.
  pose proof (find_bounds FLAG (find FLAG 0 buf + 1) buf ltac:(lia) H2) as B2.
  unfold slice_from, len in *. rewrite length_drop. lia.
Qed.

Lemma find_flag_head (rest : bytes) : find FLAG 0 (FLAG :: rest) = 0.
Proof. reflexivity. Qed.

Lemma find_flag_closing (e rest : bytes) :
  FLAG ∉ e -> find FLAG 1 (FLAG :: e ++ FLAG :: rest) = 1 + len e.
Proof. intros H. unfold find. cbn [Z.to_nat Pos.to_nat Pos.iter_op drop].
  apply index_from_skip. exact H.
Qed.

Lemma slice_between (e rest : bytes) :
  slice 1 (1 + len e) (FLAG :: e ++ FLAG :: rest) = e.
Proof.
  unfold slice, len.
  replace (Z.to_nat (1 + Z.of_nat (length e)) - Z.to_nat 1)%nat
    with (length e) by lia.
  change (Z.to_nat 1) with 1%nat. cbn [drop]. rewrite drop_0.
  rewrite take_app_length. reflexivity.
Qed.

Lemma slice_from_closing (e rest : bytes) :
  slice_from (1 + len e) (FLAG :: e ++ FLAG :: rest) = FLAG :: rest.
Proof.
  unfold slice_from, len.
  replace (Z.to_nat (1 + Z.of_nat (length e))) with (S (length e)) by lia.
  cbn [drop]. rewrite drop_app_length. reflexivity.
Qed.

(** ** The frames of a buffer *)

Lemma frames_fuel_irrel (n m : nat) (buf : bytes) :
  (length buf < n)%nat -> (length buf < m)%nat ->
  frames_fuel n buf = frames_fuel m buf.
Proof.
  revert m buf. induction n as [|n IH]; intros m buf Hn Hm; [lia|].
  destruct m as [|m]; [lia|].
  cbn [frames_fuel].
  destruct (Z.eqb_spec (find FLAG 0 buf) (-1)) as [|H1]; [reflexivity|].
  destruct (Z.eqb_spec (find FLAG (find FLAG 0 buf + 1) buf) (-1)) as [|H2];
    [reflexivity|].
  cbn [negb].
  destruct (frame_bounds buf H1 H2) as (_ & _ & Hlen).
  rewrite (IH m) by lia. reflexivity.
Qed.

Lemma frames_of_no_flag (buf : bytes) :
  find FLAG 0 buf = -1 -> frames_of buf = ([], buf).
Proof. intros H. unfold frames_of. cbn [frames_fuel]. rewrite H. reflexivity. Qed.

Lemma frames_of_open (buf : bytes) :
  find FLAG 0 buf <> -1 ->
  find FLAG (find FLAG 0 buf + 1) buf = -1 ->
  frames_of buf = ([], buf).
Proof.
  intros H1 H2. unfold frames_of. cbn [frames_fuel].
  destruct (Z.eqb_spec (find FLAG 0 buf) (-1)); [contradiction|].
  rewrite H2. reflexivity.
Qed.

Lemma frames_of_frame (buf : bytes) :
  find FLAG 0 buf <> -1 ->
  find FLAG (find FLAG 0 buf + 1) buf <> -1 ->
  frames_of buf =
    (keep (unescape (slice (find FLAG 0 buf + 1)
                       (find FLAG (find FLAG 0 buf + 1) buf) buf))
       ++ fst (frames_of (slice_from (find FLAG (find FLAG 0 buf + 1) buf) buf)),
     snd (frames_of (slice_from (find FLAG (find FLAG 0 buf + 1) buf) buf))).
Proof.
  intros H1 H2. unfold frames_of at 1. cbn [frames_fuel].
  destruct (Z.eqb_spec (find FLAG 0 buf) (-1)); [contradiction|].
  destruct (Z.eqb_spec (find FLAG (find FLAG 0 buf + 1) buf) (-1));
    [contradiction|].
  cbn [negb].
  destruct (frame_bounds buf H1 H2) as (_ & _ & Hlen).
  unfold frames_of.
  rewrite (frames_fuel_irrel (length buf)
             (S (length (slice_from (find FLAG (find FLAG 0 buf + 1) buf) buf))))
    by lia.
  reflexivity.
Qed.

(** The three ways a pass can start. *)
Lemma buffer_cases (buf : bytes) :
  find FLAG 0 buf = -1
  \/ (find FLAG 0 buf <> -1 /\ find FLAG (find FLAG 0 buf + 1) buf = -1)
  \/ (find FLAG 0 buf <> -1 /\ find FLAG (find FLAG 0 buf + 1) buf <> -1).
Proof.
  destruct (decide (find FLAG 0 buf = -1)); [left; assumption|right].
  destruct (decide (find FLAG (find FLAG 0 buf + 1) buf = -1)); [left|right];
    split; assumption.
Qed.

(** The buffer a pass leaves holds no complete frame. *)
Lemma frames_of_drained (buf : bytes) :
  frames_of (snd (frames_of buf)) = ([], snd (frames_of buf)).
Proof.
  induction buf as [buf IH] using (induction_ltof1 _ (@length Z)).
  unfold ltof in IH.
  destruct (buffer_cases buf) as [H|[[H1 H2]|[H1 H2]]].
  - rewrite (frames_of_no_flag buf H). apply frames_of_no_flag. exact H.
  - rewrite (frames_of_open buf H1 H2). apply frames_of_open; assumption.
  - rewrite (frames_of_frame buf H1 H2). cbn [snd].
    apply IH. apply (frame_bounds buf H1 H2).
Qed.

(** Splitting the input: a pass over [buf ++ chunk] finds the frames of
    [buf] and then those of what [buf] left followed by [chunk]. *)
Lemma frames_of_app (buf chunk : bytes) :
  frames_of (buf ++ chunk) =
    (fst (frames_of buf) ++ fst (frames_of (snd (frames_of buf) ++ chunk)),
     snd (frames_of (snd (frames_of buf) ++ chunk))).
Proof.
  induction buf as [buf IH] using (induction_ltof1 _ (@length Z)).
  unfold ltof in IH.
  destruct (buffer_cases buf) as [H|[[H1 H2]|[H1 H2]]].
  - rewrite (frames_of_no_flag buf H). cbn [fst snd app].
    destruct (frames_of (buf ++ chunk)); reflexivity.
  - rewrite (frames_of_open buf H1 H2). cbn [fst snd app].
    destruct (frames_of (buf ++ chunk)); reflexivity.
  - destruct (frame_bounds buf H1 H2) as (B0 & B1 & Hlen).
    assert (E1 : find FLAG 0 (buf ++ chunk) = find FLAG 0 buf)
      by (apply find_app; [lia|exact H1]).
    assert (E2 : find FLAG (find FLAG 0 buf + 1) (buf ++ chunk)
                 = find FLAG (find FLAG 0 buf + 1) buf)
      by (apply find_app; [lia|exact H2]).
    rewrite (frames_of_frame (buf ++ chunk)); rewrite E1, ?E2; try assumption.
    rewrite (frames_of_frame buf H1 H2). cbn [fst snd].
    assert (S1 : slice (find FLAG 0 buf + 1)
                   (find FLAG (find FLAG 0 buf + 1) buf) (buf ++ chunk)
                 = slice (find FLAG 0 buf + 1)
                     (find FLAG (find FLAG 0 buf + 1) buf) buf).
    { unfold slice, len in *. rewrite drop_app_le by lia.
      rewrite take_app_le; [reflexivity|]. rewrite length_drop. lia. }
    assert (S2 : slice_from (find FLAG (find FLAG 0 buf + 1) buf) (buf ++ chunk)
                 = slice_from (find FLAG (find FLAG 0 buf + 1) buf) buf ++ chunk).
    { unfold slice_from, len in *. rewrite drop_app_le by lia. reflexivity. }
    rewrite S1, S2, (IH _ Hlen). cbn [fst snd].
    rewrite app_assoc. reflexivity.
Qed.

(** ** Running the methods step by step *)

Ltac simpl_world :=
  cbn [clients_heap servers_heap interfaces local_client_interfaces
       transport_owner panic_on_interface_error trace
       with_clients_heap with_servers_heap with_interfaces
       with_local_client_interfaces with_trace].

Ltac unfold_world :=
  unfold with_clients_heap, with_servers_heap, with_interfaces,
    with_local_client_interfaces, with_trace;
  cbn [clients_heap servers_heap interfaces local_client_interfaces
       transport_owner panic_on_interface_error trace].

Ltac simpl_client :=
  cbn [online IN OUT socket parent_interface reconnecting never_connected
       detached target_port is_connected_to_shared_instance rxb txb bitrate
       writing force_bitrate send_lock
       set_online set_IN set_OUT set_socket set_parent_interface
       set_reconnecting set_never_connected set_detached set_target_port
       set_is_connected_to_shared_instance set_rxb set_txb set_bitrate
       set_writing set_force_bitrate set_send_lock].

Ltac simpl_server :=
  cbn [s_online clients s_IN s_OUT bind_port s_rxb s_txb s_bitrate
       s_force_bitrate set_clients set_s_rxb set_s_txb].

Lemma bind_ret {A B} (a : A) (k : A -> M B) (w : world) :
  bind (ret a) k w = k a w.
Proof. reflexivity. Qed.

Lemma bind_gets {A B} (f : world -> A) (k : A -> M B) (w : world) :
  bind (gets f) k w = k (f w) w.
Proof. reflexivity. Qed.

Lemma bind_modify {B} (f : world -> world) (k : unit -> M B) (w : world) :
  bind (modify f) k w = k tt (f w).
Proof. reflexivity. Qed.

Lemma bind_emit {B} (e : event) (k : unit -> M B) (w : world) :
  bind (emit e) k w = k tt (with_trace (trace w ++ [e]) w).
Proof. reflexivity. Qed.

Lemma bind_log {B} (m : message) (l : loglevel) (s : ref) (k : unit -> M B)
    (w : world) :
  bind (log m l s) k w = k tt (with_trace (trace w ++ [EvLog m l s]) w).
Proof. reflexivity. Qed.

Lemma bind_bind {A B C} (m : M A) (f : A -> M B) (g : B -> M C) (w : world) :
  bind (bind m f) g w = bind m (fun a => bind (f a) g) w.
Proof. unfold bind. destruct (m w); reflexivity. Qed.

Lemma bind_Ret {A B} (m : M A) (k : A -> M B) (w w' : world) (a : A) :
  m w = Ret a w' -> bind m k w = k a w'.
Proof. intros H. unfold bind. rewrite H. reflexivity. Qed.

Lemma bind_attr {A B} (self : ref) (f : client -> A) (k : A -> M B)
    (w : world) (o : client) :
  clients_heap w !! self = Some o -> bind (attr self f) k w = k (f o) w.
Proof. intros H. unfold bind, attr. rewrite H. reflexivity. Qed.

Lemma bind_setattr {B} (self : ref) (u : client -> client) (k : unit -> M B)
    (w : world) (o : client) :
  clients_heap w !! self = Some o ->
  bind (setattr self u) k w
  = k tt (with_clients_heap (<[self := u o]> (clients_heap w)) w).
Proof. intros H. unfold bind, setattr. rewrite H. reflexivity. Qed.

Lemma setattr_Some (self : ref) (u : client -> client) (w : world) (o : client) :
  clients_heap w !! self = Some o ->
  setattr self u w
  = Ret tt (with_clients_heap (<[self := u o]> (clients_heap w)) w).
Proof. intros H. unfold setattr. rewrite H. reflexivity. Qed.

Lemma bind_s_attr {A B} (p : ref) (f : server -> A) (k : A -> M B)
    (w : world) (s : server) :
  servers_heap w !! p = Some s -> bind (s_attr p f) k w = k (f s) w.
Proof. intros H. unfold bind, s_attr. rewrite H. reflexivity. Qed.

Lemma bind_s_setattr {B} (p : ref) (u : server -> server) (k : unit -> M B)
    (w : world) (s : server) :
  servers_heap w !! p = Some s ->
  bind (s_setattr p u) k w
  = k tt (with_servers_heap (<[p := u s]> (servers_heap w)) w).
Proof. intros H. unfold bind, s_setattr. rewrite H. reflexivity. Qed.

Lemma s_setattr_Some (p : ref) (u : server -> server) (w : world) (s : server) :
  servers_heap w !! p = Some s ->
  s_setattr p u w
  = Ret tt (with_servers_heap (<[p := u s]> (servers_heap w)) w).
Proof. intros H. unfold s_setattr. rewrite H. reflexivity. Qed.

(** ** [process_incoming] *)

Lemma try_owner_inbound (data : bytes) (self : ref) (w : world) :
  try_except (owner_inbound data self)
    (fun _ => log MsgInboundError LOG_ERROR self;; emit EvTraceException) w
  = Ret tt (with_trace
      (trace w ++ EvInbound data self ::
         (if inbound_raises w data self
          then [EvLog MsgInboundError LOG_ERROR self; EvTraceException]
          else [])) w).
Proof.
  unfold try_except, owner_inbound.
  rewrite bind_gets, bind_emit.
  destruct (inbound_raises w data self).
  - unfold raise. rewrite bind_log. unfold emit, modify. simpl_world.
    rewrite <- !app_assoc. reflexivity.
  - reflexivity.
Qed.

Lemma process_incoming_received (self : ref) (data : bytes) (w : world) :
  allocated w self ->
  process_incoming self data w = Ret tt (received self data w).
Proof.
  intros (o & Ho & Hp).
  pose proof (lookup_lt_Some _ _ _ Ho) as Hlt.
  unfold process_incoming, received. rewrite Ho.
  rewrite (bind_attr _ _ _ _ _ Ho), (bind_setattr _ _ _ _ _ Ho).
  erewrite bind_attr
    by (simpl_world; apply list_lookup_insert_eq; exact Hlt).
  simpl_client.
  destruct (parent_interface o) as [p|] eqn:Ep.
  - destruct (Hp p eq_refl) as [s Hs]. rewrite Hs.
    rewrite bind_bind. erewrite bind_s_attr by (simpl_world; exact Hs).
    erewrite bind_s_setattr by (simpl_world; exact Hs).
    rewrite try_owner_inbound. reflexivity.
  - rewrite bind_ret, try_owner_inbound. reflexivity.
Qed.

(** What [received] keeps and what it records. *)
Lemma received_clients (self : ref) (data : bytes) (w : world) (c : ref) :
  clients_heap (received self data w) !! c
  = match clients_heap w !! self with
    | Some o =>
        if decide (self = c) then Some (set_rxb (rxb o + len data) o)
        else clients_heap w !! c
    | None => clients_heap w !! c
    end.
Proof.
  unfold received.
  destruct (clients_heap w !! self) as [o|] eqn:Ho; [|reflexivity].
  pose proof (lookup_lt_Some _ _ _ Ho) as Hlt.
  assert (E : clients_heap
                match parent_interface o with
                | Some p =>
                    match servers_heap w !! p with
                    | Some s =>
                        with_servers_heap
                          (<[p := set_s_rxb (s_rxb s + len data) s]>
                             (servers_heap w))
                          (with_clients_heap
                             (<[self := set_rxb (rxb o + len data) o]>
                                (clients_heap w)) w)
                    | None =>
                        with_clients_heap
                          (<[self := set_rxb (rxb o + len data) o]>
                             (clients_heap w)) w
                    end
                | None =>
                    with_clients_heap
                      (<[self := set_rxb (rxb o + len data) o]>
                         (clients_heap w)) w
                end
              = <[self := set_rxb (rxb o + len data) o]> (clients_heap w)).
  { destruct (parent_interface o) as [p|]; [|reflexivity].
    destruct (servers_heap w !! p); reflexivity. }
  simpl_world. rewrite E.
  destruct (decide (self = c)) as [<-|Hne].
  - apply list_lookup_insert_eq. exact Hlt.
  - apply list_lookup_insert_ne. exact Hne.
Qed.

Lemma received_servers_length (self : ref) (data : bytes) (w : world) :
  length (servers_heap (received self data w)) = length (servers_heap w).
Proof.
  unfold received.
  destruct (clients_heap w !! self) as [o|]; [|reflexivity].
  simpl_world.
  destruct (parent_interface o) as [p|]; [|reflexivity].
  destruct (servers_heap w !! p); [|reflexivity].
  simpl_world. apply length_insert.
Qed.

Lemma received_trace (self : ref) (data : bytes) (w : world) :
  is_Some (clients_heap w !! self) ->
  exists raised : bool,
    trace (received self data w)
    = trace w ++ EvInbound data self ::
        (if raised
         then [EvLog MsgInboundError LOG_ERROR self; EvTraceException]
         else []).
Proof.
  intros [o Ho]. unfold received. rewrite Ho. eexists. reflexivity.
Qed.

Lemma is_Some_length {A} (l1 l2 : list A) (i : nat) :
  length l1 = length l2 -> is_Some (l1 !! i) -> is_Some (l2 !! i).
Proof.
  intros E H. apply lookup_lt_is_Some. rewrite <- E.
  apply lookup_lt_is_Some. exact H.
Qed.

Lemma received_connected (self : ref) (data : bytes) (w : world) :
  connected w self -> connected (received self data w) self.
Proof.
  intros (o & Ho & Hs & Hp).
  exists (set_rxb (rxb o + len data) o). split; [|split].
  - rewrite received_clients, Ho. rewrite decide_True by reflexivity.
    reflexivity.
  - exact Hs.
  - intros p Ep.
    apply (is_Some_length (servers_heap w)).
    + symmetry. apply received_servers_length.
    + apply Hp. exact Ep.
Qed.

Lemma connected_allocated (w : world) (self : ref) :
  connected w self -> allocated w self.
Proof. intros (o & Ho & _ & Hp). exists o. split; assumption. Qed.

Lemma received_all_connected (self : ref) (frames : list bytes) (w : world) :
  connected w self -> connected (received_all self frames w) self.
Proof.
  revert w. induction frames as [|f frames IH]; intros w H; [exact H|].
  apply IH. apply received_connected. exact H.
Qed.

Lemma received_all_app (self : ref) (fs1 fs2 : list bytes) (w : world) :
  received_all self (fs1 ++ fs2) w
  = received_all self fs2 (received_all self fs1 w).
Proof. unfold received_all. apply fold_left_app. Qed.

Lemma deliveries_app (self : ref) (t1 t2 : list event) :
  deliveries self (t1 ++ t2) = deliveries self t1 ++ deliveries self t2.
Proof.
  induction t1 as [|e t1 IH]; [reflexivity|].
  destruct e; cbn [app deliveries]; try exact IH.
  destruct (decide (self0 = self)); [cbn [app]; f_equal|]; exact IH.
Qed.

Lemma received_deliveries (self : ref) (data : bytes) (w : world) :
  connected w self ->
  deliveries self (trace (received self data w))
  = deliveries self (trace w) ++ [data].
Proof.
  intros (o & Ho & _).
  destruct (received_trace self data w) as [raised E]; [eauto|].
  rewrite E, deliveries_app. f_equal.
  cbn [deliveries]. rewrite decide_True by reflexivity.
  destruct raised; reflexivity.
Qed.

Lemma received_all_deliveries (self : ref) (frames : list bytes) (w : world) :
  connected w self ->
  deliveries self (trace (received_all self frames w))
  = deliveries self (trace w) ++ frames.
Proof.
  revert w. induction frames as [|f frames IH]; intros w H.
  - cbn. rewrite app_nil_r. reflexivity.
  - cbn [received_all fold_left].
    change (fold_left (fun w data => received self data w) frames
              (received self f w))
      with (received_all self frames (received self f w)).
    rewrite IH by (apply received_connected; exact H).
    rewrite received_deliveries by exact H.
    rewrite <- app_assoc. reflexivity.
Qed.

(** ** The deframing loop *)

(** With fuel above the buffer length the loop returns: it hands the frames
    of [frames_fuel] to [process_incoming], in order, and leaves their
    rest. *)
Lemma flags_loop_frames (fuel : nat) (self : ref) (buf : bytes) (w : world) :
  connected w self -> (length buf < fuel)%nat ->
  flags_loop fuel self buf w
  = Ret (snd (frames_fuel fuel buf))
        (received_all self (fst (frames_fuel fuel buf)) w).
Proof.
  revert buf w. induction fuel as [|fuel IH]; intros buf w Hc Hlen; [lia|].
  cbn [flags_loop frames_fuel].
  destruct (Z.eqb_spec (find FLAG 0 buf) (-1)) as [|H1]; [reflexivity|].
  destruct (Z.eqb_spec (find FLAG (find FLAG 0 buf + 1) buf) (-1)) as [|H2];
    [reflexivity|].
  cbn [negb fst snd].
  destruct (frame_bounds buf H1 H2) as (_ & _ & Hcut).
  change (replace [ESC; Z.lxor ESC ESC_MASK] [ESC]
            (replace [ESC; Z.lxor FLAG ESC_MASK] [FLAG]
               (slice (find FLAG 0 buf + 1)
                  (find FLAG (find FLAG 0 buf + 1) buf) buf)))
    with (unescape (slice (find FLAG 0 buf + 1)
                      (find FLAG (find FLAG 0 buf + 1) buf) buf)).
  set (frame := unescape _).
  rewrite received_all_app. unfold keep.
  destruct (Z.of_nat HEADER_MINSIZE <? len frame).
  - erewrite bind_Ret
      by (apply process_incoming_received, connected_allocated; exact Hc).
    apply IH; [apply received_connected; exact Hc|lia].
  - rewrite bind_ret. apply IH; [exact Hc|lia].
Qed.

Lemma deframe_frames (self : ref) (buf : bytes) (w : world) :
  connected w self ->
  flags_loop (S (length buf)) self buf w
  = Ret (snd (frames_of buf)) (received_all self (fst (frames_of buf)) w).
Proof. intros Hc. apply flags_loop_frames; [exact Hc|lia]. Qed.

(** Reading chunk after chunk finds the frames of the whole input: as long
    as no read is empty, the loop stays blocked in [recv], having handed the
    frames of [frame_buffer ++ concat chunks] to [process_incoming]. *)
Lemma read_loop_from_chunks (self : ref) (rs : reconnect_script)
    (chunks : list bytes) (buf : bytes) (w : world) :
  connected w self ->
  Forall (fun c => c <> []) chunks ->
  frames_of buf = ([], buf) ->
  read_loop_from self buf (map Received chunks) rs w
  = Ret (Some (snd (frames_of (buf ++ concat chunks))))
        (received_all self (fst (frames_of (buf ++ concat chunks))) w).
Proof.
  revert buf w.
  induction chunks as [|c chunks IH]; intros buf w Hc Hne Hbuf.
  - cbn [map concat read_loop_from]. rewrite app_nil_r, Hbuf. reflexivity.
  - apply Forall_cons in Hne as [Hc0 Hne].
    cbn [map concat read_loop_from].
    assert (Hrecv : socket_recv self (Received c) w = Ret c w).
    { destruct Hc as (o & Ho & [s Hs] & _). unfold socket_recv.
      rewrite (bind_attr _ _ _ _ _ Ho), Hs. reflexivity. }
    rewrite (bind_Ret _ _ _ _ _ Hrecv).
    assert (Hpos : (0 <? len c) = true).
    { apply Z.ltb_lt. unfold len. destruct c; [contradiction|cbn; lia]. }
    rewrite Hpos.
    rewrite (bind_Ret _ _ _ _ _ (deframe_frames self (buf ++ c) w Hc)).
    rewrite IH;
      [|apply received_all_connected; exact Hc|exact Hne
       |apply frames_of_drained].
    rewrite app_assoc, (frames_of_app (buf ++ c) (concat chunks)).
    cbn [fst snd]. rewrite received_all_app. reflexivity.
Qed.

Lemma read_loop_chunks (self : ref) (rs : reconnect_script)
    (chunks : list bytes) (w : world) :
  connected w self ->
  Forall (fun c => c <> []) chunks ->
  read_loop self (map Received chunks) rs w
  = Ret (Some (snd (frames_of (concat chunks))))
        (received_all self (fst (frames_of (concat chunks))) w).
Proof.
  intros Hc Hne. unfold read_loop, try_except.
  rewrite read_loop_from_chunks by (try assumption; reflexivity).
  reflexivity.
Qed.

(** The frames of encoded input. *)
Lemma frames_of_encoded (f rest : bytes) :
  frames_of (FLAG :: escape f ++ FLAG :: rest)
  = (keep f ++ fst (frames_of (FLAG :: rest)), snd (frames_of (FLAG :: rest))).
Proof.
  pose proof (flag_not_in_escape f) as Hf.
  assert (E1 : find FLAG 0 (FLAG :: escape f ++ FLAG :: rest) = 0)
    by apply find_flag_head.
  assert (E2 : find FLAG (0 + 1) (FLAG :: escape f ++ FLAG :: rest)
               = 1 + len (escape f))
    by (apply find_flag_closing; exact Hf).
  rewrite frames_of_frame; rewrite E1, ?E2;
    [|discriminate|unfold len; lia].
  change (0 + 1) with 1.
  rewrite slice_between, slice_from_closing, unescape_escape.
  reflexivity.
Qed.

Lemma frames_of_flag : frames_of [FLAG] = ([], [FLAG]).
Proof. reflexivity. Qed.

Lemma frames_of_unclosed (f : bytes) :
  frames_of (FLAG :: escape f) = ([], FLAG :: escape f).
Proof.
  apply frames_of_open; rewrite find_flag_head; [discriminate|].
  unfold find. change (Z.to_nat (0 + 1)) with 1%nat. cbn [drop].
  rewrite drop_0. apply index_from_absent, flag_not_in_escape.
Qed.

Lemma keep_small (f : bytes) :
  (length f <= HEADER_MINSIZE)%nat -> keep f = [].
Proof.
  intros H. unfold keep, len.
  destruct (Z.ltb_spec (Z.of_nat HEADER_MINSIZE) (Z.of_nat (length f)));
    [lia|reflexivity].
Qed.

Lemma keep_big (f : bytes) :
  (HEADER_MINSIZE < length f)%nat -> keep f = [f].
Proof.
  intros H. unfold keep, len.
  destruct (Z.ltb_spec (Z.of_nat HEADER_MINSIZE) (Z.of_nat (length f)));
    [reflexivity|lia].
Qed.

Lemma frames_of_two (f1 f2 : bytes) :
  frames_of (encode f1 ++ encode f2) = (keep f1 ++ keep f2, [FLAG]).
Proof.
  unfold encode. cbn [app]. rewrite <- !app_assoc. cbn [app].
  rewrite frames_of_encoded.
  change (FLAG :: FLAG :: escape f2 ++ [FLAG])
    with (FLAG :: escape [] ++ FLAG :: escape f2 ++ [FLAG]).
  rewrite frames_of_encoded, frames_of_encoded, frames_of_flag.
  rewrite (keep_small []) by (cbn; lia).
  cbn [fst snd app]. rewrite app_nil_r. reflexivity.
Qed.

(** C2: for any way of cutting [Encode(f1) + Encode(f2)] into non-empty
    reads (one chunk, byte by byte, or anything between), the read loop of a
    connected interface hands to the owner exactly those of [f1], [f2] that
    are longer than the minimum header size, in that order, and goes on
    waiting for input; so [f1; f2] when both are longer, and nothing at all
    happens when neither is. *)
Theorem deframer_two_frames (self : ref) (w : world) (rs : reconnect_script)
    (f1 f2 : bytes) (chunks : list bytes) :
  connected w self ->
  Forall (fun c => c <> []) chunks ->
  concat chunks = encode f1 ++ encode f2 ->
  exists w',
    read_loop self (map Received chunks) rs w = Ret (Some [FLAG]) w'
    /\ deliveries self (trace w')
       = deliveries self (trace w)
         ++ filter (fun f => (HEADER_MINSIZE < length f)%nat) [f1; f2]
    /\ ((HEADER_MINSIZE < length f1)%nat -> (HEADER_MINSIZE < length f2)%nat ->
        deliveries self (trace w') = deliveries self (trace w) ++ [f1; f2])
    /\ ((length f1 <= HEADER_MINSIZE)%nat -> (length f2 <= HEADER_MINSIZE)%nat ->
        w' = w).
Proof.
  intros Hc Hne Hcat.
  exists (received_all self (keep f1 ++ keep f2) w).
  rewrite read_loop_chunks by assumption.
  rewrite Hcat, frames_of_two. cbn [fst snd].
  split; [reflexivity|].
  rewrite received_all_deliveries by exact Hc.
  split; [|split].
  - f_equal. rewrite !filter_cons, filter_nil.
    destruct (decide (HEADER_MINSIZE < length f1)%nat) as [H1|H1];
      destruct (decide (HEADER_MINSIZE < length f2)%nat) as [H2|H2];
      rewrite ?(keep_big f1), ?(keep_big f2), ?(keep_small f1),
        ?(keep_small f2) by lia; reflexivity.
  - intros H1 H2. rewrite keep_big, keep_big by assumption. reflexivity.
  - intros H1 H2. rewrite keep_small, keep_small by assumption. reflexivity.
Qed.

(** C3: when a frame is cut out, the buffer that remains starts with the
    frame's closing flag; two adjacent flags therefore give an empty frame,
    which is not handed on, and the second flag opens the next frame.  No
    frame of the minimum header size or less (an empty one least of all) is
    ever handed to the owner. *)
Theorem closing_flag_retained (self : ref) (w : world) (buf pre rest : bytes) :
  connected w self ->
  FLAG ∉ pre ->
  (find FLAG 0 buf <> -1 ->
   find FLAG (find FLAG 0 buf + 1) buf <> -1 ->
   let frame_end := find FLAG (find FLAG 0 buf + 1) buf in
   let frame := unescape (slice (find FLAG 0 buf + 1) frame_end buf) in
   slice_from frame_end buf !! 0%nat = Some FLAG
   /\ flags_loop (S (length buf)) self buf w
      = ((if Z.of_nat HEADER_MINSIZE <? len frame
          then process_incoming self frame else ret tt);;
         flags_loop (S (length (slice_from frame_end buf))) self
           (slice_from frame_end buf)) w)
  /\ (let b := pre ++ FLAG :: FLAG :: rest in
      let frame_end := find FLAG (find FLAG 0 b + 1) b in
      unescape (slice (find FLAG 0 b + 1) frame_end b) = []
      /\ slice_from frame_end b = FLAG :: rest
      /\ flags_loop (S (length b)) self b w
         = flags_loop (S (length (FLAG :: rest))) self (FLAG :: rest) w)
  /\ (exists w' frames,
        flags_loop (S (length buf)) self buf w
        = Ret (snd (frames_of buf)) w'
        /\ deliveries self (trace w') = deliveries self (trace w) ++ frames
        /\ Forall (fun f => (HEADER_MINSIZE < length f)%nat) frames).
Proof.
  intros Hc Hpre. split; [|split].
  - intros H1 H2 frame_end frame.
    destruct (frame_bounds buf H1 H2) as (B0 & B1 & Hcut).
    split.
    + unfold slice_from. rewrite lookup_drop, Nat.add_0_r.
      apply find_lookup; [lia|exact H2].
    + rewrite deframe_frames by exact Hc.
      rewrite (frames_of_frame buf H1 H2). cbn [fst snd].
      fold frame_end. fold frame. rewrite received_all_app. unfold keep.
      destruct (Z.of_nat HEADER_MINSIZE <? len frame).
      * erewrite bind_Ret
          by (apply process_incoming_received, connected_allocated; exact Hc).
        rewrite deframe_frames by (apply received_connected; exact Hc).
        reflexivity.
      * rewrite bind_ret, deframe_frames by exact Hc. reflexivity.
  - intros b.
    assert (E1 : find FLAG 0 b = len pre).
    { unfold b, find. cbn [Z.to_nat drop]. rewrite drop_0.
      rewrite index_from_skip by exact Hpre. lia. }
    assert (E2 : find FLAG (len pre + 1) b = len pre + 1).
    { unfold b, find, len.
      replace (Z.to_nat (Z.of_nat (length pre) + 1)) with (length pre + 1)%nat
        by lia.
      rewrite <- drop_drop, drop_app_length.
      cbn [drop index_from]. rewrite Z.eqb_refl. reflexivity. }
    cbn zeta. rewrite E1, E2.
    assert (S1 : slice (len pre + 1) (len pre + 1) b = []).
    { unfold slice. rewrite Nat.sub_diag. apply take_0. }
    assert (S2 : slice_from (len pre + 1) b = FLAG :: rest).
    { unfold slice_from, b, len.
      replace (Z.to_nat (Z.of_nat (length pre) + 1)) with (length pre + 1)%nat
        by lia.
      rewrite <- drop_drop, drop_app_length. reflexivity. }
    split; [rewrite S1; reflexivity|]. split; [exact S2|].
    rewrite !deframe_frames by exact Hc.
    rewrite (frames_of_frame b); rewrite E1, ?E2; [|unfold len; lia..].
    rewrite S1, S2. change (unescape []) with (@nil Z).
    rewrite (keep_small []) by (cbn; lia). reflexivity.
  - exists (received_all self (fst (frames_of buf)) w), (fst (frames_of buf)).
    split; [apply deframe_frames; exact Hc|].
    split; [apply received_all_deliveries; exact Hc|].
    clear Hc Hpre.
    induction buf as [buf IH] using (induction_ltof1 _ (@length Z)).
    unfold ltof in IH.
    destruct (buffer_cases buf) as [H|[[H1 H2]|[H1 H2]]].
    + rewrite (frames_of_no_flag buf H). constructor.
    + rewrite (frames_of_open buf H1 H2). constructor.
    + rewrite (frames_of_frame buf H1 H2). cbn [fst].
      apply Forall_app. split; [|apply IH, (frame_bounds buf H1 H2)].
      unfold keep.
      match goal with |- context [Z.of_nat HEADER_MINSIZE <? ?x] =>
        destruct (Z.ltb_spec (Z.of_nat HEADER_MINSIZE) x) as [Hlt|Hge]
      end; [|constructor].
      constructor; [unfold len in Hlt; lia|constructor].
Qed.

(** C4: a flag followed by [escape(f1)] and no closing flag, read in any
    non-empty pieces, hands nothing to the owner and changes nothing; the
    bytes stay in the buffer, and once the closing flag is read the frame is
    handed on.  As everywhere in the loop, a frame no longer than the minimum
    header size is dropped instead. *)
Theorem partial_frame_held (self : ref) (w : world) (rs : reconnect_script)
    (f1 : bytes) (chunks : list bytes) :
  connected w self ->
  Forall (fun c => c <> []) chunks ->
  concat chunks = FLAG :: escape f1 ->
  read_loop self (map Received chunks) rs w = Ret (Some (FLAG :: escape f1)) w
  /\ ((HEADER_MINSIZE < length f1)%nat ->
      exists w',
        read_loop_from self (FLAG :: escape f1) [Received [FLAG]] rs w
        = Ret (Some [FLAG]) w'
        /\ read_loop self (map Received (chunks ++ [[FLAG]])) rs w
           = Ret (Some [FLAG]) w'
        /\ deliveries self (trace w') = deliveries self (trace w) ++ [f1])
  /\ ((length f1 <= HEADER_MINSIZE)%nat ->
      read_loop self (map Received (chunks ++ [[FLAG]])) rs w
      = Ret (Some [FLAG]) w).
Proof.
  intros Hc Hne Hcat. split; [|split].
  - rewrite read_loop_chunks by assumption.
    rewrite Hcat, frames_of_unclosed. reflexivity.
  - intros Hbig. exists (received self f1 w).
    assert (E : frames_of ((FLAG :: escape f1) ++ [FLAG]) = ([f1], [FLAG])).
    { cbn [app]. rewrite frames_of_encoded, frames_of_flag, keep_big by exact Hbig.
      reflexivity. }
    split; [|split].
    + change [Received [FLAG]] with (map Received [[FLAG]]).
      rewrite read_loop_from_chunks;
        [|exact Hc|repeat constructor; discriminate|apply frames_of_unclosed].
      cbn [concat]. rewrite app_nil_r, E. reflexivity.
    + rewrite read_loop_chunks;
        [|exact Hc|apply Forall_app; split;
                   [exact Hne|repeat constructor; discriminate]].
      rewrite concat_app, Hcat. cbn [concat]. rewrite app_nil_r, E. reflexivity.
    + apply received_deliveries. exact Hc.
  - intros Hsmall.
    rewrite read_loop_chunks;
      [|exact Hc|apply Forall_app; split;
                 [exact Hne|repeat constructor; discriminate]].
    rewrite concat_app, Hcat. cbn [concat]. rewrite app_nil_r.
    cbn [app]. rewrite frames_of_encoded, frames_of_flag, keep_small
      by exact Hsmall.
    reflexivity.
Qed.

(** C10: [process_incoming] first adds the frame length to the receive
    counter of the interface and of its parent, then calls the owner: the
    owner is called in the state [w1] in which both counters are already
    raised, and it is that state which decides whether it raises.  Whether
    the owner returns or raises, [process_incoming] returns, the raise being
    logged, and the counters stay as they were when the owner was called. *)
Theorem process_incoming_counts_then_delivers (self : ref) (data : bytes)
    (w : world) (o : client) :
  clients_heap w !! self = Some o ->
  (forall p, parent_interface o = Some p -> is_Some (servers_heap w !! p)) ->
  exists w1 w',
    process_incoming self data w
    = try_except (owner_inbound data self)
        (fun _ => log MsgInboundError LOG_ERROR self;; emit EvTraceException)
        w1
    /\ trace w1 = trace w
    /\ rxb <$> clients_heap w1 !! self = Some (rxb o + len data)
    /\ (forall p s, parent_interface o = Some p ->
          servers_heap w !! p = Some s ->
          s_rxb <$> servers_heap w1 !! p = Some (s_rxb s + len data))
    /\ process_incoming self data w = Ret tt w'
    /\ clients_heap w' = clients_heap w1
    /\ servers_heap w' = servers_heap w1
    /\ trace w'
       = trace w ++ EvInbound data self ::
           (if inbound_raises w1 data self
            then [EvLog MsgInboundError LOG_ERROR self; EvTraceException]
            else []).
Proof.
  intros Ho Hp.
  pose proof (lookup_lt_Some _ _ _ Ho) as Hlt.
  set (wc := with_clients_heap
               (<[self := set_rxb (rxb o + len data) o]> (clients_heap w)) w).
  assert (Hoc : clients_heap wc !! self = Some (set_rxb (rxb o + len data) o))
    by (apply list_lookup_insert_eq; exact Hlt).
  assert (Hrun : forall w1 : world,
            (match parent_interface o with
             | Some p =>
                 pr <- s_attr p s_rxb;;
                 s_setattr p (set_s_rxb (pr + len data))
             | None => ret tt
             end) wc = Ret tt w1 ->
            process_incoming self data w
            = try_except (owner_inbound data self)
                (fun _ =>
                   log MsgInboundError LOG_ERROR self;; emit EvTraceException)
                w1).
  { intros w1 E. unfold process_incoming.
    rewrite (bind_attr _ _ _ _ _ Ho), (bind_setattr _ _ _ _ _ Ho). fold wc.
    rewrite (bind_attr _ _ _ _ _ Hoc). simpl_client.
    rewrite (bind_Ret _ _ _ _ _ E). reflexivity. }
  destruct (parent_interface o) as [p|] eqn:Ep.
  - destruct (Hp p eq_refl) as [s Hs].
    set (w1 := with_servers_heap
                 (<[p := set_s_rxb (s_rxb s + len data) s]> (servers_heap w))
                 wc).
    assert (E : process_incoming self data w
                = try_except (owner_inbound data self)
                    (fun _ =>
                       log MsgInboundError LOG_ERROR self;;
                       emit EvTraceException) w1).
    { apply Hrun. rewrite (bind_s_attr _ _ _ wc s Hs).
      apply (s_setattr_Some p _ wc s Hs). }
    eexists w1, _. split; [exact E|]. split; [reflexivity|].
    split; [exact (f_equal (fmap rxb) Hoc)|].
    split.
    { intros p' s' [= <-] Hs'. rewrite Hs in Hs'. injection Hs' as <-.
      unfold w1. simpl_world.
      rewrite list_lookup_insert_eq by (apply (lookup_lt_Some _ _ _ Hs)).
      reflexivity. }
    split; [rewrite E; apply try_owner_inbound|].
    repeat split.
  - eexists wc, _. split; [apply Hrun; reflexivity|]. split; [reflexivity|].
    split; [exact (f_equal (fmap rxb) Hoc)|].
    split; [intros p s [=]|].
    split; [rewrite (Hrun wc eq_refl); apply try_owner_inbound|].
    repeat split.
Qed.

(** ** [process_outgoing] *)

Lemma try_except_Ret {A} (m : M A) (h : exn -> M A) (w w' : world) (a : A) :
  m w = Ret a w' -> try_except m h w = Ret a w'.
Proof. intros H. unfold try_except. rewrite H. reflexivity. Qed.

(** The latency simulation returns unless the bitrate is zero or the
    sleep raises; it touches the send lock only. *)
Lemma simulate_latency_returns (self : ref) (data : bytes) (w : world)
    (o : client) :
  clients_heap w !! self = Some o ->
  bitrate o <> 0 -> latency_raises (len data) (bitrate o) = None ->
  exists w' o',
    simulate_latency self data w = Ret tt w'
    /\ clients_heap w' !! self = Some o'
    /\ length (clients_heap w') = length (clients_heap w)
    /\ servers_heap w' = servers_heap w
    /\ txb o' = txb o /\ socket o' = socket o /\ online o' = online o
    /\ force_bitrate o' = force_bitrate o /\ bitrate o' = bitrate o
    /\ parent_interface o' = parent_interface o.
Proof.
  intros Ho Hnz Hneg.
  pose proof (lookup_lt_Some _ _ _ Ho) as Hlt.
  assert (Hsleep : forall o1, bitrate o1 = bitrate o ->
            (if bitrate o1 =? 0 then raise ZeroDivisionError
             else match latency_raises (len data) (bitrate o1) with
                  | Some e => raise e
                  | None => emit (EvSleep (len data * 8) (bitrate o1))
                  end)
            = emit (EvSleep (len data * 8) (bitrate o))).
  { intros o1 ->.
    destruct (Z.eqb_spec (bitrate o) 0) as [|_]; [contradiction|].
    rewrite Hneg. reflexivity. }
  destruct (send_lock o) eqn:Hl.
  - exists (with_trace (trace w ++ [EvSleep (len data * 8) (bitrate o)]) w), o.
    split.
    { unfold simulate_latency.
      rewrite (bind_attr _ _ _ _ _ Ho), Hl. cbn [negb].
      rewrite bind_ret, (bind_attr _ _ _ _ _ Ho). cbv beta.
      rewrite (Hsleep o eq_refl). reflexivity. }
    simpl_world. repeat split. exact Ho.
  - exists (with_trace (trace w ++ [EvSleep (len data * 8) (bitrate o)])
              (with_clients_heap
                 (<[self := set_send_lock true o]> (clients_heap w)) w)),
           (set_send_lock true o).
    split.
    { unfold simulate_latency.
      rewrite (bind_attr _ _ _ _ _ Ho), Hl. cbn [negb].
      rewrite (bind_setattr _ _ _ _ _ Ho).
      erewrite bind_attr
        by (simpl_world; apply list_lookup_insert_eq; exact Hlt).
      cbv beta. rewrite (Hsleep (set_send_lock true o) eq_refl).
      reflexivity. }
    simpl_world.
    split; [apply list_lookup_insert_eq; exact Hlt|].
    split; [apply length_insert|]. repeat split.
Qed.

(** One call on which [sendall] returns. *)
Lemma process_outgoing_sent (self : ref) (data : bytes) (w : world)
    (o : client) :
  clients_heap w !! self = Some o ->
  online o = true ->
  is_Some (socket o) ->
  (force_bitrate o = true ->
   bitrate o <> 0 /\ latency_raises (len data) (bitrate o) = None) ->
  (forall p, parent_interface o = Some p -> is_Some (servers_heap w !! p)) ->
  exists w' o',
    process_outgoing self data true w = Ret tt w'
    /\ clients_heap w' !! self = Some o'
    /\ txb o' = txb o + len (encode data)
    /\ online o' = true /\ socket o' = socket o
    /\ force_bitrate o' = force_bitrate o /\ bitrate o' = bitrate o
    /\ parent_interface o' = parent_interface o
    /\ length (servers_heap w') = length (servers_heap w)
    /\ (forall p s, parent_interface o = Some p ->
          servers_heap w !! p = Some s ->
          s_txb <$> servers_heap w' !! p = Some (s_txb s + len (encode data))).
Proof.
  intros Ho Hon [sk Hsk] Hrate Hp.
  pose proof (lookup_lt_Some _ _ _ Ho) as Hlt.
  unfold process_outgoing.
  rewrite (bind_attr _ _ _ _ _ Ho), Hon.
  (* the state after [self.writing = True] and the latency simulation *)
  set (w1 := with_clients_heap (<[self := set_writing true o]> (clients_heap w)) w).
  assert (Ho1 : clients_heap w1 !! self = Some (set_writing true o))
    by (apply list_lookup_insert_eq; exact Hlt).
  assert (Hsim : exists w2 o2,
            (if force_bitrate o then simulate_latency self data else ret tt) w1
            = Ret tt w2
            /\ clients_heap w2 !! self = Some o2
            /\ length (clients_heap w2) = length (clients_heap w)
            /\ servers_heap w2 = servers_heap w
            /\ txb o2 = txb o /\ socket o2 = socket o /\ online o2 = online o
            /\ force_bitrate o2 = force_bitrate o /\ bitrate o2 = bitrate o
            /\ parent_interface o2 = parent_interface o).
  { destruct (force_bitrate o) eqn:Hf.
    - destruct (Hrate eq_refl) as [Hnz Hneg].
      destruct (simulate_latency_returns self data w1 _ Ho1 Hnz Hneg)
        as (w2 & o2 & E & L & Hlen & Hsrv & F).
      exists w2, o2. split; [exact E|]. split; [exact L|].
      split; [rewrite Hlen; apply length_insert|].
      split; [exact Hsrv|]. cbn [txb socket online force_bitrate bitrate parent_interface
           set_writing] in F.
      rewrite Hf in F. exact F.
    - exists w1, (set_writing true o). split; [reflexivity|].
      split; [exact Ho1|]. split; [apply length_insert|].
      simpl_client. rewrite Hf. repeat split. }
  destruct Hsim as (w2 & o2 & Esim & Ho2 & Hlen2 & Hsrv2 & Ht2 & Hs2 & Hon2
                    & Hf2 & Hb2 & Hpar2).
  pose proof (lookup_lt_Some _ _ _ Ho2) as Hlt2.
  set (frame := [FLAG] ++ escape data ++ [FLAG]).
  set (o3 := set_txb (txb o2 + len frame) (set_writing false o2)).
  set (w3 := with_clients_heap
               (<[self := o3]>
                  (<[self := set_writing false o2]> (clients_heap w2)))
               (with_trace (trace w2 ++ [EvSendall self frame]) w2)).
  assert (Ho3 : clients_heap w3 !! self = Some o3).
  { apply list_lookup_insert_eq. rewrite length_insert. exact Hlt2. }
  (* the body of the [try] up to the parent's counter *)
  assert (Hrun : forall k : option ref -> M unit,
    (setattr self (set_writing true);;
     force <- attr self force_bitrate;;
     (if force then simulate_latency self data else ret tt);;
     socket_sendall self frame true;;
     setattr self (set_writing false);;
     t <- attr self txb;;
     setattr self (set_txb (t + len frame));;
     parent <- attr self parent_interface;;
     k parent) w = k (parent_interface o) w3).
  { intros k.
    rewrite (bind_setattr _ _ _ _ _ Ho). fold w1.
    rewrite (bind_attr _ _ _ _ _ Ho1). simpl_client.
    rewrite (bind_Ret _ _ _ _ _ Esim).
    unfold socket_sendall. rewrite bind_bind.
    rewrite (bind_attr _ _ _ _ _ Ho2), Hs2, Hsk, bind_emit.
    erewrite bind_setattr by (simpl_world; exact Ho2). simpl_world.
    erewrite bind_attr
      by (simpl_world; apply list_lookup_insert_eq; exact Hlt2).
    erewrite bind_setattr
      by (simpl_world; apply list_lookup_insert_eq; exact Hlt2).
    simpl_world. simpl_client.
    erewrite bind_attr
      by (simpl_world; apply list_lookup_insert_eq;
          rewrite length_insert; exact Hlt2).
    simpl_client. rewrite Hpar2. reflexivity. }
  assert (Hfields : txb o3 = txb o + len (encode data)
                    /\ online o3 = true /\ socket o3 = socket o
                    /\ force_bitrate o3 = force_bitrate o
                    /\ bitrate o3 = bitrate o
                    /\ parent_interface o3 = parent_interface o).
  { unfold o3. simpl_client. rewrite Ht2, Hon2, Hon. repeat split; assumption. }
  destruct (parent_interface o) as [p|] eqn:Ep.
  - destruct (Hp p eq_refl) as [s Hs].
    assert (Hs3 : servers_heap w3 !! p = Some s)
      by (unfold w3; simpl_world; rewrite Hsrv2; exact Hs).
    exists (with_servers_heap
              (<[p := set_s_txb (s_txb s + len frame) s]> (servers_heap w3)) w3),
           o3.
    split.
    { apply try_except_Ret.
      cbv zeta. fold frame.
      rewrite (Hrun (fun parent =>
                 match parent with
                 | Some p0 =>
                     pt <- s_attr p0 s_txb;;
                     s_setattr p0 (set_s_txb (pt + len frame))
                 | None => ret tt
                 end)).
      rewrite (bind_s_attr _ _ _ _ _ Hs3).
      apply s_setattr_Some. exact Hs3. }
    split; [exact Ho3|].
    destruct Hfields as (F1 & F2 & F3 & F4 & F5 & F6).
    repeat (split; [assumption|]).
    split.
    { simpl_world. rewrite length_insert. unfold w3. simpl_world.
      rewrite Hsrv2. reflexivity. }
    intros p' s' [= <-] Hs'. simpl_world.
    rewrite list_lookup_insert_eq by (apply lookup_lt_Some in Hs3; exact Hs3).
    rewrite Hs in Hs'. injection Hs' as <-. reflexivity.
  - exists w3, o3. split.
    { apply try_except_Ret.
      cbv zeta. fold frame.
      rewrite (Hrun (fun parent =>
                 match parent with
                 | Some p0 =>
                     pt <- s_attr p0 s_txb;;
                     s_setattr p0 (set_s_txb (pt + len frame))
                 | None => ret tt
                 end)). reflexivity. }
    split; [exact Ho3|].
    destruct Hfields as (F1 & F2 & F3 & F4 & F5 & F6).
    repeat (split; [assumption|]).
    split.
    { unfold w3. simpl_world. rewrite Hsrv2. reflexivity. }
    intros p' s' [=].
Qed.

Lemma len_encode (f : bytes) : len (encode f) = len (escape f) + 2.
Proof.
  unfold encode, len. rewrite !length_app. cbn [length]. lia.
Qed.

(** C7: after [N] calls of [process_outgoing] on an online interface, on
    each of which [sendall] returns (and the latency simulation, where it is
    on, does not raise), the transmit counter of the interface has grown by
    the sum of the lengths of the encoded frames (escaped length plus two
    flags each), and so has the counter of its parent when it has one. *)
Theorem tx_accounting (self : ref) (frames : list bytes) (w : world)
    (o : client) :
  clients_heap w !! self = Some o ->
  online o = true ->
  is_Some (socket o) ->
  (force_bitrate o = true ->
   bitrate o <> 0
   /\ Forall (fun f => latency_raises (len f) (bitrate o) = None) frames) ->
  (forall p, parent_interface o = Some p -> is_Some (servers_heap w !! p)) ->
  let total := foldr Z.add 0 (map (fun f => len (encode f)) frames) in
  total = foldr Z.add 0 (map (fun f => len (escape f) + 2) frames)
  /\ exists w',
       send_all self frames w = Ret tt w'
       /\ txb <$> clients_heap w' !! self = Some (txb o + total)
       /\ (forall p s, parent_interface o = Some p ->
             servers_heap w !! p = Some s ->
             s_txb <$> servers_heap w' !! p = Some (s_txb s + total)).
Proof.
  intros Ho Hon Hsock Hrate Hp total. split.
  { unfold total. clear. induction frames as [|f frames IH]; [reflexivity|].
    cbn [map foldr]. rewrite IH, len_encode. reflexivity. }
  subst total. revert w o Ho Hon Hsock Hrate Hp.
  induction frames as [|f frames IH]; intros w o Ho Hon Hsock Hrate Hp.
  - exists w. cbn [send_all map foldr]. split; [reflexivity|].
    rewrite Ho, !Z.add_0_r. split; [reflexivity|].
    intros p s _ Hs. rewrite Hs, Z.add_0_r. reflexivity.
  - destruct (process_outgoing_sent self f w o Ho Hon Hsock) as
      (w1 & o1 & Erun & Ho1 & Ht1 & Hon1 & Hs1 & Hf1 & Hb1 & Hpar1 & Hlen1 & Hsrv1).
    { intros Hf. destruct (Hrate Hf) as [Hnz Hneg]. split; [exact Hnz|].
      apply Forall_cons in Hneg as [E _]. exact E. }
    { exact Hp. }
    destruct (IH w1 o1 Ho1 Hon1) as (w' & Erest & Htx & Hptx).
    { rewrite Hs1. exact Hsock. }
    { rewrite Hf1, Hb1. intros Hf. destruct (Hrate Hf) as [Hnz Hneg].
      split; [exact Hnz|].
      apply Forall_cons in Hneg as [_ E]. exact E. }
    { rewrite Hpar1. intros p Ep.
      apply (is_Some_length (servers_heap w)); [symmetry; exact Hlen1|].
      apply Hp. exact Ep. }
    exists w'. cbn [send_all map foldr].
    split; [rewrite (bind_Ret _ _ _ _ _ Erun); exact Erest|].
    split.
    + rewrite Htx, Ht1. f_equal. lia.
    + intros p s Ep Hs.
      pose proof (Hsrv1 p s Ep Hs) as H1.
      destruct (servers_heap w1 !! p) as [s1|] eqn:Es1; [|discriminate].
      cbn [fmap option_fmap option_map] in H1. injection H1 as H1.
      rewrite Hpar1 in Hptx. rewrite (Hptx p s1 Ep Es1), H1.
      f_equal. lia.
Qed.

(** ** [teardown] *)

Lemma py_in_true (x : ref) (l : list ref) : py_in x l = true <-> x ∈ l.
Proof. unfold py_in. apply bool_decide_eq_true. Qed.

Lemma py_in_false (x : ref) (l : list ref) : py_in x l = false <-> x ∉ l.
Proof. unfold py_in. apply bool_decide_eq_false. Qed.

Lemma py_remove_in (x : ref) (l : list ref) :
  x ∈ l -> exists l', py_remove x l = Some l'.
Proof.
  induction l as [|y l IH]; intros H.
  - apply not_elem_of_nil in H. contradiction.
  - cbn [py_remove]. destruct (decide (y = x)) as [|Hne]; [eauto|].
    apply elem_of_cons in H as [H|H]; [congruence|].
    destruct (IH H) as [l' ->]. eauto.
Qed.

Lemma py_remove_not_in (x : ref) (l : list ref) :
  x ∉ l -> py_remove x l = None.
Proof.
  induction l as [|y l IH]; intros H; [reflexivity|].
  cbn [py_remove]. apply not_elem_of_cons in H as [Hne H].
  destruct (decide (y = x)) as [|_]; [congruence|].
  rewrite (IH H). reflexivity.
Qed.

Lemma remove_if_in_not_in (x : ref) (l : list ref) :
  x ∉ l -> remove_if_in x l = l.
Proof. intros H. unfold remove_if_in. rewrite py_remove_not_in by exact H. reflexivity. Qed.

(** [if self in RNS.Transport.interfaces: RNS.Transport.interfaces.remove(self)]
    never raises. *)
Lemma guarded_interfaces_remove {B} (self : ref) (k : unit -> M B) (w : world) :
  bind (if py_in self (interfaces w) then interfaces_remove self else ret tt)
    k w
  = k tt (with_interfaces (remove_if_in self (interfaces w)) w).
Proof.
  unfold remove_if_in.
  destruct (py_in self (interfaces w)) eqn:E.
  - apply py_in_true, py_remove_in in E as [l' E].
    unfold bind, interfaces_remove. rewrite E. reflexivity.
  - apply py_in_false, py_remove_not_in in E. rewrite E.
    rewrite bind_ret. destruct w; reflexivity.
Qed.

Lemma bind_local_remove {B} (self : ref) (k : unit -> M B) (w : world) :
  py_in self (local_client_interfaces w) = true ->
  bind (local_client_interfaces_remove self) k w
  = k tt (with_local_client_interfaces
            (remove_if_in self (local_client_interfaces w)) w).
Proof.
  intros E. unfold remove_if_in.
  apply py_in_true, py_remove_in in E as [l' E].
  unfold bind, local_client_interfaces_remove. rewrite E. reflexivity.
Qed.

(** The last two blocks of [teardown]: the warning with its panic, and the
    exit of an initiating connection. *)
Lemma teardown_tail (self : ref) (nowarning : bool) (w : world) (o : client) :
  clients_heap w !! self = Some o ->
  ((if negb nowarning then
      log MsgUnrecoverable LOG_ERROR self;;
      panic <- gets panic_on_interface_error;;
      if panic then rns_panic else ret tt
    else ret tt);;
   shared <- attr self is_connected_to_shared_instance;;
   if shared then
     (if negb nowarning then log MsgLostSharedInstance LOG_CRITICAL self
      else ret tt);;
     rns_exit
   else ret tt) w
  = let w' :=
      with_trace
        (trace w
         ++ (if negb nowarning then [EvLog MsgUnrecoverable LOG_ERROR self]
             else [])
         ++ (if negb nowarning && panic_on_interface_error w then [EvPanic]
             else if is_connected_to_shared_instance o
                  then (if negb nowarning
                        then [EvLog MsgLostSharedInstance LOG_CRITICAL self]
                        else [])
                       ++ [EvExit]
                  else [])) w in
    if teardown_exits nowarning w o then Exited w' else Ret tt w'.
Proof.
  intros Ho. unfold teardown_exits.
  destruct nowarning; cbn [negb andb orb].
  - rewrite bind_ret, (bind_attr _ _ _ _ _ Ho).
    destruct (is_connected_to_shared_instance o).
    + rewrite bind_ret. unfold rns_exit. cbn [app]. reflexivity.
    + unfold ret. cbn [app]. rewrite app_nil_r. destruct w; reflexivity.
  - rewrite bind_bind, bind_log, bind_bind, bind_gets. simpl_world.
    destruct (panic_on_interface_error w) eqn:Ep.
    + cbn [orb]. unfold bind, rns_panic. simpl_world.
      rewrite <- app_assoc. reflexivity.
    + cbn [orb]. rewrite bind_ret.
      erewrite bind_attr by (simpl_world; exact Ho).
      destruct (is_connected_to_shared_instance o).
      * rewrite bind_log. unfold rns_exit. simpl_world.
        rewrite <- !app_assoc. reflexivity.
      * unfold ret. rewrite app_nil_r. reflexivity.
Qed.

(** [teardown] never raises: it returns, or ends the process, in the state
    [teardown_world]. *)
Lemma teardown_eq (self : ref) (nowarning : bool) (w : world) (o : client) :
  clients_heap w !! self = Some o ->
  (forall p, parent_interface o = Some p -> is_Some (servers_heap w !! p)) ->
  teardown self nowarning w
  = if teardown_exits nowarning w o
    then Exited (teardown_world self nowarning w o)
    else Ret tt (teardown_world self nowarning w o).
Proof.
  intros Ho Hp.
  pose proof (lookup_lt_Some _ _ _ Ho) as Hlt.
  destruct w as [ch sh ifs lci town pan tr].
  cbn [clients_heap servers_heap] in Ho, Hp, Hlt.
  set (o' := set_IN false (set_OUT false (set_online false o))).
  unfold teardown.
  rewrite bind_emit. simpl_world.
  erewrite bind_setattr by (simpl_world; exact Ho). simpl_world.
  erewrite bind_setattr
    by (simpl_world; apply list_lookup_insert_eq; exact Hlt).
  simpl_world. rewrite list_insert_insert_eq.
  erewrite bind_setattr
    by (simpl_world; apply list_lookup_insert_eq; exact Hlt).
  simpl_world. rewrite list_insert_insert_eq. fold o'.
  rewrite bind_gets. cbv beta.
  rewrite guarded_interfaces_remove. simpl_world.
  rewrite bind_gets. cbv beta. simpl_world.
  unfold teardown_world, teardown_servers, teardown_events. simpl_world.
  destruct (py_in self lci) eqn:Elci.
  - rewrite bind_bind.
    rewrite bind_local_remove by (simpl_world; exact Elci).
    simpl_world. rewrite bind_bind.
    erewrite bind_attr by (simpl_world; apply list_lookup_insert_eq; exact Hlt).
    unfold o' at 1. simpl_client.
    destruct (parent_interface o) as [p|] eqn:Ep.
    + destruct (Hp p eq_refl) as [s Hs]. rewrite Hs.
      rewrite bind_bind.
      erewrite bind_s_attr by (simpl_world; exact Hs).
      rewrite bind_bind.
      erewrite bind_s_setattr by (simpl_world; exact Hs).
      simpl_world. rewrite bind_bind, bind_gets. simpl_world.
      destruct town.
      * rewrite bind_emit. simpl_world.
        erewrite teardown_tail by (simpl_world; apply list_lookup_insert_eq; exact Hlt).
        unfold teardown_exits, o'. simpl_world. simpl_client.
        cbv zeta. simpl_world. rewrite <- ?app_assoc. reflexivity.
      * rewrite bind_ret.
        erewrite teardown_tail by (simpl_world; apply list_lookup_insert_eq; exact Hlt).
        unfold teardown_exits, o'. simpl_world. simpl_client.
        cbv zeta. simpl_world. rewrite <- ?app_assoc. reflexivity.
    + rewrite bind_ret.
      erewrite teardown_tail by (simpl_world; apply list_lookup_insert_eq; exact Hlt).
      unfold teardown_exits, o'. simpl_world. simpl_client.
      cbv zeta. simpl_world. rewrite <- ?app_assoc. reflexivity.
  - rewrite bind_ret.
    rewrite (remove_if_in_not_in self lci)
      by (apply py_in_false; exact Elci).
    erewrite teardown_tail by (simpl_world; apply list_lookup_insert_eq; exact Hlt).
    unfold teardown_exits, o'. simpl_world. simpl_client.
    cbv zeta. simpl_world. rewrite <- ?app_assoc. reflexivity.
Qed.

Lemma at_most_once_tail (x y : ref) (l : list ref) :
  at_most_once x (y :: l) -> at_most_once x l.
Proof.
  intros H i j Hi Hj. specialize (H (S i) (S j) Hi Hj). lia.
Qed.

Lemma at_most_once_NoDup (x : ref) (l : list ref) :
  NoDup l -> at_most_once x l.
Proof. intros H i j Hi Hj. exact (NoDup_lookup l i j x H Hi Hj). Qed.

Lemma py_remove_gone (x : ref) (l l' : list ref) :
  at_most_once x l -> py_remove x l = Some l' -> x ∉ l'.
Proof.
  revert l'. induction l as [|y l IH]; intros l' Hone E; [discriminate|].
  cbn [py_remove] in E. destruct (decide (y = x)) as [->|Hne].
  - injection E as <-. intros Hin.
    apply list_elem_of_lookup in Hin as [j Hj].
    specialize (Hone 0%nat (S j) eq_refl Hj). discriminate.
  - destruct (py_remove x l) as [r|] eqn:Er; [|discriminate].
    injection E as <-.
    apply not_elem_of_cons. split; [congruence|].
    apply IH; [exact (at_most_once_tail x y l Hone)|reflexivity].
Qed.

Lemma remove_if_in_gone (x : ref) (l : list ref) :
  at_most_once x l -> x ∉ remove_if_in x l.
Proof.
  intros Hone. unfold remove_if_in.
  destruct (py_remove x l) as [l'|] eqn:E.
  - exact (py_remove_gone x l l' Hone E).
  - intros Hin. apply py_remove_in in Hin as [l' E']. congruence.
Qed.

Lemma teardown_servers_length (self : ref) (w : world) (o : client) :
  length (teardown_servers self w o) = length (servers_heap w).
Proof.
  unfold teardown_servers.
  destruct (py_in self (local_client_interfaces w)); [|reflexivity].
  destruct (parent_interface o) as [p|]; [|reflexivity].
  destruct (servers_heap w !! p); [apply length_insert|reflexivity].
Qed.

(** C6: [teardown] never raises.  On a connection that stands at most once
    in each registry, the first call takes it out of both, and lowers the
    client count of its parent by one exactly when it stood in the
    local-clients registry and has a parent; a second call, with either
    flag, raises nothing and leaves both registries and every server as the
    first call left them. *)
Theorem teardown_twice (self : ref) (nowarning nowarning' : bool) (w : world)
    (o : client) :
  clients_heap w !! self = Some o ->
  (forall p, parent_interface o = Some p -> is_Some (servers_heap w !! p)) ->
  at_most_once self (interfaces w) ->
  at_most_once self (local_client_interfaces w) ->
  exists w1 w2,
    (teardown self nowarning w = Ret tt w1
     \/ teardown self nowarning w = Exited w1)
    /\ (self ∈ interfaces w ->
        py_remove self (interfaces w) = Some (interfaces w1))
    /\ (self ∉ interfaces w -> interfaces w1 = interfaces w)
    /\ (self ∈ local_client_interfaces w ->
        py_remove self (local_client_interfaces w)
        = Some (local_client_interfaces w1))
    /\ (self ∉ local_client_interfaces w ->
        local_client_interfaces w1 = local_client_interfaces w)
    /\ (self ∉ interfaces w1)
    /\ (self ∉ local_client_interfaces w1)
    /\ (forall p s, self ∈ local_client_interfaces w ->
          parent_interface o = Some p -> servers_heap w !! p = Some s ->
          servers_heap w1 = <[p := set_clients (clients s - 1) s]> (servers_heap w))
    /\ ((self ∉ local_client_interfaces w) \/ parent_interface o = None ->
        servers_heap w1 = servers_heap w)
    /\ (teardown self nowarning' w1 = Ret tt w2
        \/ teardown self nowarning' w1 = Exited w2)
    /\ interfaces w2 = interfaces w1
    /\ local_client_interfaces w2 = local_client_interfaces w1
    /\ servers_heap w2 = servers_heap w1.
Proof.
  intros Ho Hp Hi Hl.
  pose proof (lookup_lt_Some _ _ _ Ho) as Hlt.
  set (o1 := set_IN false (set_OUT false (set_online false o))).
  set (w1 := teardown_world self nowarning w o).
  assert (Ho1 : clients_heap w1 !! self = Some o1)
    by (apply list_lookup_insert_eq; exact Hlt).
  assert (Hp1 : forall p, parent_interface o1 = Some p ->
            is_Some (servers_heap w1 !! p)).
  { intros p Ep.
    apply (is_Some_length (servers_heap w));
      [symmetry; apply teardown_servers_length|].
    apply Hp. exact Ep. }
  assert (Hgone_i : self ∉ interfaces w1) by (apply remove_if_in_gone; exact Hi).
  assert (Hgone_l : self ∉ local_client_interfaces w1)
    by (apply remove_if_in_gone; exact Hl).
  exists w1, (teardown_world self nowarning' w1 o1).
  split.
  { rewrite (teardown_eq self nowarning w o Ho Hp).
    destruct (teardown_exits nowarning w o); [right|left]; reflexivity. }
  split.
  { intros Hin. apply py_remove_in in Hin as [l' E].
    unfold w1. cbn [teardown_world interfaces]. unfold remove_if_in.
    rewrite E. reflexivity. }
  split; [intros Hn; apply remove_if_in_not_in; exact Hn|].
  split.
  { intros Hin. apply py_remove_in in Hin as [l' E].
    unfold w1. cbn [teardown_world local_client_interfaces].
    unfold remove_if_in. rewrite E. reflexivity. }
  split; [intros Hn; apply remove_if_in_not_in; exact Hn|].
  split; [exact Hgone_i|]. split; [exact Hgone_l|].
  split.
  { intros p s Hin Ep Hs. unfold w1.
    cbn [teardown_world servers_heap]. unfold teardown_servers.
    apply py_in_true in Hin. rewrite Hin, Ep, Hs. reflexivity. }
  split.
  { intros [Hn|Ep]; unfold w1; cbn [teardown_world servers_heap];
      unfold teardown_servers.
    - apply py_in_false in Hn. rewrite Hn. reflexivity.
    - rewrite Ep. destruct (py_in self (local_client_interfaces w)); reflexivity. }
  split.
  { rewrite (teardown_eq self nowarning' w1 o1 Ho1 Hp1).
    destruct (teardown_exits nowarning' w1 o1); [right|left]; reflexivity. }
  cbn [teardown_world interfaces local_client_interfaces servers_heap].
  split; [apply remove_if_in_not_in; exact Hgone_i|].
  split; [apply remove_if_in_not_in; exact Hgone_l|].
  unfold teardown_servers. apply py_in_false in Hgone_l.
  fold w1. rewrite Hgone_l. reflexivity.
Qed.

(** ** [reconnect] *)

Lemma returns_may_raise {A} (self : ref) (m : M A) :
  returns self m -> may_raise self m.
Proof.
  intros H w o Ho. destruct (H w o Ho) as (w' & o' & tl & H1 & H2 & H3 & H4).
  exists w', o', tl. eauto.
Qed.

Lemma returns_ret {A} (self : ref) (a : A) : returns self (ret a).
Proof.
  intros w o Ho. exists w, o, []. rewrite app_nil_r.
  split; [exact Ho|]. split; [reflexivity|]. split; [constructor|].
  exists a. reflexivity.
Qed.

Lemma returns_emit (self : ref) (e : event) :
  no_teardown e -> returns self (emit e).
Proof.
  intros He w o Ho. exists (with_trace (trace w ++ [e]) w), o, [e].
  split; [exact Ho|]. split; [reflexivity|].
  split; [repeat constructor; exact He|]. exists tt. reflexivity.
Qed.

Lemma returns_attr {A} (self : ref) (f : client -> A) : returns self (attr self f).
Proof.
  intros w o Ho. exists w, o, []. rewrite app_nil_r.
  split; [exact Ho|]. split; [reflexivity|]. split; [constructor|].
  exists (f o). unfold attr. rewrite Ho. reflexivity.
Qed.

Lemma returns_setattr (self : ref) (u : client -> client) :
  returns self (setattr self u).
Proof.
  intros w o Ho.
  exists (with_clients_heap (<[self := u o]> (clients_heap w)) w), (u o), [].
  rewrite app_nil_r.
  split; [apply list_lookup_insert_eq, (lookup_lt_Some _ _ _ Ho)|].
  split; [reflexivity|]. split; [constructor|].
  exists tt. apply setattr_Some. exact Ho.
Qed.

Lemma may_raise_raise {A} (self : ref) (e : exn) : may_raise self (@raise A e).
Proof.
  intros w o Ho. exists w, o, []. rewrite app_nil_r.
  split; [exact Ho|]. split; [reflexivity|]. split; [constructor|].
  right. exists e. reflexivity.
Qed.

Lemma returns_bind {A B} (self : ref) (m : M A) (k : A -> M B) :
  returns self m -> (forall a, returns self (k a)) -> returns self (bind m k).
Proof.
  intros Hm Hk w o Ho.
  destruct (Hm w o Ho) as (w1 & o1 & tl1 & Ho1 & Ht1 & Hq1 & a & E).
  destruct (Hk a w1 o1 Ho1) as (w2 & o2 & tl2 & Ho2 & Ht2 & Hq2 & b & E2).
  exists w2, o2, (tl1 ++ tl2).
  split; [exact Ho2|]. split; [rewrite Ht2, Ht1, app_assoc; reflexivity|].
  split; [apply Forall_app; split; assumption|].
  exists b. rewrite (bind_Ret _ _ _ _ _ E). exact E2.
Qed.

Lemma may_raise_bind {A B} (self : ref) (m : M A) (k : A -> M B) :
  may_raise self m -> (forall a, may_raise self (k a)) ->
  may_raise self (bind m k).
Proof.
  intros Hm Hk w o Ho.
  destruct (Hm w o Ho) as (w1 & o1 & tl1 & Ho1 & Ht1 & Hq1 & [[a E]|[e E]]).
  - destruct (Hk a w1 o1 Ho1) as (w2 & o2 & tl2 & Ho2 & Ht2 & Hq2 & R).
    exists w2, o2, (tl1 ++ tl2).
    split; [exact Ho2|]. split; [rewrite Ht2, Ht1, app_assoc; reflexivity|].
    split; [apply Forall_app; split; assumption|].
    rewrite (bind_Ret _ _ _ _ _ E). exact R.
  - exists w1, o1, tl1. split; [exact Ho1|]. split; [exact Ht1|].
    split; [exact Hq1|]. right. exists e. unfold bind. rewrite E. reflexivity.
Qed.

Lemma returns_try {A} (self : ref) (m : M A) (h : exn -> M A) :
  may_raise self m -> (forall e, returns self (h e)) ->
  returns self (try_except m h).
Proof.
  intros Hm Hh w o Ho.
  destruct (Hm w o Ho) as (w1 & o1 & tl1 & Ho1 & Ht1 & Hq1 & [[a E]|[e E]]).
  - exists w1, o1, tl1. split; [exact Ho1|]. split; [exact Ht1|].
    split; [exact Hq1|]. exists a. unfold try_except. rewrite E. reflexivity.
  - destruct (Hh e w1 o1 Ho1) as (w2 & o2 & tl2 & Ho2 & Ht2 & Hq2 & b & E2).
    exists w2, o2, (tl1 ++ tl2).
    split; [exact Ho2|]. split; [rewrite Ht2, Ht1, app_assoc; reflexivity|].
    split; [apply Forall_app; split; assumption|].
    exists b. unfold try_except. rewrite E. exact E2.
Qed.

Lemma may_raise_connect (self : ref) (sock : nat) (ok : bool) :
  may_raise self (connect self sock ok).
Proof.
  unfold connect.
  apply may_raise_bind; [apply returns_may_raise, returns_setattr|intros _].
  apply may_raise_bind; [apply returns_may_raise, returns_emit; exact I|intros _].
  destruct ok; [|apply may_raise_raise].
  apply returns_may_raise.
  repeat (apply returns_bind; [apply returns_setattr|intros _]).
  apply returns_ret.
Qed.

Lemma returns_reconnect_attempt (self : ref) (sock : nat) (ok : bool) :
  returns self (reconnect_attempt self sock ok).
Proof.
  unfold reconnect_attempt.
  apply returns_bind; [apply returns_emit; exact I|intros _].
  apply returns_try.
  - apply may_raise_bind; [apply may_raise_connect|intros _].
    apply returns_may_raise, returns_ret.
  - intros _. apply returns_emit. exact I.
Qed.

Lemma returns_reconnect_loop (self : ref) (failed : list nat) (sock : nat) :
  returns self (reconnect_loop self failed sock).
Proof.
  induction failed as [|f failed IH]; cbn [reconnect_loop].
  - apply returns_bind; [apply returns_attr|intros on].
    destruct (negb on); [apply returns_reconnect_attempt|apply returns_ret].
  - apply returns_bind; [apply returns_attr|intros on].
    destruct (negb on); [|apply returns_ret].
    apply returns_bind; [apply returns_reconnect_attempt|intros _]. exact IH.
Qed.

(** On an initiating connection [reconnect] returns, and tears nothing
    down. *)
Lemma reconnect_returns (self : ref) (rs : reconnect_script) (w : world)
    (o : client) :
  clients_heap w !! self = Some o ->
  is_connected_to_shared_instance o = true ->
  exists w' tl,
    reconnect self rs w = Ret tt w'
    /\ trace w' = trace w ++ EvReconnect self :: tl
    /\ Forall no_teardown tl.
Proof.
  intros Ho Hshared.
  assert (Hrest : returns self
            (busy <- attr self reconnecting;;
             if negb busy then
               setattr self (set_reconnecting true);;
               reconnect_loop self (failed_attempts rs) (final_socket rs);;
               never <- attr self never_connected;;
               (if negb never then log MsgReconnected LOG_INFO self
                else ret tt);;
               setattr self (set_reconnecting false);;
               emit (EvThread (ReadLoop self));;
               emit (EvThread ReappearedJob)
             else ret tt)).
  { apply returns_bind; [apply returns_attr|intros busy].
    destruct (negb busy); [|apply returns_ret].
    apply returns_bind; [apply returns_setattr|intros _].
    apply returns_bind; [apply returns_reconnect_loop|intros _].
    apply returns_bind; [apply returns_attr|intros never].
    apply returns_bind;
      [destruct (negb never); [apply returns_emit; exact I|apply returns_ret]
      |intros _].
    apply returns_bind; [apply returns_setattr|intros _].
    apply returns_bind; [apply returns_emit; exact I|intros _].
    apply returns_emit. exact I. }
  destruct (Hrest (with_trace (trace w ++ [EvReconnect self]) w) o Ho)
    as (w' & o' & tl & _ & Ht & Hq & [] & E).
  exists w', tl. split.
  - unfold reconnect. rewrite bind_emit.
    erewrite bind_attr by (simpl_world; exact Ho). rewrite Hshared. exact E.
  - split; [|exact Hq]. rewrite Ht. simpl_world.
    rewrite <- app_assoc. reflexivity.
Qed.

(** ** The end of the read loop *)

Lemma teardown_events_no_reconnect (self : ref) (nowarning : bool) (w : world)
    (o : client) :
  Forall no_reconnect (teardown_events self nowarning w o).
Proof.
  unfold teardown_events.
  destruct (py_in self (local_client_interfaces w)),
    (parent_interface o), (transport_owner w), nowarning,
    (panic_on_interface_error w), (is_connected_to_shared_instance o);
    cbn [negb andb app]; repeat constructor.
Qed.

(** What the loop does with a read of no bytes, up to the choice between
    [reconnect] and [teardown]. *)
Lemma read_loop_from_closed (self : ref) (buf : bytes)
    (script : list recv_result) (rs : reconnect_script) (w : world)
    (o : client) :
  clients_heap w !! self = Some o ->
  is_Some (socket o) ->
  read_loop_from self buf (Received [] :: script) rs w
  = ((if is_connected_to_shared_instance o && negb (detached o) then
        log MsgSocketClosed LOG_WARNING self;;
        emit EvDisappeared;;
        reconnect self rs
      else teardown self true);;
     ret None)
      (with_clients_heap (<[self := set_online false o]> (clients_heap w)) w).
Proof.
  intros Ho [sk Hsk].
  pose proof (lookup_lt_Some _ _ _ Ho) as Hlt.
  cbn [read_loop_from]. unfold socket_recv.
  rewrite bind_bind, (bind_attr _ _ _ _ _ Ho), Hsk, bind_ret.
  change (0 <? len []) with false. cbv iota.
  rewrite (bind_setattr _ _ _ _ _ Ho).
  erewrite bind_attr by (simpl_world; apply list_lookup_insert_eq; exact Hlt).
  erewrite bind_attr by (simpl_world; apply list_lookup_insert_eq; exact Hlt).
  simpl_client. reflexivity.
Qed.


(** ** [incoming_connection] and the client counter *)

Lemma lookup_last {A} (l : list A) (x : A) : (l ++ [x]) !! length l = Some x.
Proof. apply list_lookup_middle. reflexivity. Qed.

Lemma insert_last {A} (l : list A) (x y : A) :
  <[length l := y]> (l ++ [x]) = l ++ [y].
Proof.
  rewrite <- (Nat.add_0_r (length l)). rewrite insert_app_r. reflexivity.
Qed.

Lemma bind_new_client {B} (o : client) (k : ref -> M B) (w : world) :
  bind (new_client o) k w
  = k (length (clients_heap w)) (with_clients_heap (clients_heap w ++ [o]) w).
Proof. reflexivity. Qed.

(** The registration returns the new reference in the state
    [spawn_world]. *)
Lemma spawn_eq (srv : ref) (h : handler) (w : world) (s : server) :
  servers_heap w !! srv = Some s ->
  has_owner s = true ->
  spawn srv h w = Ret (length (clients_heap w)) (spawn_world srv s h w).
Proof.
  intros Hs Hown.
  destruct w as [ch sh ifs lci town pan tr]. cbn [servers_heap] in Hs.
  unfold spawn, spawn_world. unfold_world.
  erewrite bind_s_attr by (unfold_world; exact Hs). rewrite Hown.
  rewrite bind_new_client. cbv beta. unfold_world.
  assert (step_set : forall (B : Type) (u : client -> client) (o1 : client)
            (k : unit -> M B) sh1 ifs1 lci1 tr1,
            bind (setattr (length ch) u) k
              (World (ch ++ [o1]) sh1 ifs1 lci1 town pan tr1)
            = k tt (World (ch ++ [u o1]) sh1 ifs1 lci1 town pan tr1)).
  { intros B u o1 k sh1 ifs1 lci1 tr1.
    erewrite bind_setattr by (unfold_world; apply lookup_last).
    unfold_world. rewrite insert_last. reflexivity. }
  erewrite bind_s_attr by (unfold_world; exact Hs). cbv beta.
  rewrite step_set.
  erewrite bind_s_attr by (unfold_world; exact Hs). cbv beta.
  rewrite !step_set.
  erewrite bind_s_attr by (unfold_world; exact Hs). cbv beta.
  rewrite step_set.
  erewrite bind_s_attr by (unfold_world; exact Hs). cbv beta.
  cbv beta.
  assert (Hforce :
    forall (k : unit -> M ref) o1,
      bind (match s_force_bitrate s with
            | Some f => setattr (length ch) (set_force_bitrate f)
            | None => ret tt
            end) k (World (ch ++ [o1]) sh ifs lci town pan tr)
      = k tt (World (ch ++ [match s_force_bitrate s with
                            | Some f => set_force_bitrate f o1
                            | None => o1
                            end]) sh ifs lci town pan tr)).
  { intros k o1. destruct (s_force_bitrate s); [apply step_set|reflexivity]. }
  rewrite Hforce.
  rewrite !bind_modify. unfold_world.
  erewrite bind_s_attr by (unfold_world; exact Hs). cbv beta.
  erewrite bind_s_setattr by (unfold_world; exact Hs).
  unfold_world. unfold ret. f_equal. f_equal. f_equal.
  unfold spawned_interface_of, spawned_client. simpl_client.
  destruct (s_force_bitrate s); reflexivity.
Qed.

(** On a server without [owner] the accept raises and changes nothing. *)
Lemma spawn_no_owner (srv : ref) (h : handler) (w : world) (s : server) :
  servers_heap w !! srv = Some s ->
  has_owner s = false ->
  spawn srv h w = Exn AttributeError w.
Proof.
  intros Hs Hown. unfold spawn.
  rewrite (bind_s_attr _ _ _ _ _ Hs), Hown. reflexivity.
Qed.

Lemma spawn_Ret (srv : ref) (h : handler) (w w' : world) (c : ref) :
  spawn srv h w = Ret c w' ->
  exists s, servers_heap w !! srv = Some s
    /\ has_owner s = true
    /\ c = length (clients_heap w) /\ w' = spawn_world srv s h w.
Proof.
  intros E. destruct (servers_heap w !! srv) as [s|] eqn:Hs.
  - destruct (has_owner s) eqn:Hown.
    + rewrite (spawn_eq srv h w s Hs Hown) in E. injection E as <- <-. eauto.
    + rewrite (spawn_no_owner srv h w s Hs Hown) in E. discriminate.
  - exfalso. unfold spawn, bind, s_attr in E. rewrite Hs in E. discriminate.
Qed.

Lemma teardown_Ret (c : ref) (nowarning : bool) (w w' : world) :
  (forall o p, clients_heap w !! c = Some o -> parent_interface o = Some p ->
     is_Some (servers_heap w !! p)) ->
  teardown c nowarning w = Ret tt w' ->
  exists o, clients_heap w !! c = Some o
    /\ w' = teardown_world c nowarning w o.
Proof.
  intros Hp E. destruct (clients_heap w !! c) as [o|] eqn:Ho.
  - rewrite (teardown_eq c nowarning w o Ho (fun p => Hp o p eq_refl)) in E.
    destruct (teardown_exits nowarning w o); [discriminate|].
    injection E as <-. eauto.
  - exfalso. unfold teardown in E. rewrite bind_emit in E.
    unfold bind at 1, setattr in E.
    cbn [clients_heap with_trace] in E. rewrite Ho in E.
    discriminate.
Qed.

Lemma py_remove_split (x : ref) (l l' : list ref) :
  py_remove x l = Some l' ->
  exists l1 l2, l = l1 ++ x :: l2 /\ l' = l1 ++ l2 /\ x ∉ l1.
Proof.
  revert l'. induction l as [|y l IH]; intros l' E; [discriminate|].
  cbn [py_remove] in E. destruct (decide (y = x)) as [->|Hne].
  - injection E as <-. exists [], l. split; [reflexivity|].
    split; [reflexivity|apply not_elem_of_nil].
  - destruct (py_remove x l) as [r|] eqn:Er; [|discriminate].
    injection E as <-.
    destruct (IH r eq_refl) as (l1 & l2 & -> & -> & Hn).
    exists (y :: l1), l2. split; [reflexivity|]. split; [reflexivity|].
    apply not_elem_of_cons. split; [congruence|exact Hn].
Qed.

(** On a registry without repetition, [remove_if_in] takes [x] out and
    keeps the rest. *)
Lemma remove_if_in_elem (x y : ref) (l : list ref) :
  NoDup l -> (y ∈ remove_if_in x l <-> y ∈ l /\ y <> x).
Proof.
  intros Hnd. unfold remove_if_in.
  destruct (py_remove x l) as [l'|] eqn:E.
  - destruct (py_remove_split x l l' E) as (l1 & l2 & -> & -> & Hn1).
    apply NoDup_app in Hnd as (_ & Hdis & Hnd2).
    apply NoDup_cons in Hnd2 as [Hn2 _].
    rewrite !elem_of_app, elem_of_cons. split.
    + intros [H|H]; (split; [tauto|intros ->; contradiction]).
    + intros [[H|[H|H]] Hne]; [left; exact H|contradiction|right; exact H].
  - split; [|tauto]. intros H. split; [exact H|].
    intros ->. apply py_remove_in in H as [l' E']. congruence.
Qed.

Lemma remove_if_in_NoDup (x : ref) (l : list ref) :
  NoDup l -> NoDup (remove_if_in x l).
Proof.
  intros Hnd. unfold remove_if_in.
  destruct (py_remove x l) as [l'|] eqn:E; [|exact Hnd].
  destruct (py_remove_split x l l' E) as (l1 & l2 & -> & -> & _).
  apply NoDup_app in Hnd as (Hnd1 & Hdis & Hnd2).
  apply NoDup_cons in Hnd2 as [_ Hnd2].
  apply NoDup_app. split; [exact Hnd1|]. split; [|exact Hnd2].
  intros y Hy Hy2. apply (Hdis y Hy). right. exact Hy2.
Qed.

(** The children of a server in a registry depend on the parents of the
    registered interfaces only. *)
Lemma children_ext (w w' : world) (srv : ref) (l : list ref) :
  (forall c, c ∈ l ->
     parent_interface <$> clients_heap w' !! c
     = parent_interface <$> clients_heap w !! c) ->
  children w' srv l = children w srv l.
Proof.
  unfold children. induction l as [|c l IH]; intros H; [reflexivity|].
  rewrite !filter_cons, (H c) by left.
  rewrite IH by (intros x Hx; apply H; right; exact Hx). reflexivity.
Qed.

Lemma children_app (w : world) (srv : ref) (l1 l2 : list ref) :
  children w srv (l1 ++ l2) = children w srv l1 ++ children w srv l2.
Proof. unfold children. apply filter_app. Qed.

(** Taking an interface out of a registry without repetition lowers the
    number of children of its parent by one and of no other server. *)
Lemma children_remove (w : world) (srv x : ref) (l : list ref) :
  NoDup l ->
  Z.of_nat (length (children w srv (remove_if_in x l)))
  = Z.of_nat (length (children w srv l))
    - (if bool_decide (x ∈ l /\
                       parent_interface <$> clients_heap w !! x = Some (Some srv))
       then 1 else 0).
Proof.
  intros Hnd. unfold remove_if_in.
  destruct (py_remove x l) as [l'|] eqn:E.
  - destruct (py_remove_split x l l' E) as (l1 & l2 & -> & -> & _).
    rewrite !children_app. unfold children at 4. rewrite filter_cons.
    fold (children w srv l2). rewrite !length_app.
    destruct (decide (parent_interface <$> clients_heap w !! x = Some (Some srv)))
      as [Hc|Hc].
    + rewrite bool_decide_eq_true_2
        by (split; [apply elem_of_app; right; left|exact Hc]).
      cbn [length]. lia.
    + rewrite bool_decide_eq_false_2 by tauto. lia.
  - rewrite bool_decide_eq_false_2; [lia|].
    intros [Hin _]. apply py_remove_in in Hin as [l' E']. congruence.
Qed.

Lemma initial_consistent (w : world) : initial w -> consistent w.
Proof.
  intros (Hc & Hni & Hnl & Hsi & Hsl & Hs). split; try assumption.
  - intros c o p Ho Ep. rewrite (Hc c o Ho) in Ep. discriminate.
  - intros c o Ho [p Ep]. rewrite (Hc c o Ho) in Ep. discriminate.
  - intros srv s Hsrv.
    assert (E : children w srv (interfaces w) = []).
    { unfold children. generalize (interfaces w). intros l.
      induction l as [|c l IH]; [reflexivity|].
      rewrite filter_cons, IH.
      destruct (decide (parent_interface <$> clients_heap w !! c
                        = Some (Some srv))) as [E|_]; [|reflexivity].
      destruct (clients_heap w !! c) as [o|] eqn:Ho; [|discriminate].
      injection E as E. rewrite (Hc c o Ho) in E. discriminate. }
    rewrite E. apply list_elem_of_lookup_2 in Hsrv.
    rewrite Forall_forall in Hs. exact (Hs s Hsrv).
Qed.

Lemma spawn_consistent (srv : ref) (s : server) (h : handler) (w : world) :
  consistent w -> servers_heap w !! srv = Some s ->
  consistent (spawn_world srv s h w).
Proof.
  intros [Hpar Hni Hnl Hsi Hsl Hboth Hcount] Hs.
  set (c := length (clients_heap w)).
  assert (Hold : forall x, is_Some (clients_heap w !! x) ->
            (clients_heap w ++ [spawned_interface_of srv s h]) !! x
            = clients_heap w !! x).
  { intros x Hx. apply lookup_app_l, lookup_lt_is_Some. exact Hx. }
  assert (Hfresh_i : c ∉ interfaces w).
  { intros Hin. apply Hsi, lookup_lt_is_Some in Hin. unfold c in Hin. lia. }
  assert (Hfresh_l : c ∉ local_client_interfaces w).
  { intros Hin. apply Hsl, lookup_lt_is_Some in Hin. unfold c in Hin. lia. }
  assert (Hlook : forall x o,
            (clients_heap w ++ [spawned_interface_of srv s h]) !! x = Some o ->
            clients_heap w !! x = Some o
            \/ (x = c /\ o = spawned_interface_of srv s h)).
  { intros x o Hx. apply lookup_app_Some in Hx as [Hx|[Hge Hx]]; [left; exact Hx|].
    right. apply list_lookup_singleton_Some in Hx as [Hx ->].
    split; [unfold c; lia|reflexivity]. }
  split; cbn [spawn_world clients_heap servers_heap interfaces
              local_client_interfaces].
  - intros x o p Hx Ep.
    apply lookup_lt_is_Some. rewrite length_insert. apply lookup_lt_is_Some.
    destruct (Hlook x o Hx) as [Hx'|[-> ->]].
    + exact (Hpar x o p Hx' Ep).
    + cbn in Ep. injection Ep as <-. eauto.
  - apply NoDup_app. split; [exact Hni|]. split; [|apply NoDup_singleton].
    intros x Hx Hx'. apply list_elem_of_singleton in Hx'. subst x.
    contradiction.
  - apply NoDup_app. split; [exact Hnl|]. split; [|apply NoDup_singleton].
    intros x Hx Hx'. apply list_elem_of_singleton in Hx'. subst x.
    contradiction.
  - intros x Hx. apply lookup_lt_is_Some. rewrite length_app. cbn [length].
    apply elem_of_app in Hx as [Hx|Hx].
    + apply Hsi, lookup_lt_is_Some in Hx. lia.
    + apply list_elem_of_singleton in Hx. subst x. lia.
  - intros x Hx. apply lookup_lt_is_Some. rewrite length_app. cbn [length].
    apply elem_of_app in Hx as [Hx|Hx].
    + apply Hsl, lookup_lt_is_Some in Hx. lia.
    + apply list_elem_of_singleton in Hx. subst x. lia.
  - intros x o Hx Hp. rewrite !elem_of_app, !list_elem_of_singleton.
    destruct (Hlook x o Hx) as [Hx'|[-> ->]].
    + rewrite (Hboth x o Hx' Hp). reflexivity.
    + tauto.
  - intros srv' s' Hs'.
    rewrite children_app.
    rewrite (children_ext w _ srv' (interfaces w))
      by (intros x Hx; cbn [spawn_world clients_heap];
          rewrite (Hold x (Hsi x Hx)); reflexivity).
    unfold children at 2. rewrite filter_cons, filter_nil.
    cbn [spawn_world clients_heap]. unfold c.
    rewrite lookup_last.
    cbn [fmap option_fmap option_map spawned_interface_of parent_interface].
    rewrite length_app.
    destruct (decide (srv = srv')) as [<-|Hne].
    + rewrite list_lookup_insert_eq in Hs'
        by (apply lookup_lt_Some in Hs; exact Hs).
      injection Hs' as <-. simpl_server.
      rewrite decide_True by reflexivity. cbn [length].
      rewrite (Hcount srv s Hs). lia.
    + rewrite list_lookup_insert_ne in Hs' by exact Hne.
      rewrite decide_False by congruence. cbn [length].
      rewrite (Hcount srv' s' Hs'). lia.
Qed.

Lemma teardown_consistent (c : ref) (nowarning : bool) (w : world) (o : client) :
  consistent w -> clients_heap w !! c = Some o ->
  consistent (teardown_world c nowarning w o).
Proof.
  intros [Hpar Hni Hnl Hsi Hsl Hboth Hcount] Ho.
  pose proof (lookup_lt_Some _ _ _ Ho) as Hlt.
  set (o' := set_IN false (set_OUT false (set_online false o))).
  assert (Hparent : forall x,
            parent_interface <$> <[c := o']> (clients_heap w) !! x
            = parent_interface <$> clients_heap w !! x).
  { intros x. destruct (decide (c = x)) as [<-|Hne].
    - rewrite list_lookup_insert_eq by exact Hlt. rewrite Ho. reflexivity.
    - rewrite list_lookup_insert_ne by exact Hne. reflexivity. }
  assert (Hlook : forall x ox, <[c := o']> (clients_heap w) !! x = Some ox ->
            exists oy, clients_heap w !! x = Some oy
              /\ parent_interface oy = parent_interface ox).
  { intros x ox Hx. pose proof (Hparent x) as E. rewrite Hx in E.
    destruct (clients_heap w !! x) as [oy|]; [|discriminate].
    injection E as E. eauto. }
  assert (Hsrvlen : length (teardown_servers c w o) = length (servers_heap w))
    by apply teardown_servers_length.
  split; cbn [teardown_world clients_heap servers_heap interfaces
              local_client_interfaces]; fold o'.
  - intros x ox p Hx Ep.
    destruct (Hlook x ox Hx) as (oy & Hy & Epar).
    apply (is_Some_length (servers_heap w)); [symmetry; exact Hsrvlen|].
    apply (Hpar x oy p Hy). rewrite Epar. exact Ep.
  - apply remove_if_in_NoDup. exact Hni.
  - apply remove_if_in_NoDup. exact Hnl.
  - intros x Hx. apply (remove_if_in_elem c x _ Hni) in Hx as [Hx _].
    apply lookup_lt_is_Some. rewrite length_insert.
    apply lookup_lt_is_Some, Hsi, Hx.
  - intros x Hx. apply (remove_if_in_elem c x _ Hnl) in Hx as [Hx _].
    apply lookup_lt_is_Some. rewrite length_insert.
    apply lookup_lt_is_Some, Hsl, Hx.
  - intros x ox Hx Hp.
    destruct (Hlook x ox Hx) as (oy & Hy & Epar).
    rewrite (remove_if_in_elem c x _ Hni), (remove_if_in_elem c x _ Hnl).
    rewrite (Hboth x oy Hy) by (rewrite Epar; exact Hp). reflexivity.
  - intros srv s' Hs'.
    rewrite (children_ext w _ srv)
      by (intros x _; cbn [teardown_world clients_heap]; apply Hparent).
    rewrite (children_remove w srv c (interfaces w) Hni).
    rewrite Ho. cbn [fmap option_fmap option_map].
    unfold teardown_servers in Hs'.
    destruct (py_in c (local_client_interfaces w)) eqn:Elci.
    + apply py_in_true in Elci.
      destruct (parent_interface o) as [p|] eqn:Ep.
      * assert (Hci : c ∈ interfaces w)
          by (apply (Hboth c o Ho); [rewrite Ep; eauto|exact Elci]).
        destruct (Hpar c o p Ho Ep) as [s Hs]. rewrite Hs in Hs'.
        pose proof (lookup_lt_Some _ _ _ Hs) as Hslt.
        destruct (decide (p = srv)) as [->|Hne].
        -- rewrite list_lookup_insert_eq in Hs' by exact Hslt.
           injection Hs' as <-. simpl_server.
           rewrite bool_decide_eq_true_2 by (split; [exact Hci|reflexivity]).
           rewrite (Hcount srv s Hs). reflexivity.
        -- rewrite list_lookup_insert_ne in Hs' by exact Hne.
           rewrite bool_decide_eq_false_2 by (intros [_ [=]]; congruence).
           rewrite (Hcount srv s' Hs'). lia.
      * rewrite bool_decide_eq_false_2 by (intros [_ [=]]).
        rewrite (Hcount srv s' Hs'). lia.
    + apply py_in_false in Elci.
      rewrite bool_decide_eq_false_2.
      * rewrite (Hcount srv s' Hs'). lia.
      * intros [Hci E]. injection E as Ep. apply Elci.
        apply (Hboth c o Ho); [rewrite Ep; eauto|exact Hci].
Qed.

(** ** Every method keeps the registries and counters consistent *)

Lemma consistent_same (w w' : world) :
  clients_heap w' = clients_heap w ->
  servers_heap w' = servers_heap w ->
  interfaces w' = interfaces w ->
  local_client_interfaces w' = local_client_interfaces w ->
  consistent w -> consistent w'.
Proof.
  intros E1 E2 E3 E4 [Hpar Hni Hnl Hsi Hsl Hboth Hcount].
  split; unfold children; rewrite ?E1, ?E2, ?E3, ?E4; assumption.
Qed.

Lemma consistent_update_client (w : world) (self : ref) (o o' : client) :
  clients_heap w !! self = Some o ->
  parent_interface o' = parent_interface o ->
  consistent w ->
  consistent (with_clients_heap (<[self := o']> (clients_heap w)) w).
Proof.
  intros Ho Epar [Hpar Hni Hnl Hsi Hsl Hboth Hcount].
  pose proof (lookup_lt_Some _ _ _ Ho) as Hlt.
  assert (Hparent : forall x,
            parent_interface <$> <[self := o']> (clients_heap w) !! x
            = parent_interface <$> clients_heap w !! x).
  { intros x. destruct (decide (self = x)) as [<-|Hne].
    - rewrite list_lookup_insert_eq by exact Hlt. rewrite Ho.
      cbn. rewrite Epar. reflexivity.
    - rewrite list_lookup_insert_ne by exact Hne. reflexivity. }
  assert (Hlook : forall x ox, <[self := o']> (clients_heap w) !! x = Some ox ->
            exists oy, clients_heap w !! x = Some oy
              /\ parent_interface oy = parent_interface ox).
  { intros x ox Hx. pose proof (Hparent x) as E. rewrite Hx in E.
    destruct (clients_heap w !! x) as [oy|]; [|discriminate].
    injection E as E. eauto. }
  split; simpl_world.
  - intros x ox p Hx Ep. destruct (Hlook x ox Hx) as (oy & Hy & E).
    apply (Hpar x oy p Hy). rewrite E. exact Ep.
  - exact Hni.
  - exact Hnl.
  - intros x Hx. apply lookup_lt_is_Some. rewrite length_insert.
    apply lookup_lt_is_Some, Hsi, Hx.
  - intros x Hx. apply lookup_lt_is_Some. rewrite length_insert.
    apply lookup_lt_is_Some, Hsl, Hx.
  - intros x ox Hx Hp. destruct (Hlook x ox Hx) as (oy & Hy & E).
    apply (Hboth x oy Hy). rewrite E. exact Hp.
  - intros srv s Hs.
    rewrite (children_ext w _ srv) by (intros x _; apply Hparent).
    exact (Hcount srv s Hs).
Qed.

Lemma consistent_update_server (w : world) (p : ref) (s s' : server) :
  servers_heap w !! p = Some s ->
  clients s' = clients s ->
  consistent w ->
  consistent (with_servers_heap (<[p := s']> (servers_heap w)) w).
Proof.
  intros Hs Ecl [Hpar Hni Hnl Hsi Hsl Hboth Hcount].
  pose proof (lookup_lt_Some _ _ _ Hs) as Hlt.
  split; simpl_world; try assumption.
  - intros x ox q Hx Eq. apply lookup_lt_is_Some. rewrite length_insert.
    apply lookup_lt_is_Some. exact (Hpar x ox q Hx Eq).
  - intros srv s1 Hs1.
    change (children (with_servers_heap (<[p := s']> (servers_heap w)) w) srv
              (interfaces w))
      with (children w srv (interfaces w)).
    destruct (decide (p = srv)) as [<-|Hne].
    + rewrite list_lookup_insert_eq in Hs1 by exact Hlt.
      injection Hs1 as <-. rewrite Ecl. exact (Hcount p s Hs).
    + rewrite list_lookup_insert_ne in Hs1 by exact Hne.
      exact (Hcount srv s1 Hs1).
Qed.

Lemma keeps_ret {A} (a : A) : keeps_consistent (ret a).
Proof. intros w w' Hc [= <-]. exact Hc. Qed.

Lemma keeps_raise {A} (e : exn) : keeps_consistent (@raise A e).
Proof. intros w w' Hc [= <-]. exact Hc. Qed.

Lemma keeps_stuck {A} : keeps_consistent (@stuck A).
Proof. intros w w' Hc [=]. Qed.

Lemma keeps_gets {A} (f : world -> A) : keeps_consistent (gets f).
Proof. intros w w' Hc [= <-]. exact Hc. Qed.

Lemma keeps_emit (e : event) : keeps_consistent (emit e).
Proof.
  intros w w' Hc [= <-]. apply (consistent_same w); try reflexivity. exact Hc.
Qed.

Lemma keeps_exit {A} : keeps_consistent (@rns_exit A).
Proof.
  intros w w' Hc [= <-]. apply (consistent_same w); try reflexivity. exact Hc.
Qed.

Lemma keeps_panic {A} : keeps_consistent (@rns_panic A).
Proof.
  intros w w' Hc [= <-]. apply (consistent_same w); try reflexivity. exact Hc.
Qed.

Lemma keeps_attr {A} (self : ref) (f : client -> A) :
  keeps_consistent (attr self f).
Proof.
  intros w w' Hc. unfold attr.
  destruct (clients_heap w !! self); intros [= <-]. exact Hc.
Qed.

Lemma keeps_s_attr {A} (p : ref) (f : server -> A) :
  keeps_consistent (s_attr p f).
Proof.
  intros w w' Hc. unfold s_attr.
  destruct (servers_heap w !! p); intros [= <-]. exact Hc.
Qed.

Lemma keeps_setattr (self : ref) (u : client -> client) :
  (forall o, parent_interface (u o) = parent_interface o) ->
  keeps_consistent (setattr self u).
Proof.
  intros Hu w w' Hc. unfold setattr.
  destruct (clients_heap w !! self) as [o|] eqn:Ho; intros [= <-].
  apply (consistent_update_client w self o); [exact Ho|apply Hu|exact Hc].
Qed.

Lemma keeps_s_setattr (p : ref) (u : server -> server) :
  (forall s, clients (u s) = clients s) ->
  keeps_consistent (s_setattr p u).
Proof.
  intros Hu w w' Hc. unfold s_setattr.
  destruct (servers_heap w !! p) as [s|] eqn:Hs; intros [= <-].
  apply (consistent_update_server w p s); [exact Hs|apply Hu|exact Hc].
Qed.

Lemma keeps_bind {A B} (m : M A) (k : A -> M B) :
  keeps_consistent m -> (forall a, keeps_consistent (k a)) ->
  keeps_consistent (bind m k).
Proof.
  intros Hm Hk w w' Hc. unfold bind.
  specialize (Hm w). destruct (m w) as [a w1|e w1|w1|]; cbn [outcome_state].
  - apply (Hk a w1). apply (Hm w1 Hc). reflexivity.
  - intros [= <-]. apply (Hm w1 Hc). reflexivity.
  - intros [= <-]. apply (Hm w1 Hc). reflexivity.
  - intros [=].
Qed.

Lemma keeps_try {A} (m : M A) (h : exn -> M A) :
  keeps_consistent m -> (forall e, keeps_consistent (h e)) ->
  keeps_consistent (try_except m h).
Proof.
  intros Hm Hh w w' Hc. unfold try_except.
  specialize (Hm w). destruct (m w) as [a w1|e w1|w1|]; cbn [outcome_state].
  - intros [= <-]. apply (Hm w1 Hc). reflexivity.
  - apply (Hh e w1). apply (Hm w1 Hc). reflexivity.
  - intros [= <-]. apply (Hm w1 Hc). reflexivity.
  - intros [=].
Qed.

Lemma keeps_teardown (self : ref) (nowarning : bool) :
  keeps_consistent (teardown self nowarning).
Proof.
  intros w w' Hc.
  destruct (clients_heap w !! self) as [o|] eqn:Ho.
  - rewrite (teardown_eq self nowarning w o Ho
               (fun p => parents_stored w Hc self o p Ho)).
    destruct (teardown_exits nowarning w o); intros [= <-];
      apply teardown_consistent; assumption.
  - unfold teardown. rewrite bind_emit. unfold bind at 1, setattr.
    cbn [clients_heap with_trace]. rewrite Ho. intros [=].
Qed.

Lemma keeps_spawn (srv : ref) (h : handler) : keeps_consistent (spawn srv h).
Proof.
  intros w w' Hc.
  destruct (servers_heap w !! srv) as [s|] eqn:Hs.
  - destruct (has_owner s) eqn:Hown.
    + rewrite (spawn_eq srv h w s Hs Hown). intros [= <-].
      apply spawn_consistent; assumption.
    + rewrite (spawn_no_owner srv h w s Hs Hown). intros [= <-]. exact Hc.
  - unfold spawn, bind, s_attr. rewrite Hs. intros [=].
Qed.

(** Proves [keeps_consistent] for code made of the steps above and of
    methods already known to keep consistency. *)
Ltac keeps_step :=
  match goal with
  | H : context [keeps_consistent] |- keeps_consistent _ => apply H
  | |- keeps_consistent (ret _) => apply keeps_ret
  | |- keeps_consistent (raise _) => apply keeps_raise
  | |- keeps_consistent stuck => apply keeps_stuck
  | |- keeps_consistent (gets _) => apply keeps_gets
  | |- keeps_consistent (emit _) => apply keeps_emit
  | |- keeps_consistent (log _ _ _) => apply keeps_emit
  | |- keeps_consistent rns_exit => apply keeps_exit
  | |- keeps_consistent rns_panic => apply keeps_panic
  | |- keeps_consistent (attr _ _) => apply keeps_attr
  | |- keeps_consistent (s_attr _ _) => apply keeps_s_attr
  | |- keeps_consistent (teardown _ _) => apply keeps_teardown
  | |- keeps_consistent (spawn _ _) => apply keeps_spawn
  | |- keeps_consistent (setattr _ _) =>
      apply keeps_setattr; intros ?; reflexivity
  | |- keeps_consistent (s_setattr _ _) =>
      apply keeps_s_setattr; intros ?; reflexivity
  | |- keeps_consistent (bind _ _) => apply keeps_bind; [|intros ?]
  | |- keeps_consistent (try_except _ _) => apply keeps_try; [|intros ?]
  | |- keeps_consistent (if ?b then _ else _) => destruct b
  | |- keeps_consistent (match ?x with Some _ => _ | None => _ end) =>
      destruct x
  | |- keeps_consistent (match ?x with Received _ => _ | RecvRaises => _ end) =>
      destruct x
  end.

Ltac keeps := repeat keeps_step.

Lemma keeps_process_incoming (self : ref) (data : bytes) :
  keeps_consistent (process_incoming self data).
Proof. unfold process_incoming, owner_inbound. keeps. Qed.

Lemma keeps_connect (self sock : nat) (ok : bool) :
  keeps_consistent (connect self sock ok).
Proof. unfold connect. keeps. Qed.

Lemma keeps_reconnect_loop (self : ref) (failed : list nat) (sock : nat) :
  keeps_consistent (reconnect_loop self failed sock).
Proof.
  pose proof keeps_connect.
  induction failed as [|f failed IH]; cbn [reconnect_loop];
    unfold reconnect_attempt; keeps.
Qed.

Lemma keeps_reconnect (self : ref) (rs : reconnect_script) :
  keeps_consistent (reconnect self rs).
Proof.
  pose proof keeps_reconnect_loop. unfold reconnect. keeps.
Qed.

Lemma keeps_process_outgoing (self : ref) (data : bytes) (sent : bool) :
  keeps_consistent (process_outgoing self data sent).
Proof.
  unfold process_outgoing, simulate_latency, socket_sendall. cbv zeta. keeps.
Qed.

Lemma keeps_flags_loop (fuel : nat) (self : ref) (buf : bytes) :
  keeps_consistent (flags_loop fuel self buf).
Proof.
  revert buf. induction fuel as [|fuel IH]; intros buf;
    cbn [flags_loop]; [apply keeps_stuck|].
  pose proof keeps_process_incoming.
  cbv zeta. keeps.
Qed.

Lemma keeps_read_loop_from (self : ref) (buf : bytes)
    (script : list recv_result) (rs : reconnect_script) :
  keeps_consistent (read_loop_from self buf script rs).
Proof.
  revert buf. induction script as [|r script IH]; intros buf;
    cbn [read_loop_from]; [apply keeps_ret|].
  pose proof keeps_flags_loop. pose proof keeps_reconnect.
  unfold socket_recv. cbv zeta. keeps.
Qed.

Lemma keeps_read_loop (self : ref) (script : list recv_result)
    (rs : reconnect_script) :
  keeps_consistent (read_loop self script rs).
Proof.
  unfold read_loop. pose proof keeps_read_loop_from. keeps.
Qed.

Lemma keeps_detach (self : ref) (shutdown_ok close_ok : bool) :
  keeps_consistent (detach self shutdown_ok close_ok).
Proof. unfold detach. keeps. Qed.

Lemma keeps_incoming_connection (srv : ref) (h : handler)
    (script : list recv_result) (rs : reconnect_script) :
  keeps_consistent (incoming_connection srv h script rs).
Proof.
  unfold incoming_connection. pose proof keeps_read_loop. keeps.
Qed.

Lemma reachable_consistent (w : world) : reachable w -> consistent w.
Proof.
  induction 1 as [w Hi|w w' _ IH Hstep]; [apply initial_consistent; exact Hi|].
  destruct Hstep as [srv h w w' E|srv h script rs w w' E|c nowarning w w' E
                    |c script rs w w' E|c data sent w w' E|c a b w w' E].
  - exact (keeps_spawn srv h w w' IH E).
  - exact (keeps_incoming_connection srv h script rs w w' IH E).
  - exact (keeps_teardown c nowarning w w' IH E).
  - exact (keeps_read_loop c script rs w w' IH E).
  - exact (keeps_process_outgoing c data sent w w' IH E).
  - exact (keeps_detach c a b w w' IH E).
Qed.

(** C8: in every state reached from a process that has accepted nothing,
    by operations of the module run one after the other (accepting a
    connection, tearing an interface down, and also running a read loop,
    sending, detaching), the client counter of each server is the number of
    its spawned interfaces in the global interface registry, which are also
    those in the local-clients registry.  An accept adds one to the counter
    and the new interface to both registries (on a server built without a
    bind port, which has no [owner], it raises and changes nothing); the
    teardown of a registered child takes one off and the child out of
    both. *)
Theorem clients_counter_invariant (w : world) (srv : ref) (s : server) :
  reachable w ->
  servers_heap w !! srv = Some s ->
  clients s = Z.of_nat (length (children w srv (interfaces w)))
  /\ (forall c, c ∈ children w srv (interfaces w)
              <-> c ∈ children w srv (local_client_interfaces w))
  /\ (forall h,
        has_owner s = true ->
        exists w',
          spawn srv h w = Ret (length (clients_heap w)) w'
          /\ interfaces w' = interfaces w ++ [length (clients_heap w)]
          /\ local_client_interfaces w'
             = local_client_interfaces w ++ [length (clients_heap w)]
          /\ clients <$> servers_heap w' !! srv = Some (clients s + 1)
          /\ reachable w')
  /\ (forall h, has_owner s = false -> spawn srv h w = Exn AttributeError w)
  /\ (forall c nowarning w',
        c ∈ children w srv (interfaces w) ->
        teardown c nowarning w = Ret tt w' ->
        (c ∉ interfaces w') /\ (c ∉ local_client_interfaces w')
        /\ clients <$> servers_heap w' !! srv = Some (clients s - 1)
        /\ reachable w').
Proof.
  intros Hr Hs. pose proof (reachable_consistent w Hr) as Hc.
  destruct Hc as [Hpar Hni Hnl Hsi Hsl Hboth Hcount].
  pose proof (lookup_lt_Some _ _ _ Hs) as Hslt.
  split; [exact (Hcount srv s Hs)|]. split; [|split; [|split]].
  - intros c. unfold children. rewrite !list_elem_of_filter.
    split; intros [Hp Hin]; (split; [exact Hp|]);
      destruct (clients_heap w !! c) as [o|] eqn:Ho; try discriminate;
      cbn in Hp; injection Hp as Hp;
      apply (Hboth c o Ho); try exact Hin; rewrite Hp; eauto.
  - intros h Hown. exists (spawn_world srv s h w).
    split; [apply spawn_eq; assumption|].
    split; [reflexivity|]. split; [reflexivity|]. split.
    + cbn [spawn_world servers_heap].
      rewrite list_lookup_insert_eq by exact Hslt. reflexivity.
    + apply (reachable_step w); [exact Hr|].
      apply (step_accept srv h).
      rewrite (spawn_eq srv h w s Hs Hown). reflexivity.
  - intros h Hown. apply (spawn_no_owner srv h w s Hs Hown).
  - intros c nowarning w' Hchild E.
    unfold children in Hchild. apply list_elem_of_filter in Hchild as [Hp Hin].
    destruct (clients_heap w !! c) as [o|] eqn:Ho; [|discriminate].
    cbn in Hp. injection Hp as Hp.
    destruct (teardown_Ret c nowarning w w') as (o1 & Ho1 & ->);
      [intros o2 p; apply Hpar|exact E|].
    rewrite Ho in Ho1. injection Ho1 as <-.
    assert (Hlci : c ∈ local_client_interfaces w)
      by (apply (Hboth c o Ho); [rewrite Hp; eauto|exact Hin]).
    split; [apply remove_if_in_gone, at_most_once_NoDup; exact Hni|].
    split; [apply remove_if_in_gone, at_most_once_NoDup; exact Hnl|].
    split.
    + cbn [teardown_world servers_heap]. unfold teardown_servers.
      apply py_in_true in Hlci. rewrite Hlci, Hp, Hs.
      rewrite list_lookup_insert_eq by exact Hslt. reflexivity.
    + apply (reachable_step w); [exact Hr|].
      apply (step_teardown c nowarning). rewrite E. reflexivity.
Qed.

(** ** String representations *)

(** C9, as amended: a client connection renders as ["LocalInterface["], its
    target port, ["]"]; a server with a bind port renders as
    ["Shared Instance["] (two words), its bind port, ["]"]. *)
Theorem str_representations (o : client) (s : server) (p : pyval) :
  bind_port s = Some p ->
  client_str o = "LocalInterface[" +:+ py_str (target_port o) +:+ "]"
  /\ server_str s = Some ("Shared Instance[" +:+ py_str p +:+ "]").
Proof.
  intros Hp. split; [reflexivity|].
  unfold server_str. rewrite Hp. reflexivity.
Qed.

(** ** More on [HDLC.escape] *)

Lemma escape_cons (b : Z) (p : bytes) :
  escape (b :: p)
  = (if b =? ESC then [ESC; Z.lxor ESC ESC_MASK]
     else if b =? FLAG then [ESC; Z.lxor FLAG ESC_MASK] else [b])
    ++ escape p.
Proof.
  rewrite !escape_flat_map. cbn [flat_map]. rewrite flat_map_app. f_equal.
  unfold esc_byte.
  destruct (Z.eqb_spec b ESC) as [->|Hesc]; [reflexivity|].
  cbn [flat_map]. rewrite app_nil_r. reflexivity.
Qed.

Lemma len_escape (p : bytes) :
  len (escape p)
  = len p + Z.of_nat (length (filter (fun b => b = FLAG \/ b = ESC) p)).
Proof.
  unfold len. induction p as [|b p IH]; [reflexivity|].
  rewrite escape_cons, length_app, filter_cons.
  destruct (Z.eqb_spec b ESC) as [->|Hesc].
  - rewrite decide_True by (right; reflexivity). cbn [length]. lia.
  - destruct (Z.eqb_spec b FLAG) as [->|Hflag].
    + rewrite decide_True by (left; reflexivity). cbn [length]. lia.
    + rewrite decide_False by (intros [?|?]; contradiction).
      cbn [length]. lia.
Qed.

(** X1: escaping works byte by byte: the escape of a concatenation is the
    concatenation of the escapes, so a payload can be escaped in pieces. *)
Theorem escape_app (a b : bytes) : escape (a ++ b) = escape a ++ escape b.
Proof. rewrite !escape_flat_map, !flat_map_app. reflexivity. Qed.

(** X2: escaping adds one byte for every flag or escape byte of the payload
    and nothing else; the escaped payload is at most twice as long, and the
    frame on the wire is two bytes longer than that. *)
Theorem escape_length (p : bytes) :
  len (escape p)
  = len p + Z.of_nat (length (filter (fun b => b = FLAG \/ b = ESC) p))
  /\ len p <= len (escape p) <= 2 * len p
  /\ len p + 2 <= len (encode p) <= 2 * len p + 2.
Proof.
  pose proof (len_escape p) as H.
  pose proof (length_filter (fun b => b = FLAG \/ b = ESC) p) as Hle.
  split; [exact H|].
  assert (Hb : len p <= len (escape p) <= 2 * len p)
    by (rewrite H; unfold len; lia).
  split; [exact Hb|].
  unfold encode, len in *. rewrite !length_app. cbn [length]. lia.
Qed.

(** X3: [HDLC.escape] returns its argument unchanged exactly when the
    payload holds neither the flag byte nor the escape byte. *)
Theorem escape_identity (p : bytes) :
  escape p = p <-> (FLAG ∉ p) /\ (ESC ∉ p).
Proof.
  split.
  - intros E. pose proof (len_escape p) as H. rewrite E in H.
    assert (Hnil : filter (fun b => b = FLAG \/ b = ESC) p = []).
    { destruct (filter _ p); [reflexivity|cbn [length] in H; unfold len in H; lia]. }
    split; intros Hin.
    + assert (Hf : FLAG ∈ filter (fun b => b = FLAG \/ b = ESC) p)
        by (apply list_elem_of_filter; split; [left; reflexivity|exact Hin]).
      rewrite Hnil in Hf. exact (not_elem_of_nil _ Hf).
    + assert (Hf : ESC ∈ filter (fun b => b = FLAG \/ b = ESC) p)
        by (apply list_elem_of_filter; split; [right; reflexivity|exact Hin]).
      rewrite Hnil in Hf. exact (not_elem_of_nil _ Hf).
  - intros [Hflag Hesc]. induction p as [|b p IH]; [reflexivity|].
    rewrite escape_cons.
    apply not_elem_of_cons in Hflag as [Hb1 Hflag].
    apply not_elem_of_cons in Hesc as [Hb2 Hesc].
    destruct (Z.eqb_spec b ESC) as [->|_]; [congruence|].
    destruct (Z.eqb_spec b FLAG) as [->|_]; [congruence|].
    cbn [app]. rewrite IH by assumption. reflexivity.
Qed.

(** ** More on the deframing loop *)

Lemma find_absent (buf : bytes) : FLAG ∉ buf -> find FLAG 0 buf = -1.
Proof.
  intros H. unfold find. cbn [Z.to_nat drop]. rewrite drop_0.
  apply index_from_absent. exact H.
Qed.

(** The first two flags of a buffer delimit its first frame, whatever
    stands before the first. *)
Lemma frames_of_delimited (pre e rest : bytes) :
  FLAG ∉ pre -> FLAG ∉ e ->
  frames_of (pre ++ FLAG :: e ++ FLAG :: rest)
  = (keep (unescape e) ++ fst (frames_of (FLAG :: rest)),
     snd (frames_of (FLAG :: rest))).
Proof.
  intros Hpre He. set (b := pre ++ FLAG :: e ++ FLAG :: rest).
  assert (Hdrop : drop (length pre + 1) b = e ++ FLAG :: rest).
  { unfold b. rewrite <- drop_drop, drop_app_length. reflexivity. }
  assert (E1 : find FLAG 0 b = len pre).
  { unfold b, find. cbn [Z.to_nat drop]. rewrite drop_0.
    rewrite index_from_skip by exact Hpre. lia. }
  assert (E2 : find FLAG (len pre + 1) b = len pre + 1 + len e).
  { unfold find, len.
    replace (Z.to_nat (Z.of_nat (length pre) + 1)) with (length pre + 1)%nat
      by lia.
    rewrite Hdrop. apply index_from_skip. exact He. }
  assert (S1 : slice (len pre + 1) (len pre + 1 + len e) b = e).
  { unfold slice, len.
    replace (Z.to_nat (Z.of_nat (length pre) + 1)) with (length pre + 1)%nat
      by lia.
    replace (Z.to_nat (Z.of_nat (length pre) + 1 + Z.of_nat (length e))
             - (length pre + 1))%nat with (length e) by lia.
    rewrite Hdrop. apply take_app_length. }
  assert (S2 : slice_from (len pre + 1 + len e) b = FLAG :: rest).
  { unfold slice_from, len.
    replace (Z.to_nat (Z.of_nat (length pre) + 1 + Z.of_nat (length e)))
      with ((length pre + 1) + length e)%nat by lia.
    rewrite <- drop_drop, Hdrop, drop_app_length. reflexivity. }
  rewrite (frames_of_frame b); rewrite E1, ?E2; [|unfold len; lia..].
  rewrite S1, S2. reflexivity.
Qed.

Lemma frames_of_flag_encoded (fs : list bytes) :
  frames_of (FLAG :: concat (map encode fs)) = (flat_map keep fs, [FLAG]).
Proof.
  induction fs as [|f fs IH]; [exact frames_of_flag|].
  cbn [map concat flat_map]. unfold encode at 1.
  cbn [app]. rewrite <- !app_assoc. cbn [app].
  change (FLAG :: FLAG :: escape f ++ FLAG :: concat (map encode fs))
    with (FLAG :: escape [] ++ FLAG :: escape f ++ FLAG :: concat (map encode fs)).
  rewrite frames_of_encoded, frames_of_encoded, IH.
  rewrite (keep_small []) by (cbn; lia). reflexivity.
Qed.

Lemma keep_filter (fs : list bytes) :
  flat_map keep fs = filter (fun f => (HEADER_MINSIZE < length f)%nat) fs.
Proof.
  induction fs as [|f fs IH]; [reflexivity|].
  cbn [flat_map]. rewrite filter_cons, IH.
  destruct (decide (HEADER_MINSIZE < length f)%nat) as [H|H].
  - rewrite keep_big by exact H. reflexivity.
  - rewrite keep_small by lia. reflexivity.
Qed.

Lemma unescape_no_esc (e : bytes) : ESC ∉ e -> unescape e = e.
Proof.
  intros H. unfold unescape, replace.
  assert (Hscan : forall b new,
            replace_scan [ESC; b] new 0 e = e).
  { intros b new. induction e as [|x e IH]; [reflexivity|].
    apply not_elem_of_cons in H as [Hx He].
    rewrite scan_miss by congruence. rewrite IH by exact He. reflexivity. }
  rewrite !Hscan. reflexivity.
Qed.

Lemma frames_big (buf : bytes) :
  Forall (fun f => (HEADER_MINSIZE < length f)%nat) (fst (frames_of buf)).
Proof.
  induction buf as [buf IH] using (induction_ltof1 _ (@length Z)).
  unfold ltof in IH.
  destruct (buffer_cases buf) as [H|[[H1 H2]|[H1 H2]]].
  - rewrite (frames_of_no_flag buf H). constructor.
  - rewrite (frames_of_open buf H1 H2). constructor.
  - rewrite (frames_of_frame buf H1 H2). cbn [fst].
    apply Forall_app. split; [|apply IH, (frame_bounds buf H1 H2)].
    unfold keep.
    match goal with |- context [Z.of_nat HEADER_MINSIZE <? ?x] =>
      destruct (Z.ltb_spec (Z.of_nat HEADER_MINSIZE) x) as [Hlt|Hge]
    end; [|constructor].
    constructor; [unfold len in Hlt; lia|constructor].
Qed.

(** X4: a stream of any number of encoded frames, preceded by any bytes
    that hold no flag and cut into non-empty reads in any way, hands to the
    owner the frames longer than the minimum header size, each once and in
    the order sent; the bytes before the first flag are never delivered. *)
Theorem deframer_frames_in_order (self : ref) (w : world)
    (rs : reconnect_script) (pre : bytes) (fs : list bytes)
    (chunks : list bytes) :
  connected w self ->
  Forall (fun c => c <> []) chunks ->
  FLAG ∉ pre ->
  fs <> [] ->
  concat chunks = pre ++ concat (map encode fs) ->
  exists w',
    read_loop self (map Received chunks) rs w = Ret (Some [FLAG]) w'
    /\ deliveries self (trace w')
       = deliveries self (trace w)
         ++ filter (fun f => (HEADER_MINSIZE < length f)%nat) fs.
Proof.
  intros Hc Hne Hpre Hfs Hcat.
  assert (E : frames_of (concat chunks) = (flat_map keep fs, [FLAG])).
  { rewrite Hcat. destruct fs as [|f fs]; [contradiction|].
    cbn [map concat flat_map]. unfold encode at 1.
    cbn [app]. rewrite <- !app_assoc. cbn [app].
    rewrite frames_of_delimited by (try exact Hpre; apply flag_not_in_escape).
    rewrite unescape_escape, frames_of_flag_encoded. reflexivity. }
  exists (received_all self (flat_map keep fs) w).
  rewrite read_loop_chunks by assumption. rewrite E. cbn [fst snd].
  split; [reflexivity|].
  rewrite received_all_deliveries by exact Hc. rewrite keep_filter.
  reflexivity.
Qed.

(** X5: the closing flag of a frame also opens the next one, so bytes that
    stand between two encoded frames are themselves cut out as a frame: after
    the two substitutions they are handed to the owner, between the two
    frames, when they are longer than the minimum header size (unchanged when
    they hold no escape byte). *)
Theorem deframer_bytes_between_frames (self : ref) (w : world)
    (rs : reconnect_script) (f1 mid f2 : bytes) (chunks : list bytes) :
  connected w self ->
  Forall (fun c => c <> []) chunks ->
  FLAG ∉ mid ->
  concat chunks = encode f1 ++ mid ++ encode f2 ->
  exists w',
    read_loop self (map Received chunks) rs w = Ret (Some [FLAG]) w'
    /\ deliveries self (trace w')
       = deliveries self (trace w)
         ++ filter (fun f => (HEADER_MINSIZE < length f)%nat)
              [f1; unescape mid; f2]
    /\ (ESC ∉ mid -> unescape mid = mid).
Proof.
  intros Hc Hne Hmid Hcat.
  assert (E : frames_of (concat chunks)
              = (flat_map keep [f1; unescape mid; f2], [FLAG])).
  { rewrite Hcat. unfold encode. cbn [app]. rewrite <- !app_assoc. cbn [app].
    rewrite frames_of_encoded.
    pose proof (frames_of_delimited [] mid (escape f2 ++ [FLAG])
                  (not_elem_of_nil _) Hmid) as Hd.
    cbn [app] in Hd. rewrite Hd.
    rewrite frames_of_encoded, frames_of_flag.
    cbn [fst snd flat_map]. rewrite !app_nil_r. reflexivity. }
  exists (received_all self (flat_map keep [f1; unescape mid; f2]) w).
  rewrite read_loop_chunks by assumption. rewrite E. cbn [fst snd].
  split; [reflexivity|].
  rewrite received_all_deliveries by exact Hc. rewrite keep_filter.
  split; [reflexivity|apply unescape_no_esc].
Qed.

(** X6: as long as no flag byte has been read, whatever the number and size
    of the reads, the loop hands nothing to the owner, changes no counter and
    keeps every byte read in its buffer. *)
Theorem deframer_without_flag (self : ref) (w : world) (rs : reconnect_script)
    (chunks : list bytes) :
  connected w self ->
  Forall (fun c => c <> []) chunks ->
  FLAG ∉ concat chunks ->
  read_loop self (map Received chunks) rs w = Ret (Some (concat chunks)) w.
Proof.
  intros Hc Hne Hflag.
  rewrite read_loop_chunks by assumption.
  rewrite frames_of_no_flag by (apply find_absent; exact Hflag).
  reflexivity.
Qed.

(** X7: what the read loop delivers and the buffer it is left with depend
    on the bytes read only, not on how [recv] cut them: two sequences of
    non-empty reads with the same concatenation end in the same state, with
    the loop waiting for more input. *)
Theorem read_loop_chunking (self : ref) (w : world) (rs : reconnect_script)
    (chunks1 chunks2 : list bytes) :
  connected w self ->
  Forall (fun c => c <> []) chunks1 ->
  Forall (fun c => c <> []) chunks2 ->
  concat chunks1 = concat chunks2 ->
  read_loop self (map Received chunks1) rs w
  = read_loop self (map Received chunks2) rs w
  /\ exists frame_buffer w',
       read_loop self (map Received chunks1) rs w = Ret (Some frame_buffer) w'
       /\ deliveries self (trace w')
          = deliveries self (trace w) ++ fst (frames_of (concat chunks1)).
Proof.
  intros Hc H1 H2 E.
  rewrite !read_loop_chunks by assumption. rewrite E.
  split; [reflexivity|].
  eexists _, _. split; [reflexivity|].
  apply received_all_deliveries. exact Hc.
Qed.

Lemma received_servers (self : ref) (data : bytes) (w : world) :
  servers_heap (received self data w)
  = match clients_heap w !! self with
    | Some o =>
        match parent_interface o with
        | Some p =>
            match servers_heap w !! p with
            | Some s =>
                <[p := set_s_rxb (s_rxb s + len data) s]> (servers_heap w)
            | None => servers_heap w
            end
        | None => servers_heap w
        end
    | None => servers_heap w
    end.
Proof.
  unfold received.
  destruct (clients_heap w !! self) as [o|]; [|reflexivity].
  simpl_world.
  destruct (parent_interface o) as [p|]; [|reflexivity].
  destruct (servers_heap w !! p); reflexivity.
Qed.

Lemma received_all_cons (self : ref) (f : bytes) (frames : list bytes)
    (w : world) :
  received_all self (f :: frames) w
  = received_all self frames (received self f w).
Proof. reflexivity. Qed.

(** What a run of [process_incoming] calls does to the byte counters. *)
Lemma received_all_rxb (self : ref) (frames : list bytes) (w : world)
    (o : client) :
  clients_heap w !! self = Some o ->
  exists o',
    clients_heap (received_all self frames w) !! self = Some o'
    /\ rxb o' = rxb o + foldr Z.add 0 (map len frames)
    /\ txb o' = txb o
    /\ parent_interface o' = parent_interface o
    /\ (forall p s, parent_interface o = Some p ->
          servers_heap w !! p = Some s ->
          s_rxb <$> servers_heap (received_all self frames w) !! p
          = Some (s_rxb s + foldr Z.add 0 (map len frames))).
Proof.
  revert w o. induction frames as [|f frames IH]; intros w o Ho.
  - exists o. cbn [map foldr received_all fold_left].
    split; [exact Ho|]. split; [lia|]. split; [reflexivity|].
    split; [reflexivity|].
    intros p s _ Hs. rewrite Hs. cbn. f_equal. lia.
  - rewrite received_all_cons.
    assert (Ho1 : clients_heap (received self f w) !! self
                  = Some (set_rxb (rxb o + len f) o)).
    { rewrite received_clients, Ho. rewrite decide_True by reflexivity.
      reflexivity. }
    destruct (IH _ _ Ho1) as (o' & Ho' & Hrx & Htx & Hpar & Hsrv).
    exists o'. split; [exact Ho'|].
    revert Hrx Htx Hpar Hsrv. simpl_client. intros Hrx Htx Hpar Hsrv.
    cbn [map foldr].
    split; [lia|]. split; [exact Htx|]. split; [exact Hpar|].
    intros p s Ep Hs.
    assert (Hs1 : servers_heap (received self f w) !! p
                  = Some (set_s_rxb (s_rxb s + len f) s)).
    { rewrite received_servers, Ho, Ep, Hs.
      apply list_lookup_insert_eq. apply (lookup_lt_Some _ _ _ Hs). }
    rewrite (Hsrv p _ Ep Hs1). simpl_server. f_equal. lia.
Qed.

(** X8: the receive counters count decoded payload: after any non-empty
    reads, [rxb] of the interface, and of its parent when it has one, has
    grown by the total length of the frames handed to the owner, all of which
    are longer than the minimum header size; flags, escape bytes and dropped
    frames are not counted, and [txb] is untouched. *)
Theorem rx_accounting (self : ref) (rs : reconnect_script)
    (chunks : list bytes) (w : world) (o : client) :
  clients_heap w !! self = Some o ->
  is_Some (socket o) ->
  (forall p, parent_interface o = Some p -> is_Some (servers_heap w !! p)) ->
  Forall (fun c => c <> []) chunks ->
  let frames := fst (frames_of (concat chunks)) in
  let total := foldr Z.add 0 (map len frames) in
  Forall (fun f => (HEADER_MINSIZE < length f)%nat) frames
  /\ exists w',
       read_loop self (map Received chunks) rs w
       = Ret (Some (snd (frames_of (concat chunks)))) w'
       /\ deliveries self (trace w') = deliveries self (trace w) ++ frames
       /\ rxb <$> clients_heap w' !! self = Some (rxb o + total)
       /\ txb <$> clients_heap w' !! self = Some (txb o)
       /\ (forall p s, parent_interface o = Some p ->
             servers_heap w !! p = Some s ->
             s_rxb <$> servers_heap w' !! p = Some (s_rxb s + total)).
Proof.
  intros Ho Hs Hp Hne frames total.
  assert (Hc : connected w self) by (exists o; auto).
  split; [apply frames_big|].
  exists (received_all self frames w).
  split; [apply read_loop_chunks; assumption|].
  split; [apply received_all_deliveries; exact Hc|].
  destruct (received_all_rxb self frames w o Ho)
    as (o' & Ho' & Hrx & Htx & _ & Hsrv).
  rewrite Ho'. cbn [fmap option_fmap option_map].
  split; [f_equal; exact Hrx|]. split; [f_equal; exact Htx|].
  exact Hsrv.
Qed.

(** ** No exception leaves the methods that run on their own *)

Lemma contained_settles {A} (self : ref) (m : M A) :
  contained self m -> settles self m.
Proof.
  intros H w Hw. specialize (H w Hw).
  destruct (m w); [exact H|destruct H|exact I|exact H].
Qed.

Lemma contained_ret {A} (self : ref) (a : A) : contained self (ret a).
Proof. intros w Hw. exact Hw. Qed.

Lemma settles_raise {A} (self : ref) (e : exn) : settles self (@raise A e).
Proof. intros w Hw. exact Hw. Qed.

Lemma contained_gets {A} (self : ref) (f : world -> A) :
  contained self (gets f).
Proof. intros w Hw. exact Hw. Qed.

Lemma contained_emit (self : ref) (e : event) : contained self (emit e).
Proof. intros w Hw. exact Hw. Qed.

Lemma contained_exit {A} (self : ref) : contained self (@rns_exit A).
Proof. intros w Hw. exact I. Qed.

Lemma contained_attr {A} (self : ref) (f : client -> A) :
  contained self (attr self f).
Proof.
  intros w Hw. pose proof Hw as (o & Ho & _). unfold attr. rewrite Ho.
  exact Hw.
Qed.

Lemma allocated_update (self : ref) (w : world) (o o' : client) :
  clients_heap w !! self = Some o ->
  parent_interface o' = parent_interface o ->
  allocated w self ->
  allocated (with_clients_heap (<[self := o']> (clients_heap w)) w) self.
Proof.
  intros Ho Hpar (o0 & Ho0 & Hp). rewrite Ho in Ho0. injection Ho0 as <-.
  exists o'. simpl_world. split.
  - apply list_lookup_insert_eq. apply (lookup_lt_Some _ _ _ Ho).
  - rewrite Hpar. exact Hp.
Qed.

Lemma contained_setattr (self : ref) (u : client -> client) :
  (forall o, parent_interface (u o) = parent_interface o) ->
  contained self (setattr self u).
Proof.
  intros Hu w Hw. pose proof Hw as (o & Ho & _). unfold setattr. rewrite Ho.
  apply (allocated_update self w o); [exact Ho|apply Hu|exact Hw].
Qed.

Lemma settles_bind {A B} (self : ref) (m : M A) (k : A -> M B) :
  settles self m -> (forall a, settles self (k a)) -> settles self (bind m k).
Proof.
  intros Hm Hk w Hw. unfold bind. specialize (Hm w Hw).
  destruct (m w) as [a w'|e w'|w'|]; [apply Hk; exact Hm|exact Hm..].
Qed.

Lemma contained_bind {A B} (self : ref) (m : M A) (k : A -> M B) :
  contained self m -> (forall a, contained self (k a)) ->
  contained self (bind m k).
Proof.
  intros Hm Hk w Hw. unfold bind. specialize (Hm w Hw).
  destruct (m w) as [a w'|e w'|w'|]; [apply Hk; exact Hm|exact Hm..].
Qed.

Lemma contained_try {A} (self : ref) (m : M A) (h : exn -> M A) :
  settles self m -> (forall e, contained self (h e)) ->
  contained self (try_except m h).
Proof.
  intros Hm Hh w Hw. unfold try_except. specialize (Hm w Hw).
  destruct (m w) as [a w'|e w'|w'|]; [exact Hm|apply Hh; exact Hm|exact Hm..].
Qed.

(** [self.parent_interface.f += ...], the last statement of a [try] body. *)
Lemma contained_parent_update {A} (self : ref) (f : server -> A)
    (u : A -> server -> server) :
  contained self
    (parent <- attr self parent_interface;;
     match parent with
     | Some p => x <- s_attr p f;; s_setattr p (u x)
     | None => ret tt
     end).
Proof.
  intros w Hw. pose proof Hw as (o & Ho & Hp).
  rewrite (bind_attr _ _ _ _ _ Ho).
  destruct (parent_interface o) as [p|] eqn:Ep; [|exact Hw].
  destruct (Hp p eq_refl) as [s Hs].
  rewrite (bind_s_attr _ _ _ _ _ Hs), (s_setattr_Some _ _ _ _ Hs).
  exists o. simpl_world. split; [exact Ho|].
  intros p' Ep'. apply (is_Some_length (servers_heap w)).
  - symmetry. apply length_insert.
  - apply Hp. rewrite <- Ep. exact Ep'.
Qed.

Lemma teardown_world_allocated (self : ref) (nowarning : bool) (w : world)
    (o : client) :
  clients_heap w !! self = Some o ->
  (forall p, parent_interface o = Some p -> is_Some (servers_heap w !! p)) ->
  allocated (teardown_world self nowarning w o) self.
Proof.
  intros Ho Hp.
  exists (set_IN false (set_OUT false (set_online false o))).
  cbn [teardown_world clients_heap servers_heap]. split.
  - apply list_lookup_insert_eq. apply (lookup_lt_Some _ _ _ Ho).
  - simpl_client. intros p Ep.
    apply (is_Some_length (servers_heap w)).
    + symmetry. apply teardown_servers_length.
    + apply Hp. exact Ep.
Qed.

Lemma contained_teardown (self : ref) (nowarning : bool) :
  contained self (teardown self nowarning).
Proof.
  intros w (o & Ho & Hp). rewrite (teardown_eq self nowarning w o Ho Hp).
  destruct (teardown_exits nowarning w o); [exact I|].
  apply teardown_world_allocated; assumption.
Qed.

Lemma received_allocated (self : ref) (data : bytes) (w : world) :
  allocated w self -> allocated (received self data w) self.
Proof.
  intros (o & Ho & Hp).
  exists (set_rxb (rxb o + len data) o). split.
  - rewrite received_clients, Ho. rewrite decide_True by reflexivity.
    reflexivity.
  - intros p Ep.
    apply (is_Some_length (servers_heap w)).
    + symmetry. apply received_servers_length.
    + apply Hp. exact Ep.
Qed.

Lemma contained_process_incoming (self : ref) (data : bytes) :
  contained self (process_incoming self data).
Proof.
  intros w Hw. rewrite process_incoming_received by exact Hw.
  apply received_allocated. exact Hw.
Qed.


Ltac contain_step :=
  match goal with
  | H : context [contained] |- contained _ _ => apply H
  | H : context [settles] |- settles _ _ => apply H
  | |- contained _ (ret _) => apply contained_ret
  | |- contained _ (gets _) => apply contained_gets
  | |- contained _ (emit _) => apply contained_emit
  | |- contained _ (log _ _ _) => apply contained_emit
  | |- contained _ rns_exit => apply contained_exit
  | |- contained _ (attr _ _) => apply contained_attr
  | |- contained _ (teardown _ _) => apply contained_teardown
  | |- contained _ (process_incoming _ _) => apply contained_process_incoming
  | |- contained _ (setattr _ _) =>
      apply contained_setattr; intros ?; reflexivity
  | |- contained _ (bind (attr _ parent_interface) _) =>
      apply contained_parent_update
  | |- contained _ (bind _ _) => apply contained_bind; [|intros ?]
  | |- contained _ (try_except _ _) => apply contained_try; [|intros ?]
  | |- settles _ (raise _) => apply settles_raise
  | |- settles _ (bind (attr _ parent_interface) _) =>
      apply contained_settles, contained_parent_update
  | |- settles _ (bind _ _) => apply settles_bind; [|intros ?]
  | |- settles _ (if ?b then _ else _) => destruct b
  | |- settles _ (match ?x with Some _ => _ | None => _ end) => destruct x
  | |- settles _ (match ?x with Received _ => _ | RecvRaises => _ end) =>
      destruct x
  | |- settles _ _ => apply contained_settles
  | |- contained _ (if ?b then _ else _) => destruct b
  | |- contained _ (match ?x with Some _ => _ | None => _ end) => destruct x
  end.

Ltac contain := repeat contain_step.






Lemma contained_process_outgoing (self : ref) (data : bytes) (sent : bool) :
  contained self (process_outgoing self data sent).
Proof.
  unfold process_outgoing, simulate_latency, socket_sendall. cbv zeta.
  contain.
Qed.

Lemma contained_detach (self : ref) (shutdown_ok close_ok : bool) :
  contained self (detach self shutdown_ok close_ok).
Proof. unfold detach. contain. Qed.

(** ** A send that fails *)

Ltac run_step :=
  first
    [ rewrite bind_ret
    | rewrite bind_emit
    | rewrite bind_log
    | rewrite bind_gets
    | rewrite bind_bind
    | erewrite bind_attr
        by (simpl_world;
            first [eassumption
                  |apply list_lookup_insert_eq; rewrite ?length_insert;
                   assumption])
    | erewrite bind_setattr
        by (simpl_world;
            first [eassumption
                  |apply list_lookup_insert_eq; rewrite ?length_insert;
                   assumption]) ];
  unfold_world; simpl_client; cbv beta.

Lemma process_outgoing_raises (self : ref) (data : bytes) (sent : bool)
    (w : world) (o : client) :
  clients_heap w !! self = Some o ->
  online o = true ->
  send_fails o data sent ->
  exists b slept raised,
    process_outgoing self data sent w
    = (log MsgTransmitException LOG_ERROR self;;
       log MsgContainedException LOG_ERROR self;;
       emit EvTraceException;;
       teardown self false)
        (with_trace (trace w ++ slept ++ raised)
           (with_clients_heap
              (<[self := set_send_lock b (set_writing true o)]>
                 (clients_heap w)) w))
    /\ (slept = [] \/ slept = [EvSleep (len data * 8) (bitrate o)])
    /\ (raised = []
        \/ (raised = [EvSendallRaised self (encode data)] /\ sent = false)).
Proof.
  intros Ho Hon Hfail.
  pose proof (lookup_lt_Some _ _ _ Ho) as Hlt.
  unfold process_outgoing. rewrite (bind_attr _ _ _ _ _ Ho), Hon.
  unfold try_except. cbv zeta. fold (encode data).
  destruct w as [ch sh ifs lci town pan tr].
  destruct o as [on inn out sk par rec nev det port shared rx tx rate wr
                   force lock].
  cbn [clients_heap online socket force_bitrate bitrate] in *. subst on.
  unfold send_fails in Hfail. cbn [socket force_bitrate bitrate] in Hfail.
  assert (Hsend : forall (b : bool) t,
            (sk = None \/ sent = false) ->
            exists raised,
              match
                (socket_sendall self (encode data) sent;;
                 setattr self (set_writing false);;
                 t <- attr self txb;;
                 setattr self (set_txb (t + len (encode data)));;
                 parent <- attr self parent_interface;;
                 match parent with
                 | Some p =>
                     pt <- s_attr p s_txb;;
                     s_setattr p (set_s_txb (pt + len (encode data)))
                 | None => ret tt
                 end)
                  (World
                     (<[self := Client true inn out sk par rec nev det port
                                  shared rx tx rate true force b]> ch)
                     sh ifs lci town pan t)
              with
              | Exn _ w' =>
                  (log MsgTransmitException LOG_ERROR self;;
                   log MsgContainedException LOG_ERROR self;;
                   emit EvTraceException;; teardown self false) w'
              | r => r
              end
              = (log MsgTransmitException LOG_ERROR self;;
                 log MsgContainedException LOG_ERROR self;;
                 emit EvTraceException;; teardown self false)
                  (World
                     (<[self := Client true inn out sk par rec nev det port
                                  shared rx tx rate true force b]> ch)
                     sh ifs lci town pan (t ++ raised))
              /\ (raised = []
                  \/ (raised = [EvSendallRaised self (encode data)]
                      /\ sent = false))).
  { intros b t Hno.
    unfold socket_sendall. repeat run_step.
    destruct sk as [sk|].
    - destruct Hno as [Hno|Hno]; [discriminate|]. rewrite Hno.
      exists [EvSendallRaised self (encode data)].
      split; [|right; split; reflexivity].
      repeat run_step. reflexivity.
    - exists []. rewrite app_nil_r. split; [reflexivity|left; reflexivity]. }
  unfold_world. simpl_client.
  destruct force.
  - unfold simulate_latency. repeat run_step.
    assert (Hrate : forall (b : bool),
              exists slept raised,
                match
                  ((if rate =? 0 then raise ZeroDivisionError
                    else match latency_raises (len data) rate with
                         | Some e => raise e
                         | None => emit (EvSleep (len data * 8) rate)
                         end);;
                   socket_sendall self (encode data) sent;;
                   setattr self (set_writing false);;
                   t <- attr self txb;;
                   setattr self (set_txb (t + len (encode data)));;
                   parent <- attr self parent_interface;;
                   match parent with
                   | Some p =>
                       pt <- s_attr p s_txb;;
                       s_setattr p (set_s_txb (pt + len (encode data)))
                   | None => ret tt
                   end)
                    (World
                       (<[self := Client true inn out sk par rec nev det port
                                    shared rx tx rate true true b]> ch)
                       sh ifs lci town pan tr)
                with
                | Exn _ w' =>
                    (log MsgTransmitException LOG_ERROR self;;
                     log MsgContainedException LOG_ERROR self;;
                     emit EvTraceException;; teardown self false) w'
                | r => r
                end
                = (log MsgTransmitException LOG_ERROR self;;
                   log MsgContainedException LOG_ERROR self;;
                   emit EvTraceException;; teardown self false)
                    (World
                       (<[self := Client true inn out sk par rec nev det port
                                    shared rx tx rate true true b]> ch)
                       sh ifs lci town pan (tr ++ slept ++ raised))
                /\ (slept = [] \/ slept = [EvSleep (len data * 8) rate])
                /\ (raised = []
                    \/ (raised = [EvSendallRaised self (encode data)]
                        /\ sent = false))).
    { intros b.
      destruct (Z.eqb_spec rate 0) as [Hz|Hz].
      { exists [], []. rewrite app_nil_r.
        split; [reflexivity|split; left; reflexivity]. }
      destruct (latency_raises (len data) rate) as [e|] eqn:Hlat.
      { exists [], []. rewrite app_nil_r.
        split; [reflexivity|split; left; reflexivity]. }
      rewrite bind_emit. unfold_world.
      destruct (Hsend b (tr ++ [EvSleep (len data * 8) rate]))
        as (raised & E & Hr).
      { destruct Hfail as [H|[H|[_ [H|[e H]]]]];
          [left; exact H|right; exact H|contradiction|discriminate]. }
      exists [EvSleep (len data * 8) rate], raised.
      split; [|split; [right; reflexivity|exact Hr]].
      rewrite E, <- app_assoc. reflexivity. }
    destruct lock; cbn [negb]; repeat run_step.
    + destruct (Hrate true) as (slept & raised & E & H1 & H2).
      exists true, slept, raised. split; [exact E|split; assumption].
    + rewrite list_insert_insert_eq.
      destruct (Hrate true) as (slept & raised & E & H1 & H2).
      exists true, slept, raised. split; [exact E|split; assumption].
  - repeat run_step.
    destruct (Hsend lock tr) as (raised & E & Hr).
    { destruct Hfail as [H|[H|[H _]]];
        [left; exact H|right; exact H|discriminate]. }
    exists lock, [], raised. split; [exact E|split; [left; reflexivity|exact Hr]].
Qed.

Lemma teardown_events_no_send (self : ref) (nowarning : bool) (w : world)
    (o : client) :
  Forall no_send (teardown_events self nowarning w o).
Proof.
  unfold teardown_events.
  repeat (apply Forall_app; split).
  - destruct (py_in self (local_client_interfaces w)); [|constructor].
    destruct (parent_interface o); [|constructor].
    destruct (transport_owner w); repeat constructor.
  - destruct (negb nowarning); repeat constructor.
  - destruct (negb nowarning && panic_on_interface_error w);
      [repeat constructor|].
    destruct (is_connected_to_shared_instance o); [|constructor].
    destruct (negb nowarning); repeat constructor.
Qed.

Lemma teardown_events_no_socket_call (self : ref) (nowarning : bool)
    (w : world) (o : client) :
  Forall no_socket_call (teardown_events self nowarning w o).
Proof.
  unfold teardown_events.
  destruct (py_in self (local_client_interfaces w)),
    (parent_interface o), (transport_owner w), nowarning,
    (panic_on_interface_error w), (is_connected_to_shared_instance o);
    cbn [negb andb app]; repeat constructor.
Qed.

Lemma teardown_servers_txb (self : ref) (w : world) (o : client) (p : ref) :
  s_txb <$> teardown_servers self w o !! p = s_txb <$> servers_heap w !! p.
Proof.
  unfold teardown_servers.
  destruct (py_in self (local_client_interfaces w)); [|reflexivity].
  destruct (parent_interface o) as [q|]; [|reflexivity].
  destruct (servers_heap w !! q) as [s|] eqn:Hs; [|reflexivity].
  destruct (decide (q = p)) as [<-|Hne].
  - rewrite list_lookup_insert_eq by (apply (lookup_lt_Some _ _ _ Hs)).
    rewrite Hs. reflexivity.
  - rewrite list_lookup_insert_ne by exact Hne. reflexivity.
Qed.

(** X9: [process_outgoing] lets no exception out, whatever the socket and
    the bitrate do: on a stored interface it returns or, where [teardown]
    ends the process, never returns; and on an interface that is not online
    it returns at once and changes nothing. *)
Theorem process_outgoing_never_raises (self : ref) (data : bytes)
    (sent : bool) (w : world) (o : client) :
  clients_heap w !! self = Some o ->
  (forall p, parent_interface o = Some p -> is_Some (servers_heap w !! p)) ->
  (exists w',
     process_outgoing self data sent w = Ret tt w'
     \/ process_outgoing self data sent w = Exited w')
  /\ (online o = false -> process_outgoing self data sent w = Ret tt w).
Proof.
  intros Ho Hp. split.
  - assert (Hw : allocated w self) by (exists o; split; assumption).
    pose proof (contained_process_outgoing self data sent w Hw) as H.
    destruct (process_outgoing self data sent w) as [[] w'|e w'|w'|];
      [exists w'; left; reflexivity|contradiction
      |exists w'; right; reflexivity|contradiction].
  - intros Hoff. unfold process_outgoing.
    rewrite (bind_attr _ _ _ _ _ Ho), Hoff. reflexivity.
Qed.

(** X10: when the [try] body of [process_outgoing] fails on an online
    interface (no socket, [sendall] raising, or a latency simulation that
    divides by zero or raises), the interface is torn down with the warning:
    the process ends exactly under [panic_on_interface_error] or on the
    initiating connection.  No [sendall] has returned; the only one that can
    have sent anything is the call that raised, on this frame.  No transmit
    counter of any interface or server has moved; the interface is offline
    with [writing] still set; and every later [process_outgoing] on it does
    nothing. *)
Theorem send_failure_tears_down (self : ref) (data : bytes) (sent : bool)
    (w : world) (o : client) :
  clients_heap w !! self = Some o ->
  online o = true ->
  send_fails o data sent ->
  (forall p, parent_interface o = Some p -> is_Some (servers_heap w !! p)) ->
  exists w' o' tl,
    process_outgoing self data sent w
    = (if panic_on_interface_error w || is_connected_to_shared_instance o
       then Exited w' else Ret tt w')
    /\ trace w' = trace w ++ tl
    /\ EvTeardown self false ∈ tl
    /\ Forall no_send tl
    /\ (forall c d, EvSendallRaised c d ∈ tl ->
          c = self /\ d = encode data /\ sent = false)
    /\ clients_heap w' !! self = Some o'
    /\ online o' = false /\ writing o' = true
    /\ (forall c, txb <$> clients_heap w' !! c = txb <$> clients_heap w !! c)
    /\ (forall p, s_txb <$> servers_heap w' !! p = s_txb <$> servers_heap w !! p)
    /\ (forall data' sent', process_outgoing self data' sent' w' = Ret tt w').
Proof.
  intros Ho Hon Hfail Hp.
  pose proof (lookup_lt_Some _ _ _ Ho) as Hlt.
  destruct (process_outgoing_raises self data sent w o Ho Hon Hfail)
    as (b & slept & raised & E & Hsl & Hra).
  set (o1 := set_send_lock b (set_writing true o)) in E.
  set (w1 := with_trace
               (((trace w ++ slept ++ raised)
                 ++ [EvLog MsgTransmitException LOG_ERROR self])
                ++ [EvLog MsgContainedException LOG_ERROR self])
               (with_clients_heap (<[self := o1]> (clients_heap w)) w)).
  set (w4 := with_trace (trace w1 ++ [EvTraceException]) w1).
  assert (Ho4 : clients_heap w4 !! self = Some o1)
    by (apply list_lookup_insert_eq; exact Hlt).
  assert (Hp4 : forall p, parent_interface o1 = Some p ->
                          is_Some (servers_heap w4 !! p)) by exact Hp.
  rewrite bind_log, bind_log, bind_emit in E.
  change (process_outgoing self data sent w = teardown self false w4) in E.
  rewrite (teardown_eq self false w4 o1 Ho4 Hp4) in E.
  set (w' := teardown_world self false w4 o1) in E.
  assert (Ho' : clients_heap w' !! self
                = Some (set_IN false (set_OUT false (set_online false o1)))).
  { cbn [w' teardown_world clients_heap].
    apply list_lookup_insert_eq. apply (lookup_lt_Some _ _ _ Ho4). }
  exists w', (set_IN false (set_OUT false (set_online false o1))),
    (slept ++ raised
     ++ [EvLog MsgTransmitException LOG_ERROR self;
         EvLog MsgContainedException LOG_ERROR self;
         EvTraceException]
     ++ EvTeardown self false :: teardown_events self false w4 o1).
  split; [exact E|].
  split.
  { cbn [w' teardown_world trace]. unfold w4, w1. simpl_world.
    rewrite <- !app_assoc. reflexivity. }
  split.
  { rewrite !elem_of_app. right. right. right.
    apply elem_of_cons. left. reflexivity. }
  split.
  { repeat (apply Forall_app; split).
    - destruct Hsl as [->| ->]; repeat constructor.
    - destruct Hra as [->|[-> _]]; repeat constructor.
    - repeat constructor.
    - constructor; [exact I|apply teardown_events_no_send]. }
  split.
  { intros c d. rewrite !elem_of_app. intros [H|[H|[H|H]]].
    - destruct Hsl as [->| ->].
      + exfalso. exact (not_elem_of_nil _ H).
      + apply list_elem_of_singleton in H. discriminate.
    - destruct Hra as [->|[-> Hsent]].
      + exfalso. exact (not_elem_of_nil _ H).
      + apply list_elem_of_singleton in H. injection H as -> ->.
        repeat split. exact Hsent.
    - exfalso.
      repeat (apply elem_of_cons in H as [H|H]; [discriminate|]).
      exact (not_elem_of_nil _ H).
    - exfalso. apply elem_of_cons in H as [H|H]; [discriminate|].
      pose proof (teardown_events_no_socket_call self false w4 o1) as Hq.
      rewrite Forall_forall in Hq. exact (Hq _ H). }
  split; [exact Ho'|].
  split; [reflexivity|]. split; [reflexivity|].
  split.
  { intros c. cbn [w' teardown_world clients_heap]. unfold w4, w1. simpl_world.
    rewrite list_insert_insert_eq.
    destruct (decide (self = c)) as [<-|Hne].
    - rewrite list_lookup_insert_eq by exact Hlt. rewrite Ho. reflexivity.
    - rewrite list_lookup_insert_ne by exact Hne. reflexivity. }
  split.
  { intros p. cbn [w' teardown_world servers_heap].
    rewrite teardown_servers_txb. reflexivity. }
  intros data' sent'. unfold process_outgoing.
  rewrite (bind_attr _ _ _ _ _ Ho'). reflexivity.
Qed.


(** ** An error in the read loop *)

Lemma read_loop_from_app (self : ref) (rs : reconnect_script)
    (chunks : list bytes) (script : list recv_result) (buf : bytes)
    (w : world) :
  connected w self ->
  Forall (fun c => c <> []) chunks ->
  frames_of buf = ([], buf) ->
  read_loop_from self buf (map Received chunks ++ script) rs w
  = read_loop_from self (snd (frames_of (buf ++ concat chunks))) script rs
      (received_all self (fst (frames_of (buf ++ concat chunks))) w).
Proof.
  revert buf w.
  induction chunks as [|c chunks IH]; intros buf w Hc Hne Hbuf.
  - cbn [map concat app]. rewrite app_nil_r, Hbuf. reflexivity.
  - apply Forall_cons in Hne as [Hc0 Hne].
    cbn [map concat app read_loop_from].
    assert (Hrecv : socket_recv self (Received c) w = Ret c w).
    { destruct Hc as (o & Ho & [s Hs] & _). unfold socket_recv.
      rewrite (bind_attr _ _ _ _ _ Ho), Hs. reflexivity. }
    rewrite (bind_Ret _ _ _ _ _ Hrecv).
    assert (Hpos : (0 <? len c) = true).
    { apply Z.ltb_lt. unfold len. destruct c; [contradiction|cbn; lia]. }
    rewrite Hpos.
    rewrite (bind_Ret _ _ _ _ _ (deframe_frames self (buf ++ c) w Hc)).
    rewrite IH;
      [|apply received_all_connected; exact Hc|exact Hne
       |apply frames_of_drained].
    rewrite app_assoc, (frames_of_app (buf ++ c) (concat chunks)).
    cbn [fst snd]. rewrite received_all_app. reflexivity.
Qed.

Lemma received_globals (self : ref) (data : bytes) (w : world) :
  interfaces (received self data w) = interfaces w
  /\ local_client_interfaces (received self data w) = local_client_interfaces w
  /\ transport_owner (received self data w) = transport_owner w
  /\ panic_on_interface_error (received self data w)
     = panic_on_interface_error w
  /\ exists tl, trace (received self data w) = trace w ++ tl
                /\ Forall no_reconnect tl.
Proof.
  assert (Hev : forall raised : bool,
            Forall no_reconnect
              (EvInbound data self ::
                 (if raised
                  then [EvLog MsgInboundError LOG_ERROR self; EvTraceException]
                  else []))).
  { intros raised. constructor; [exact I|].
    destruct raised; repeat constructor. }
  unfold received.
  destruct (clients_heap w !! self) as [o|];
    [destruct (parent_interface o) as [p|];
     [destruct (servers_heap w !! p)|]|];
    cbv zeta; repeat (split; [reflexivity|]);
    try (eexists; split; [reflexivity|apply Hev]).
  exists []. rewrite app_nil_r. split; [reflexivity|constructor].
Qed.

Lemma received_all_globals (self : ref) (frames : list bytes) (w : world) :
  interfaces (received_all self frames w) = interfaces w
  /\ local_client_interfaces (received_all self frames w)
     = local_client_interfaces w
  /\ transport_owner (received_all self frames w) = transport_owner w
  /\ panic_on_interface_error (received_all self frames w)
     = panic_on_interface_error w
  /\ exists tl, trace (received_all self frames w) = trace w ++ tl
                /\ Forall no_reconnect tl.
Proof.
  revert w. induction frames as [|f frames IH]; intros w.
  - repeat (split; [reflexivity|]).
    exists []. rewrite app_nil_r. split; [reflexivity|constructor].
  - rewrite received_all_cons.
    destruct (IH (received self f w)) as (I1 & I2 & I3 & I4 & tl2 & I5 & I6).
    destruct (received_globals self f w) as (R1 & R2 & R3 & R4 & tl1 & R5 & R6).
    rewrite I1, I2, I3, I4, I5, R1, R2, R3, R4, R5.
    repeat (split; [reflexivity|]).
    exists (tl1 ++ tl2). rewrite app_assoc. split; [reflexivity|].
    apply Forall_app. split; assumption.
Qed.

Lemma deliveries_teardown_events (self c : ref) (nowarning : bool) (w : world)
    (o : client) :
  deliveries self (teardown_events c nowarning w o) = [].
Proof.
  unfold teardown_events.
  destruct (py_in c (local_client_interfaces w)),
    (parent_interface o), (transport_owner w), nowarning,
    (panic_on_interface_error w), (is_connected_to_shared_instance o);
    reflexivity.
Qed.

(** The [except] branch of [read_loop]. *)
Lemma read_loop_handler (self : ref) (w : world) (o : client) :
  clients_heap w !! self = Some o ->
  (forall p, parent_interface o = Some p -> is_Some (servers_heap w !! p)) ->
  let w2 :=
    with_trace
      (trace w ++ [EvLog MsgInterfaceError LOG_ERROR self;
                   EvLog MsgTearingDown LOG_ERROR self])
      (with_clients_heap (<[self := set_online false o]> (clients_heap w)) w) in
  let w' := teardown_world self false w2 (set_online false o) in
  (setattr self (set_online false);;
   log MsgInterfaceError LOG_ERROR self;;
   log MsgTearingDown LOG_ERROR self;;
   teardown self false;;
   ret (@None bytes)) w
  = if panic_on_interface_error w || is_connected_to_shared_instance o
    then Exited w' else Ret None w'.
Proof.
  intros Ho Hp w2 w'.
  pose proof (lookup_lt_Some _ _ _ Ho) as Hlt.
  rewrite (bind_setattr _ _ _ _ _ Ho), bind_log, bind_log.
  assert (Ho2 : clients_heap w2 !! self = Some (set_online false o))
    by (apply list_lookup_insert_eq; exact Hlt).
  assert (E : teardown self false w2
              = if panic_on_interface_error w
                   || is_connected_to_shared_instance o
                then Exited w' else Ret tt w')
    by (apply (teardown_eq self false w2 _ Ho2); exact Hp).
  unfold bind at 1.
  replace (with_trace _ _) with w2.
  - rewrite E.
    destruct (panic_on_interface_error w || is_connected_to_shared_instance o);
      reflexivity.
  - unfold w2. destruct w. unfold_world. rewrite <- app_assoc. reflexivity.
Qed.

Lemma received_all_self (self : ref) (frames : list bytes) (w : world)
    (o : client) :
  clients_heap w !! self = Some o ->
  clients_heap (received_all self frames w) !! self
  = Some (set_rxb (rxb o + foldr Z.add 0 (map len frames)) o).
Proof.
  revert w o. induction frames as [|f frames IH]; intros w o Ho.
  - cbn [map foldr received_all fold_left]. rewrite Ho, Z.add_0_r.
    destruct o; reflexivity.
  - rewrite received_all_cons.
    assert (Ho1 : clients_heap (received self f w) !! self
                  = Some (set_rxb (rxb o + len f) o)).
    { rewrite received_clients, Ho. rewrite decide_True by reflexivity.
      reflexivity. }
    rewrite (IH _ _ Ho1). simpl_client. cbn [map foldr].
    unfold set_rxb. simpl_client. do 2 f_equal. lia.
Qed.

(** X12: an exception in the read loop (a [recv] that raises, or an
    interface left without a socket) is never answered by a reconnection,
    not even on the initiating connection.  After the frames of the reads
    before it have been handed on, the interface is marked offline and torn
    down with the warning, which ends the process under
    [panic_on_interface_error] and on the initiating connection; the reads
    that follow are never made. *)
Theorem read_error_tears_down (self : ref) (rs : reconnect_script)
    (chunks : list bytes) (r : recv_result) (rest : list recv_result)
    (w : world) (o : client) :
  clients_heap w !! self = Some o ->
  (forall p, parent_interface o = Some p -> is_Some (servers_heap w !! p)) ->
  Forall (fun c => c <> []) chunks ->
  (is_Some (socket o) /\ r = RecvRaises) \/ (socket o = None /\ chunks = []) ->
  exists w' tl,
    read_loop self (map Received chunks ++ r :: rest) rs w
    = (if panic_on_interface_error w || is_connected_to_shared_instance o
       then Exited w' else Ret None w')
    /\ trace w' = trace w ++ tl
    /\ Forall no_reconnect tl
    /\ EvTeardown self false ∈ tl
    /\ deliveries self (trace w')
       = deliveries self (trace w) ++ fst (frames_of (concat chunks))
    /\ online <$> clients_heap w' !! self = Some false.
Proof.
  intros Ho Hp Hne Hcase.
  set (frames := fst (frames_of (concat chunks))).
  set (w1 := received_all self frames w).
  set (o1 := set_rxb (rxb o + foldr Z.add 0 (map len frames)) o).
  assert (Ho1 : clients_heap w1 !! self = Some o1)
    by (apply received_all_self; exact Ho).
  destruct (received_all_globals self frames w)
    as (_ & _ & _ & Hpan & tl1 & Htr1 & Hq1). fold w1 in Hpan, Htr1.
  assert (Hp1 : forall p, parent_interface o1 = Some p ->
                          is_Some (servers_heap w1 !! p)).
  { destruct (received_all_rxb self frames w o Ho) as (o' & Ho' & _ & _ & E & _).
    fold w1 in Ho'. rewrite Ho1 in Ho'. injection Ho' as <-.
    intros p Ep. rewrite E in Ep.
    clear - Hp Ep. subst w1. revert w Hp.
    induction frames as [|f frames IH]; intros w Hp; [exact (Hp p Ep)|].
    rewrite received_all_cons. apply IH. intros p' Ep'.
    apply (is_Some_length (servers_heap w)).
    - symmetry. apply received_servers_length.
    - apply Hp. exact Ep'. }
  assert (Hraise : exists e,
            read_loop_from self [] (map Received chunks ++ r :: rest) rs w
            = Exn e w1).
  { destruct Hcase as [[[sk Hsk] ->]|[Hsk ->]].
    - exists SocketError.
      rewrite read_loop_from_app;
        [|exists o; split; [exact Ho|split; [eexists; exact Hsk|exact Hp]]
         |exact Hne|reflexivity].
      cbn [app read_loop_from]. fold frames. fold w1.
      unfold socket_recv.
      rewrite bind_bind, (bind_attr _ _ _ _ _ Ho1).
      unfold o1. simpl_client. rewrite Hsk. reflexivity.
    - exists AttributeError. cbn [map app read_loop_from].
      unfold socket_recv.
      rewrite bind_bind, (bind_attr _ _ _ _ _ Ho), Hsk. reflexivity. }
  destruct Hraise as [e Hraise].
  pose proof (read_loop_handler self w1 o1 Ho1 Hp1) as Hh.
  cbv zeta in Hh. rewrite Hpan in Hh.
  change (is_connected_to_shared_instance o1)
    with (is_connected_to_shared_instance o) in Hh.
  eexists _, (tl1 ++ [EvLog MsgInterfaceError LOG_ERROR self;
                      EvLog MsgTearingDown LOG_ERROR self]
              ++ EvTeardown self false :: teardown_events self false _ _).
  split.
  { unfold read_loop, try_except. rewrite Hraise. exact Hh. }
  split.
  { cbn [teardown_world trace]. simpl_world. rewrite Htr1.
    rewrite <- !app_assoc. reflexivity. }
  split.
  { apply Forall_app. split; [exact Hq1|].
    repeat (constructor; [exact I|]). apply teardown_events_no_reconnect. }
  split.
  { rewrite !elem_of_app. right. right. apply elem_of_cons. left. reflexivity. }
  split.
  { cbn [teardown_world trace]. simpl_world.
    rewrite <- app_assoc, deliveries_app. cbn [app deliveries].
    rewrite deliveries_teardown_events, app_nil_r.
    destruct Hcase as [[Hsk _]|[_ ->]].
    - apply received_all_deliveries.
      exists o. split; [exact Ho|split; [exact Hsk|exact Hp]].
    - cbn. rewrite app_nil_r. reflexivity. }
  cbn [teardown_world clients_heap]. simpl_world.
  rewrite list_lookup_insert_eq
    by (rewrite length_insert; apply (lookup_lt_Some _ _ _ Ho1)).
  reflexivity.
Qed.

(** ** [detach] *)

Lemma try_socket_call (ok : bool) (e : event) (m : message) (l : loglevel)
    (self : ref) (w : world) :
  try_except (if ok then emit e else raise SocketError)
    (fun _ => log m l self) w
  = Ret tt (with_trace (trace w ++ [if ok then e else EvLog m l self]) w).
Proof. destruct ok; reflexivity. Qed.

(** X13: [detach] on an interface that holds a socket always returns, also
    when [shutdown] or [close] raise (each failure is logged and the call
    goes on).  It sets [detached], drops the socket and touches nothing else:
    the interface keeps its flags and stays in the registries, and no
    teardown is run.  A second [detach] finds no socket and does nothing. *)
Theorem detach_closes_once (self : ref) (shutdown_ok close_ok : bool)
    (shutdown_ok' close_ok' : bool) (w : world) (o : client) :
  clients_heap w !! self = Some o ->
  is_Some (socket o) ->
  exists w',
    detach self shutdown_ok close_ok w = Ret tt w'
    /\ clients_heap w'
       = <[self := set_socket None (set_detached true o)]> (clients_heap w)
    /\ servers_heap w' = servers_heap w
    /\ interfaces w' = interfaces w
    /\ local_client_interfaces w' = local_client_interfaces w
    /\ trace w'
       = trace w
         ++ [EvLog MsgDetaching LOG_DEBUG self;
             (if shutdown_ok then EvShutdown self
              else EvLog MsgShutdownError LOG_NOTICE self);
             (if close_ok then EvClose self
              else EvLog MsgCloseError LOG_NOTICE self)]
    /\ detach self shutdown_ok' close_ok' w' = Ret tt w'.
Proof.
  intros Ho [sk Hsk].
  pose proof (lookup_lt_Some _ _ _ Ho) as Hlt.
  set (o' := set_socket None (set_detached true o)).
  set (w' := with_clients_heap (<[self := o']> (clients_heap w))
               (with_trace
                  (trace w
                   ++ [EvLog MsgDetaching LOG_DEBUG self;
                       (if shutdown_ok then EvShutdown self
                        else EvLog MsgShutdownError LOG_NOTICE self);
                       (if close_ok then EvClose self
                        else EvLog MsgCloseError LOG_NOTICE self)]) w)).
  exists w'. split.
  { unfold detach. rewrite (bind_attr _ _ _ _ _ Ho), Hsk.
    rewrite bind_log.
    erewrite bind_setattr by (simpl_world; exact Ho).
    erewrite bind_Ret by apply try_socket_call.
    erewrite bind_Ret by apply try_socket_call.
    erewrite setattr_Some
      by (simpl_world; apply list_lookup_insert_eq; exact Hlt).
    unfold w'. destruct w. unfold_world.
    rewrite list_insert_insert_eq, <- !app_assoc. reflexivity. }
  repeat (split; [reflexivity|]).
  assert (Ho' : clients_heap w' !! self = Some o')
    by (apply list_lookup_insert_eq; exact Hlt).
  unfold detach. rewrite (bind_attr _ _ _ _ _ Ho'). reflexivity.
Qed.

(** ** [reconnect], case by case *)

(** The [while not self.online] loop on an interface that is offline: one
    failed attempt per socket of [failed], then the attempt that connects. *)
Lemma reconnect_loop_eq (self : ref) (failed : list nat) (sock : nat)
    (w : world) (o : client) :
  clients_heap w !! self = Some o ->
  online o = false ->
  reconnect_loop self failed sock w
  = Ret tt
      (with_trace
         (trace w
          ++ flat_map
               (fun f => [EvSleep RECONNECT_WAIT 1; EvConnect self f;
                          EvLog MsgConnectionAttemptFailed LOG_DEBUG self])
               failed
          ++ [EvSleep RECONNECT_WAIT 1; EvConnect self sock])
         (with_clients_heap
            (<[self := set_never_connected false
                         (set_is_connected_to_shared_instance true
                            (set_online true (set_socket (Some sock) o)))]>
               (clients_heap w)) w)).
Proof.
  revert w o. induction failed as [|f failed IH]; intros w o Ho Hoff;
    pose proof (lookup_lt_Some _ _ _ Ho) as Hlt;
    destruct w as [ch sh ifs lci town pan tr];
    cbn [clients_heap] in Ho, Hlt;
    cbn [reconnect_loop]; unfold reconnect_attempt, connect.
  - erewrite bind_attr by (simpl_world; exact Ho). rewrite Hoff.
    cbn [negb]. rewrite bind_emit. unfold try_except.
    repeat run_step. unfold ret. rewrite !list_insert_insert_eq.
    rewrite <- !app_assoc. reflexivity.
  - erewrite bind_attr by (simpl_world; exact Ho). rewrite Hoff.
    cbn [negb]. rewrite bind_bind, bind_emit. unfold try_except.
    unfold bind at 1. repeat run_step. unfold raise at 1.
    unfold bind at 1. cbv beta iota. unfold log, emit, modify.
    cbv beta iota. unfold_world.
    erewrite IH;
      [|simpl_world; apply list_lookup_insert_eq; exact Hlt
       |simpl_client; exact Hoff].
    unfold_world. rewrite list_insert_insert_eq. simpl_client.
    cbn [flat_map]. rewrite <- !app_assoc. reflexivity.
Qed.

(** A reconnection that goes through. *)
Lemma reconnect_connects (self : ref) (rs : reconnect_script) (w : world)
    (o : client) :
  clients_heap w !! self = Some o ->
  is_connected_to_shared_instance o = true ->
  reconnecting o = false ->
  online o = false ->
  exists w',
    reconnect self rs w = Ret tt w'
    /\ clients_heap w'
       = <[self := set_never_connected false
                     (set_online true
                        (set_socket (Some (final_socket rs)) o))]>
           (clients_heap w)
    /\ servers_heap w' = servers_heap w
    /\ interfaces w' = interfaces w
    /\ local_client_interfaces w' = local_client_interfaces w
    /\ trace w'
       = trace w ++ [EvReconnect self]
         ++ flat_map
              (fun f => [EvSleep RECONNECT_WAIT 1; EvConnect self f;
                         EvLog MsgConnectionAttemptFailed LOG_DEBUG self])
              (failed_attempts rs)
         ++ [EvSleep RECONNECT_WAIT 1; EvConnect self (final_socket rs);
             EvLog MsgReconnected LOG_INFO self;
             EvThread (ReadLoop self); EvThread ReappearedJob].
Proof.
  intros Ho Hshared Hbusy Hoff.
  pose proof (lookup_lt_Some _ _ _ Ho) as Hlt.
  destruct w as [ch sh ifs lci town pan tr].
  cbn [clients_heap] in Ho, Hlt.
  eexists. split.
  { unfold reconnect. rewrite bind_emit. unfold_world.
    erewrite bind_attr by (simpl_world; exact Ho). rewrite Hshared.
    erewrite bind_attr by (simpl_world; exact Ho). rewrite Hbusy.
    cbn [negb].
    erewrite bind_setattr by (simpl_world; exact Ho). unfold_world.
    erewrite bind_Ret
      by (apply reconnect_loop_eq;
          [simpl_world; apply list_lookup_insert_eq; exact Hlt
          |simpl_client; exact Hoff]).
    unfold_world. rewrite list_insert_insert_eq. simpl_client.
    repeat run_step. cbn [negb]. repeat run_step.
    unfold emit, modify. unfold_world.
    rewrite !list_insert_insert_eq. reflexivity. }
  cbn [clients_heap servers_heap interfaces local_client_interfaces trace].
  split.
  { f_equal. destruct o. cbn in Hshared, Hbusy. subst. reflexivity. }
  repeat (split; [reflexivity|]).
  rewrite <- !app_assoc. reflexivity.
Qed.

(** X14: [reconnect] in each of its cases.  On an interface that did not
    initiate its connection it logs an error and raises [IOError].  While a
    reconnection is already going on it does nothing.  Otherwise, on an
    offline interface, it sleeps [RECONNECT_WAIT] seconds before every
    attempt, logs each failure and tries again, and once connected leaves the
    interface online on the new socket with [reconnecting] cleared, and
    starts one read loop and one job that reports the reappearance; the
    servers and the registries are not touched. *)
Theorem reconnect_cases (self : ref) (rs : reconnect_script) (w : world)
    (o : client) :
  clients_heap w !! self = Some o ->
  (is_connected_to_shared_instance o = false ->
   reconnect self rs w
   = Exn IOError
       (with_trace
          (trace w ++ [EvReconnect self;
                       EvLog MsgNonInitiatorReconnect LOG_ERROR self]) w))
  /\ (is_connected_to_shared_instance o = true -> reconnecting o = true ->
      reconnect self rs w
      = Ret tt (with_trace (trace w ++ [EvReconnect self]) w))
  /\ (is_connected_to_shared_instance o = true -> reconnecting o = false ->
      online o = false ->
      exists w',
        reconnect self rs w = Ret tt w'
        /\ clients_heap w'
           = <[self := set_never_connected false
                         (set_online true
                            (set_socket (Some (final_socket rs)) o))]>
               (clients_heap w)
        /\ servers_heap w' = servers_heap w
        /\ interfaces w' = interfaces w
        /\ local_client_interfaces w' = local_client_interfaces w
        /\ trace w'
           = trace w ++ [EvReconnect self]
             ++ flat_map
                  (fun f => [EvSleep RECONNECT_WAIT 1; EvConnect self f;
                             EvLog MsgConnectionAttemptFailed LOG_DEBUG self])
                  (failed_attempts rs)
             ++ [EvSleep RECONNECT_WAIT 1; EvConnect self (final_socket rs);
                 EvLog MsgReconnected LOG_INFO self;
                 EvThread (ReadLoop self); EvThread ReappearedJob]).
Proof.
  intros Ho. pose proof (lookup_lt_Some _ _ _ Ho) as Hlt.
  split; [|split].
  - intros Hshared. unfold reconnect. rewrite bind_emit.
    erewrite bind_attr by (simpl_world; exact Ho). rewrite Hshared.
    rewrite bind_log. destruct w. unfold raise. unfold_world.
    rewrite <- app_assoc. reflexivity.
  - intros Hshared Hbusy. unfold reconnect. rewrite bind_emit.
    erewrite bind_attr by (simpl_world; exact Ho). rewrite Hshared.
    erewrite bind_attr by (simpl_world; exact Ho). rewrite Hbusy.
    reflexivity.
  - apply reconnect_connects. exact Ho.
Qed.

(** ** What [teardown] changes and what it leaves *)

Lemma remove_if_in_other (x y : ref) (l : list ref) :
  y <> x -> (y ∈ remove_if_in x l <-> y ∈ l).
Proof.
  intros Hne. unfold remove_if_in.
  destruct (py_remove x l) as [l'|] eqn:E; [|reflexivity].
  destruct (py_remove_split x l l' E) as (l1 & l2 & -> & -> & _).
  rewrite !elem_of_app, elem_of_cons. tauto.
Qed.

(** X15: [teardown] on a stored interface clears [online], [IN] and [OUT]
    and changes no other attribute of it and no other interface; it makes no
    call on the socket, which stays open and in place; every other interface
    stays in the two registries; it asks the transport owner to persist its
    data exactly when the interface was a registered local client with a
    parent and the owner exists; and it ends the process exactly when it
    warns under [panic_on_interface_error], or the interface had initiated
    its connection. *)
Theorem teardown_effects (self : ref) (nowarning : bool) (w : world)
    (o : client) :
  clients_heap w !! self = Some o ->
  (forall p, parent_interface o = Some p -> is_Some (servers_heap w !! p)) ->
  exists w' tl,
    teardown self nowarning w
    = (if (negb nowarning && panic_on_interface_error w)
          || is_connected_to_shared_instance o
       then Exited w' else Ret tt w')
    /\ clients_heap w'
       = <[self := set_IN false (set_OUT false (set_online false o))]>
           (clients_heap w)
    /\ (forall c, c <> self ->
          (c ∈ interfaces w' <-> c ∈ interfaces w)
          /\ (c ∈ local_client_interfaces w'
              <-> c ∈ local_client_interfaces w))
    /\ (parent_interface o = None -> servers_heap w' = servers_heap w)
    /\ trace w' = trace w ++ EvTeardown self nowarning :: tl
    /\ Forall no_socket_call tl
    /\ (EvPersist ∈ tl
        <-> self ∈ local_client_interfaces w
            /\ is_Some (parent_interface o) /\ transport_owner w = true).
Proof.
  intros Ho Hp.
  exists (teardown_world self nowarning w o),
    (teardown_events self nowarning w o).
  split; [exact (teardown_eq self nowarning w o Ho Hp)|].
  split; [reflexivity|].
  split.
  { intros c Hne. cbn [teardown_world interfaces local_client_interfaces].
    split; apply remove_if_in_other; exact Hne. }
  split.
  { intros Hnone. cbn [teardown_world servers_heap]. unfold teardown_servers.
    rewrite Hnone. destruct (py_in self (local_client_interfaces w));
      reflexivity. }
  split; [reflexivity|].
  split; [apply teardown_events_no_socket_call|].
  unfold teardown_events. rewrite <- py_in_true.
  destruct (py_in self (local_client_interfaces w)),
    (parent_interface o) as [p|], (transport_owner w), nowarning,
    (panic_on_interface_error w), (is_connected_to_shared_instance o);
    cbn [negb andb app];
    (split;
     [intros Hin;
      repeat (apply elem_of_cons in Hin as [Hin|Hin]; [discriminate|]);
      try (exfalso; exact (not_elem_of_nil _ Hin));
      try (repeat split; eauto; fail)
     |intros (H1 & [q H2] & H3); try discriminate;
      try (apply elem_of_cons; left; reflexivity)]).
Qed.

(** ** An accepted connection, from [accept] to the peer's close *)

Lemma remove_if_in_last (x : ref) (l : list ref) :
  x ∉ l -> remove_if_in x (l ++ [x]) = l.
Proof.
  intros H. unfold remove_if_in.
  induction l as [|y l IH]; cbn [app py_remove].
  - rewrite decide_True by reflexivity. reflexivity.
  - apply not_elem_of_cons in H as [Hne Hl].
    rewrite decide_False by congruence.
    specialize (IH Hl). destruct (py_remove x (l ++ [x])) as [r|].
    + f_equal. exact IH.
    + exfalso. apply Hl. rewrite <- IH. apply elem_of_app. right.
      apply list_elem_of_singleton. reflexivity.
Qed.

Lemma received_all_clients_counter (self : ref) (frames : list bytes)
    (w : world) (p : ref) :
  clients <$> servers_heap (received_all self frames w) !! p
  = clients <$> servers_heap w !! p.
Proof.
  revert w. induction frames as [|f frames IH]; intros w; [reflexivity|].
  rewrite received_all_cons, IH, received_servers.
  destruct (clients_heap w !! self) as [o|]; [|reflexivity].
  destruct (parent_interface o) as [q|]; [|reflexivity].
  destruct (servers_heap w !! q) as [s|] eqn:Hs; [|reflexivity].
  destruct (decide (q = p)) as [<-|Hne].
  - rewrite list_lookup_insert_eq by (apply (lookup_lt_Some _ _ _ Hs)).
    rewrite Hs. reflexivity.
  - rewrite list_lookup_insert_ne by exact Hne. reflexivity.
Qed.

(** X16: a connection accepted by the server (one built with a bind port,
    which has its [owner]) and closed by its peer leaves no trace in the
    registries.  [incoming_connection] returns once the peer
    has closed; the frames read before that were handed to the owner by the
    spawned interface and counted in the server's [rxb]; the spawned
    interface is offline and out of both registries, which are as they were
    before the accept; the server's client count is back at its old value;
    and no reconnection was attempted. *)
Theorem accepted_connection_lifecycle (srv : ref) (h : handler)
    (rs : reconnect_script) (chunks : list bytes) (rest : list recv_result)
    (w : world) (s : server) :
  servers_heap w !! srv = Some s ->
  has_owner s = true ->
  (forall c, c ∈ interfaces w -> is_Some (clients_heap w !! c)) ->
  (forall c, c ∈ local_client_interfaces w -> is_Some (clients_heap w !! c)) ->
  Forall (fun c => c <> []) chunks ->
  let spawned_interface := length (clients_heap w) in
  let frames := fst (frames_of (concat chunks)) in
  exists w' tl,
    incoming_connection srv h (map Received chunks ++ Received [] :: rest) rs w
    = Ret tt w'
    /\ interfaces w' = interfaces w
    /\ local_client_interfaces w' = local_client_interfaces w
    /\ clients <$> servers_heap w' !! srv = Some (clients s)
    /\ s_rxb <$> servers_heap w' !! srv
       = Some (s_rxb s + foldr Z.add 0 (map len frames))
    /\ online <$> clients_heap w' !! spawned_interface = Some false
    /\ trace w' = trace w ++ tl
    /\ Forall no_reconnect tl
    /\ deliveries spawned_interface tl = frames.
Proof.
  intros Hs Hown Hifs Hlci Hne c frames.
  assert (Hfresh : forall l : list ref,
            (forall x, x ∈ l -> is_Some (clients_heap w !! x)) -> c ∉ l).
  { intros l Hl Hin. apply Hl, lookup_lt_is_Some in Hin. unfold c in Hin. lia. }
  set (w0 := spawn_world srv s h w).
  set (o0 := spawned_interface_of srv s h).
  set (s0 := set_clients (clients s + 1) s).
  assert (Ho0 : clients_heap w0 !! c = Some o0) by apply lookup_last.
  assert (Hs0 : servers_heap w0 !! srv = Some s0)
    by (apply list_lookup_insert_eq; apply (lookup_lt_Some _ _ _ Hs)).
  assert (Hc0 : connected w0 c).
  { exists o0. split; [exact Ho0|]. split; [eexists; reflexivity|].
    intros p [= <-]. eexists. exact Hs0. }
  set (total := foldr Z.add 0 (map len frames)).
  set (w1 := received_all c frames w0).
  set (o1 := set_rxb (rxb o0 + total) o0).
  assert (Ho1 : clients_heap w1 !! c = Some o1)
    by (apply received_all_self; exact Ho0).
  pose proof (lookup_lt_Some _ _ _ Ho1) as Hlt1.
  destruct (received_all_globals c frames w0)
    as (Hifs1 & Hlci1 & Hown1 & Hpan1 & tl1 & Htr1 & Hq1).
  fold w1 in Hifs1, Hlci1, Hown1, Hpan1, Htr1.
  destruct (received_all_rxb c frames w0 o0 Ho0) as (_ & _ & _ & _ & _ & Hrx).
  specialize (Hrx srv s0 eq_refl Hs0). fold w1 total in Hrx.
  pose proof (received_all_clients_counter c frames w0 srv) as Hcl.
  fold w1 in Hcl. rewrite Hs0 in Hcl.
  destruct (servers_heap w1 !! srv) as [s1|] eqn:Hs1; [|discriminate].
  cbn in Hrx, Hcl. injection Hrx as Hrx. injection Hcl as Hcl.
  set (w2 := with_clients_heap (<[c := set_online false o1]> (clients_heap w1))
               w1).
  assert (Ho2 : clients_heap w2 !! c = Some (set_online false o1))
    by (apply list_lookup_insert_eq; exact Hlt1).
  assert (Hp2 : forall p, parent_interface (set_online false o1) = Some p ->
                          is_Some (servers_heap w2 !! p)).
  { intros p [= <-]. eexists. exact Hs1. }
  assert (Hin2 : py_in c (local_client_interfaces w2) = true).
  { apply py_in_true. unfold w2. simpl_world. rewrite Hlci1.
    cbn [w0 spawn_world local_client_interfaces].
    apply elem_of_app. right. apply list_elem_of_singleton. reflexivity. }
  set (w' := teardown_world c true w2 (set_online false o1)).
  assert (Hrun : incoming_connection srv h
                   (map Received chunks ++ Received [] :: rest) rs w
                 = Ret tt w').
  { unfold incoming_connection.
    rewrite (bind_Ret _ _ _ _ _ (spawn_eq srv h w s Hs Hown)). fold c w0.
    unfold bind at 1. unfold read_loop, try_except.
    rewrite read_loop_from_app by (try assumption; reflexivity).
    cbn [app]. fold frames. fold w1.
    rewrite (read_loop_from_closed c _ rest rs w1 o1 Ho1)
      by (eexists; reflexivity).
    fold w2. change (is_connected_to_shared_instance o1) with false.
    cbn [andb]. unfold bind.
    rewrite (teardown_eq c true w2 _ Ho2 Hp2). reflexivity. }
  exists w',
    (tl1 ++ EvTeardown c true :: teardown_events c true w2 (set_online false o1)).
  split; [exact Hrun|].
  split.
  { cbn [w' teardown_world interfaces]. unfold w2. simpl_world. rewrite Hifs1.
    cbn [w0 spawn_world interfaces]. apply remove_if_in_last, Hfresh, Hifs. }
  split.
  { cbn [w' teardown_world local_client_interfaces]. unfold w2. simpl_world.
    rewrite Hlci1. cbn [w0 spawn_world local_client_interfaces].
    apply remove_if_in_last, Hfresh, Hlci. }
  assert (Esrv : servers_heap w'
                 = <[srv := set_clients (clients s1 - 1) s1]> (servers_heap w1)).
  { cbn [w' teardown_world servers_heap]. unfold teardown_servers.
    rewrite Hin2. change (parent_interface (set_online false o1))
      with (Some srv).
    unfold w2 at 1 2. simpl_world. rewrite Hs1. reflexivity. }
  rewrite Esrv.
  rewrite list_lookup_insert_eq by (apply (lookup_lt_Some _ _ _ Hs1)).
  cbn [fmap option_fmap option_map]. simpl_server.
  split; [f_equal; rewrite Hcl; unfold s0; simpl_server; lia|].
  split; [f_equal; rewrite Hrx; reflexivity|].
  split.
  { cbn [w' teardown_world clients_heap].
    rewrite list_lookup_insert_eq by (apply (lookup_lt_Some _ _ _ Ho2)).
    reflexivity. }
  split.
  { cbn [w' teardown_world trace]. unfold w2. simpl_world. rewrite Htr1.
    rewrite <- app_assoc. reflexivity. }
  split.
  { apply Forall_app. split; [exact Hq1|].
    constructor; [exact I|apply teardown_events_no_reconnect]. }
  rewrite deliveries_app. cbn [deliveries].
  rewrite deliveries_teardown_events, app_nil_r.
  pose proof (received_all_deliveries c frames w0 Hc0) as Hd.
  fold w1 in Hd. rewrite Htr1, deliveries_app in Hd.
  apply app_inv_head in Hd. exact Hd.
Qed.

(** ** The constructor and the role of the interface *)

Lemma closed_read_reconnects (self : ref) (script : list recv_result)
    (rs : reconnect_script) (w : world) (o : client) :
  clients_heap w !! self = Some o ->
  is_Some (socket o) ->
  is_connected_to_shared_instance o = true ->
  detached o = false ->
  exists w' tl,
    read_loop self (Received [] :: script) rs w = Ret None w'
    /\ trace w'
       = trace w
         ++ [EvLog MsgSocketClosed LOG_WARNING self; EvDisappeared;
             EvReconnect self]
         ++ tl
    /\ Forall no_teardown tl.
Proof.
  intros Ho Hsock Hs Hd.
  pose proof (lookup_lt_Some _ _ _ Ho) as Hlt.
  set (w0 := with_clients_heap (<[self := set_online false o]> (clients_heap w))
               w).
  assert (Ho0 : clients_heap w0 !! self = Some (set_online false o))
    by (apply list_lookup_insert_eq; exact Hlt).
  destruct (reconnect_returns self rs
              (with_trace
                 (trace (with_trace
                           (trace w0
                            ++ [EvLog MsgSocketClosed LOG_WARNING self]) w0)
                  ++ [EvDisappeared])
                 (with_trace
                    (trace w0 ++ [EvLog MsgSocketClosed LOG_WARNING self])
                    w0))
              (set_online false o))
    as (w' & tl & E & Ht & Hq); [exact Ho0|exact Hs|].
  exists w', tl. split; [|split; [|exact Hq]].
  - unfold read_loop, try_except.
    rewrite (read_loop_from_closed self [] script rs w o Ho Hsock), Hs, Hd.
    cbn [negb andb]. fold w0.
    rewrite bind_bind, bind_log, bind_bind, bind_emit.
    rewrite (bind_Ret _ _ _ _ _ E). reflexivity.
  - rewrite Ht. simpl_world. rewrite <- !app_assoc. reflexivity.
Qed.

Lemma closed_read_tears_down (self : ref) (script : list recv_result)
    (rs : reconnect_script) (w : world) (o : client) :
  clients_heap w !! self = Some o ->
  is_Some (socket o) ->
  (forall p, parent_interface o = Some p -> is_Some (servers_heap w !! p)) ->
  is_connected_to_shared_instance o = false ->
  exists w' tl,
    read_loop self (Received [] :: script) rs w = Ret None w'
    /\ trace w' = trace w ++ EvTeardown self true :: tl
    /\ Forall no_reconnect tl.
Proof.
  intros Ho Hsock Hp Hs.
  pose proof (lookup_lt_Some _ _ _ Ho) as Hlt.
  set (w0 := with_clients_heap (<[self := set_online false o]> (clients_heap w))
               w).
  assert (Ho0 : clients_heap w0 !! self = Some (set_online false o))
    by (apply list_lookup_insert_eq; exact Hlt).
  exists (teardown_world self true w0 (set_online false o)),
         (teardown_events self true w0 (set_online false o)).
  split; [|split; [reflexivity|apply teardown_events_no_reconnect]].
  unfold read_loop, try_except.
  rewrite (read_loop_from_closed self [] script rs w o Ho Hsock), Hs.
  cbn [andb]. fold w0. unfold bind.
  rewrite (teardown_eq self true w0 (set_online false o) Ho0)
    by (simpl_client; exact Hp).
  unfold teardown_exits. simpl_client. rewrite Hs. reflexivity.
Qed.

Ltac init_step :=
  first
    [ rewrite bind_ret
    | rewrite bind_emit
    | rewrite bind_bind
    | erewrite bind_attr by (simpl_world; apply lookup_last)
    | erewrite bind_setattr by (simpl_world; apply lookup_last) ];
  unfold_world; rewrite ?insert_last; simpl_client.

(** X17: the constructor fixes the role of the interface.  Given an
    accepted socket it makes no connection attempt and starts no thread, and
    the new interface is not an initiator: when its peer closes, it is torn
    down without warning.  Given a port to dial it connects; on success the
    interface is online, marked as the initiator and read by a new thread,
    and when its socket closes it reconnects and is not torn down; on failure
    the constructor raises and starts no thread. *)
Theorem constructor_roles (target_port : option Z) (p : Z) (s sock : nat)
    (ok : bool) (rs : reconnect_script) (rest : list recv_result) (w : world) :
  let self := length (clients_heap w) in
  (exists w1,
     __init__ target_port (Some s) sock ok w = Ret self w1
     /\ w1 = with_clients_heap (clients_heap w ++ [spawned_client s]) w
     /\ exists w2 tl,
          read_loop self (Received [] :: rest) rs w1 = Ret None w2
          /\ trace w2 = trace w ++ EvTeardown self true :: tl
          /\ Forall no_reconnect tl)
  /\ (exists w1,
        __init__ (Some p) None sock true w = Ret self w1
        /\ clients_heap w1
           = clients_heap w
             ++ [{| online := true; IN := true; OUT := false;
                    socket := Some sock; parent_interface := None;
                    reconnecting := false; never_connected := false;
                    detached := false; target_port := PyInt p;
                    is_connected_to_shared_instance := true;
                    rxb := 0; txb := 0; bitrate := 1000000000;
                    writing := false; force_bitrate := false;
                    send_lock := false |}]
        /\ trace w1 = trace w ++ [EvConnect self sock; EvThread (ReadLoop self)]
        /\ exists w2 tl,
             read_loop self (Received [] :: rest) rs w1 = Ret None w2
             /\ trace w2
                = trace w1
                  ++ [EvLog MsgSocketClosed LOG_WARNING self; EvDisappeared;
                      EvReconnect self]
                  ++ tl
             /\ Forall no_teardown tl)
  /\ (exists w1,
        __init__ (Some p) None sock false w = Exn SocketError w1
        /\ trace w1 = trace w ++ [EvConnect self sock]
        /\ interfaces w1 = interfaces w
        /\ local_client_interfaces w1 = local_client_interfaces w).
Proof.
  intros self. destruct w as [ch sh ifs lci town pan tr].
  cbn [clients_heap] in self.
  split; [|split].
  - eexists. split; [|split; [reflexivity|]].
    + unfold __init__. rewrite bind_new_client. fold self. unfold_world.
      repeat init_step. reflexivity.
    + destruct (closed_read_tears_down self rest rs
                  (World (ch ++ [spawned_client s]) sh ifs lci town pan tr)
                  (spawned_client s))
        as (w2 & tl & E & Ht & Hq);
        [apply lookup_last|eexists; reflexivity|discriminate|reflexivity|].
      exists w2, tl. split; [exact E|]. split; [exact Ht|exact Hq].
  - eexists. split.
    { unfold __init__, connect. rewrite bind_new_client. fold self.
      unfold_world. repeat init_step. unfold emit, modify. unfold_world.
      reflexivity. }
    split; [reflexivity|].
    split; [cbn [trace]; rewrite <- app_assoc; reflexivity|].
    match goal with
    | |- context [read_loop self _ rs ?w1] =>
        destruct (closed_read_reconnects self rest rs w1 _
                    (lookup_last ch _))
          as (w2 & tl & E & Ht & Hq);
          [eexists; reflexivity|reflexivity|reflexivity|];
        exists w2, tl; split; [exact E|]; split; [exact Ht|exact Hq]
    end.
  - eexists. split.
    { unfold __init__, connect. rewrite bind_new_client. fold self.
      unfold_world. repeat init_step. reflexivity. }
    repeat split.
Qed.

(** ** From one side of the socket to the other *)

Lemma wire_app (self : ref) (t1 t2 : list event) :
  wire self (t1 ++ t2) = wire self t1 ++ wire self t2.
Proof.
  induction t1 as [|e t1 IH]; [reflexivity|].
  destruct e; cbn [app wire]; try exact IH.
  destruct (decide (self0 = self)); [rewrite IH, app_assoc; reflexivity|].
  exact IH.
Qed.

Lemma wire_no_send (self : ref) (tl : list event) :
  Forall no_send tl -> wire self tl = [].
Proof.
  induction 1 as [|e tl He _ IH]; [reflexivity|].
  destruct e; cbn [wire]; try exact IH. contradiction.
Qed.

(** What a successful call puts on the socket. *)
Lemma process_outgoing_wire (self : ref) (data : bytes) (w : world)
    (o : client) :
  clients_heap w !! self = Some o ->
  online o = true ->
  is_Some (socket o) ->
  (force_bitrate o = true ->
   bitrate o <> 0 /\ latency_raises (len data) (bitrate o) = None) ->
  (forall p, parent_interface o = Some p -> is_Some (servers_heap w !! p)) ->
  exists w' tl,
    process_outgoing self data true w = Ret tt w'
    /\ trace w' = trace w ++ tl ++ [EvSendall self (encode data)]
    /\ Forall no_send tl.
Proof.
  intros Ho Hon [sk Hsk] Hrate Hp.
  pose proof (lookup_lt_Some _ _ _ Ho) as Hlt.
  unfold process_outgoing. rewrite (bind_attr _ _ _ _ _ Ho), Hon.
  cbv zeta. fold (encode data).
  destruct w as [ch sh ifs lci town pan tr].
  destruct o as [on inn out sock par rec nev det port shared rx tx rate wr
                   force lock].
  cbn [clients_heap servers_heap online socket force_bitrate bitrate
       parent_interface] in *. subst on sock.
  (* the body from [sendall] on, whatever the send lock and the trace *)
  assert (Hsend : forall (b : bool) t,
            exists w',
              (socket_sendall self (encode data) true;;
               setattr self (set_writing false);;
               t <- attr self txb;;
               setattr self (set_txb (t + len (encode data)));;
               parent <- attr self parent_interface;;
               match parent with
               | Some p =>
                   pt <- s_attr p s_txb;;
                   s_setattr p (set_s_txb (pt + len (encode data)))
               | None => ret tt
               end)
                (World
                   (<[self := Client true inn out (Some sk) par rec nev det
                                port shared rx tx rate true force b]> ch)
                   sh ifs lci town pan t)
              = Ret tt w'
              /\ trace w' = t ++ [EvSendall self (encode data)]).
  { intros b t. unfold socket_sendall. repeat run_step.
    destruct par as [p|].
    - destruct (Hp p eq_refl) as [s Hs].
      erewrite bind_s_attr by (simpl_world; exact Hs).
      erewrite s_setattr_Some by (simpl_world; exact Hs).
      eexists. split; reflexivity.
    - eexists. split; reflexivity. }
  destruct force.
  - destruct (Hrate eq_refl) as [Hnz Hneg].
    assert (Hsleep : (if rate =? 0 then raise ZeroDivisionError
                      else match latency_raises (len data) rate with
                           | Some e => raise e
                           | None => emit (EvSleep (len data * 8) rate)
                           end)
                     = emit (EvSleep (len data * 8) rate)).
    { destruct (Z.eqb_spec rate 0) as [|_]; [contradiction|].
      rewrite Hneg. reflexivity. }
    destruct (Hsend true (tr ++ [EvSleep (len data * 8) rate]))
      as (w' & E & Ht).
    exists w', [EvSleep (len data * 8) rate].
    split; [|split; [|repeat constructor]].
    + apply try_except_Ret. unfold simulate_latency. repeat run_step.
      destruct lock; cbn [negb]; repeat run_step; rewrite Hsleep;
        repeat run_step; rewrite ?list_insert_insert_eq; exact E.
    + rewrite Ht. cbn [trace]. rewrite <- app_assoc. reflexivity.
  - destruct (Hsend lock tr) as (w' & E & Ht).
    exists w', []. split; [|split; [exact Ht|constructor]].
    apply try_except_Ret. repeat run_step. exact E.
Qed.

Lemma send_all_wire (self : ref) (frames : list bytes) (w : world)
    (o : client) :
  clients_heap w !! self = Some o ->
  online o = true ->
  is_Some (socket o) ->
  (force_bitrate o = true ->
   bitrate o <> 0
   /\ Forall (fun f => latency_raises (len f) (bitrate o) = None) frames) ->
  (forall p, parent_interface o = Some p -> is_Some (servers_heap w !! p)) ->
  exists w',
    send_all self frames w = Ret tt w'
    /\ wire self (trace w')
       = wire self (trace w) ++ concat (map encode frames).
Proof.
  revert w o.
  induction frames as [|f frames IH]; intros w o Ho Hon Hsock Hrate Hp.
  - exists w. cbn [send_all map concat]. rewrite app_nil_r.
    split; reflexivity.
  - assert (Hrate1 : force_bitrate o = true ->
                     bitrate o <> 0
                     /\ latency_raises (len f) (bitrate o) = None).
    { intros Hf. destruct (Hrate Hf) as [Hnz Hneg]. split; [exact Hnz|].
      apply Forall_cons in Hneg as [E _]. exact E. }
    destruct (process_outgoing_sent self f w o Ho Hon Hsock Hrate1 Hp) as
      (w1 & o1 & Erun & Ho1 & _ & Hon1 & Hs1 & Hf1 & Hb1 & Hpar1 & Hlen1 & _).
    destruct (process_outgoing_wire self f w o Ho Hon Hsock Hrate1 Hp) as
      (w1' & tl & Erun' & Htr & Hq).
    rewrite Erun in Erun'. injection Erun' as <-.
    destruct (IH w1 o1 Ho1 Hon1) as (w' & Erest & Hwire).
    { rewrite Hs1. exact Hsock. }
    { rewrite Hf1, Hb1. intros Hf. destruct (Hrate Hf) as [Hnz Hneg].
      split; [exact Hnz|].
      apply Forall_cons in Hneg as [_ E]. exact E. }
    { rewrite Hpar1. intros p Ep.
      apply (is_Some_length (servers_heap w)); [symmetry; exact Hlen1|].
      apply Hp. exact Ep. }
    exists w'. cbn [send_all map concat].
    split; [rewrite (bind_Ret _ _ _ _ _ Erun); exact Erest|].
    rewrite Hwire, Htr, !wire_app, (wire_no_send self tl Hq).
    cbn [wire app]. rewrite decide_True by reflexivity.
    rewrite !app_nil_r, <- app_assoc. reflexivity.
Qed.

Lemma frames_of_encoded_stream (fs : list bytes) :
  fs <> [] -> frames_of (concat (map encode fs)) = (flat_map keep fs, [FLAG]).
Proof.
  destruct fs as [|f fs]; [contradiction|]. intros _.
  cbn [map concat flat_map]. unfold encode at 1.
  cbn [app]. rewrite <- !app_assoc. cbn [app].
  rewrite frames_of_encoded, frames_of_flag_encoded. reflexivity.
Qed.

(** X18: what one side sends, the other side delivers.  A run of
    successful [process_outgoing] calls puts on the sender's socket the
    encodings of its frames, in order and nothing else; and a read loop on
    the other side that receives those bytes, cut into non-empty reads in any
    way, hands to its owner the very frames sent, in order, leaving out those
    no longer than the minimum header size. *)
Theorem wire_round_trip (sender receiver : ref) (frames : list bytes)
    (chunks : list bytes) (rs : reconnect_script) (ws wr : world)
    (o : client) :
  clients_heap ws !! sender = Some o ->
  online o = true ->
  is_Some (socket o) ->
  (force_bitrate o = true ->
   bitrate o <> 0
   /\ Forall (fun f => latency_raises (len f) (bitrate o) = None) frames) ->
  (forall p, parent_interface o = Some p -> is_Some (servers_heap ws !! p)) ->
  connected wr receiver ->
  Forall (fun c => c <> []) chunks ->
  frames <> [] ->
  exists ws' wr',
    send_all sender frames ws = Ret tt ws'
    /\ wire sender (trace ws')
       = wire sender (trace ws) ++ concat (map encode frames)
    /\ (concat chunks = concat (map encode frames) ->
        read_loop receiver (map Received chunks) rs wr
        = Ret (Some [FLAG]) wr'
        /\ deliveries receiver (trace wr')
           = deliveries receiver (trace wr)
             ++ filter (fun f => (HEADER_MINSIZE < length f)%nat) frames).
Proof.
  intros Ho Hon Hsock Hrate Hp Hc Hne Hfs.
  destruct (send_all_wire sender frames ws o Ho Hon Hsock Hrate Hp)
    as (ws' & Erun & Hwire).
  exists ws', (received_all receiver (flat_map keep frames) wr).
  split; [exact Erun|]. split; [exact Hwire|].
  intros Hcat.
  rewrite read_loop_chunks by assumption.
  rewrite Hcat, frames_of_encoded_stream by exact Hfs. cbn [fst snd].
  split; [reflexivity|].
  rewrite received_all_deliveries by exact Hc. rewrite keep_filter.
  reflexivity.
Qed.

(** ** A lost connection on the initiating side *)

Lemma deliveries_failed_attempts (self c : ref) (failed : list nat) :
  deliveries self
    (flat_map
       (fun f => [EvSleep RECONNECT_WAIT 1; EvConnect c f;
                  EvLog MsgConnectionAttemptFailed LOG_DEBUG c])
       failed) = [].
Proof. induction failed as [|f failed IH]; [reflexivity|exact IH]. Qed.

(** X19: the initiating connection outlives the loss of its socket.  When
    the peer closes after some reads, the read loop hands on the frames of
    those reads, signals the disappearance, and reconnects: it returns with
    the interface online on the socket of the attempt that succeeded, its
    direction flags and its place in the registries as before, and a new read
    loop started; the frames delivered are those received before the loss. *)
Theorem lost_connection_is_reestablished (self : ref) (rs : reconnect_script)
    (chunks : list bytes) (rest : list recv_result) (w : world) (o : client) :
  clients_heap w !! self = Some o ->
  is_Some (socket o) ->
  (forall p, parent_interface o = Some p -> is_Some (servers_heap w !! p)) ->
  is_connected_to_shared_instance o = true ->
  detached o = false ->
  reconnecting o = false ->
  Forall (fun c => c <> []) chunks ->
  let frames := fst (frames_of (concat chunks)) in
  exists w' o' tl,
    read_loop self (map Received chunks ++ Received [] :: rest) rs w
    = Ret None w'
    /\ clients_heap w' !! self = Some o'
    /\ online o' = true
    /\ socket o' = Some (final_socket rs)
    /\ reconnecting o' = false
    /\ IN o' = IN o /\ OUT o' = OUT o
    /\ interfaces w' = interfaces w
    /\ local_client_interfaces w' = local_client_interfaces w
    /\ deliveries self (trace w') = deliveries self (trace w) ++ frames
    /\ trace w'
       = trace w ++ tl
         ++ [EvLog MsgSocketClosed LOG_WARNING self; EvDisappeared;
             EvReconnect self]
         ++ flat_map
              (fun f => [EvSleep RECONNECT_WAIT 1; EvConnect self f;
                         EvLog MsgConnectionAttemptFailed LOG_DEBUG self])
              (failed_attempts rs)
         ++ [EvSleep RECONNECT_WAIT 1; EvConnect self (final_socket rs);
             EvLog MsgReconnected LOG_INFO self;
             EvThread (ReadLoop self); EvThread ReappearedJob]
    /\ Forall no_reconnect tl.
Proof.
  intros Ho Hsock Hp Hshared Hdet Hbusy Hne frames.
  assert (Hc : connected w self) by (exists o; auto).
  set (total := foldr Z.add 0 (map len frames)).
  set (w1 := received_all self frames w).
  set (o1 := set_rxb (rxb o + total) o).
  assert (Ho1 : clients_heap w1 !! self = Some o1)
    by (apply received_all_self; exact Ho).
  pose proof (lookup_lt_Some _ _ _ Ho1) as Hlt1.
  destruct (received_all_globals self frames w)
    as (Hifs1 & Hlci1 & _ & _ & tl1 & Htr1 & Hq1).
  fold w1 in Hifs1, Hlci1, Htr1.
  set (w4 := with_trace
               (trace w1 ++ [EvLog MsgSocketClosed LOG_WARNING self;
                             EvDisappeared])
               (with_clients_heap
                  (<[self := set_online false o1]> (clients_heap w1)) w1)).
  assert (Ho4 : clients_heap w4 !! self = Some (set_online false o1))
    by (apply list_lookup_insert_eq; exact Hlt1).
  destruct (reconnect_connects self rs w4 _ Ho4 Hshared Hbusy eq_refl)
    as (w' & Erun & Hheap & _ & Hifs & Hlci & Htr).
  exists w',
    (set_never_connected false
       (set_online true
          (set_socket (Some (final_socket rs)) (set_online false o1)))),
    tl1.
  split.
  { unfold read_loop, try_except.
    rewrite read_loop_from_app by (try assumption; reflexivity).
    cbn [app]. fold frames. fold w1.
    rewrite (read_loop_from_closed self _ rest rs w1 o1 Ho1 Hsock).
    change (is_connected_to_shared_instance o1)
      with (is_connected_to_shared_instance o).
    change (detached o1) with (detached o).
    rewrite Hshared, Hdet. cbn [negb andb].
    rewrite bind_bind, bind_log, bind_bind, bind_emit.
    replace (with_trace _ _) with w4
      by (unfold w4; destruct w1; unfold_world; rewrite <- app_assoc;
          reflexivity).
    rewrite (bind_Ret _ _ _ _ _ Erun). reflexivity. }
  split.
  { rewrite Hheap. apply list_lookup_insert_eq.
    apply (lookup_lt_Some _ _ _ Ho4). }
  split; [reflexivity|]. split; [reflexivity|].
  split; [exact Hbusy|]. split; [reflexivity|]. split; [reflexivity|].
  split; [rewrite Hifs; exact Hifs1|].
  split; [rewrite Hlci; exact Hlci1|].
  assert (Etr : trace w4
                = trace w ++ tl1
                  ++ [EvLog MsgSocketClosed LOG_WARNING self; EvDisappeared]).
  { unfold w4. simpl_world. rewrite Htr1, <- app_assoc. reflexivity. }
  split.
  { rewrite Htr. rewrite !deliveries_app.
    rewrite deliveries_failed_attempts. cbn [deliveries]. rewrite !app_nil_r.
    unfold w4. simpl_world. rewrite deliveries_app. cbn [deliveries].
    rewrite app_nil_r. apply received_all_deliveries. exact Hc. }
  split; [|exact Hq1].
  rewrite Htr, Etr. rewrite <- !app_assoc. reflexivity.
Qed.

(** ** The registries in every reachable state *)

(** X20: whatever operations of the module have run, one after the other,
    no interface stands twice in a registry, every registered interface and
    every parent is a stored object, and an interface spawned by a server is
    in both registries or in neither.  In particular the single [remove] of
    [teardown] always takes an interface out of a registry for good. *)
Theorem reachable_registries (w : world) :
  reachable w ->
  NoDup (interfaces w)
  /\ NoDup (local_client_interfaces w)
  /\ (forall c, c ∈ interfaces w -> is_Some (clients_heap w !! c))
  /\ (forall c, c ∈ local_client_interfaces w ->
        is_Some (clients_heap w !! c))
  /\ (forall c o p, clients_heap w !! c = Some o ->
        parent_interface o = Some p -> is_Some (servers_heap w !! p))
  /\ (forall c o, clients_heap w !! c = Some o ->
        is_Some (parent_interface o) ->
        (c ∈ interfaces w <-> c ∈ local_client_interfaces w))
  /\ (forall c, at_most_once c (interfaces w)
               /\ at_most_once c (local_client_interfaces w)).
Proof.
  intros Hr. destruct (reachable_consistent w Hr) as [H1 H2 H3 H4 H5 H6 _].
  repeat (split; [assumption|]).
  intros c. split; apply at_most_once_NoDup; assumption.
Qed.

End LocalInterface.

Local Open Scope method_scope.
Import HDLC.

(** * The properties on concrete states *)

Lemma escape_roundtrip_and_flags_witness :
  encode [0x7E; 1] !! 4%nat = Some FLAG
  /\ (4%nat = 0%nat \/ 4%nat = S (length (escape [0x7E; 1]))).
Proof.
  split; [reflexivity|].
  apply (proj2 (escape_roundtrip_and_flags [0x7E; 1])). reflexivity.
Defined.

Lemma deframer_two_frames_witness :
  connected accepted_world 0
  /\ Forall (fun c : bytes => c <> [])
       [[0x7E; 1]; [2; 0x7D; 0x5E; 0x7E; 0x7E; 0x7D]; [0x5D; 5; 6; 0x7E]]
  /\ concat [[0x7E; 1]; [2; 0x7D; 0x5E; 0x7E; 0x7E; 0x7D]; [0x5D; 5; 6; 0x7E]]
     = encode [1; 2; 0x7E] ++ encode [0x7D; 5; 6]
  /\ exists w',
       read_loop 2 calm_owner 0
         (map Received
            [[0x7E; 1]; [2; 0x7D; 0x5E; 0x7E; 0x7E; 0x7D]; [0x5D; 5; 6; 0x7E]])
         no_retries accepted_world
       = Ret (Some [FLAG]) w'
       /\ deliveries 0 (trace w')
          = deliveries 0 (trace accepted_world)
            ++ [[1; 2; 0x7E]; [0x7D; 5; 6]].
Proof.
  assert (H1 : connected accepted_world 0).
  { eexists. split; [reflexivity|]. split; [eexists; reflexivity|].
    intros p [= <-]. eexists. reflexivity. }
  assert (H2 : Forall (fun c : bytes => c <> [])
                 [[0x7E; 1]; [2; 0x7D; 0x5E; 0x7E; 0x7E; 0x7D];
                  [0x5D; 5; 6; 0x7E]])
    by (repeat constructor; discriminate).
  assert (H3 : concat [[0x7E; 1]; [2; 0x7D; 0x5E; 0x7E; 0x7E; 0x7D];
                       [0x5D; 5; 6; 0x7E]]
               = encode [1; 2; 0x7E] ++ encode [0x7D; 5; 6])
    by reflexivity.
  split; [exact H1|]. split; [exact H2|]. split; [exact H3|].
  destruct (deframer_two_frames 2 calm_owner 0 accepted_world no_retries
              [1; 2; 0x7E] [0x7D; 5; 6] _ H1 H2 H3)
    as (w' & E & _ & D & _).
  exists w'. split; [exact E|]. apply D; cbn; lia.
Defined.

Lemma closing_flag_retained_witness :
  connected accepted_world 0
  /\ (FLAG ∉ [9])
  /\ slice_from (find FLAG (find FLAG 0 (encode [1; 2; 3]) + 1)
                   (encode [1; 2; 3]))
       (encode [1; 2; 3]) !! 0%nat = Some FLAG
  /\ flags_loop 2 calm_owner 8 0 [9; 0x7E; 0x7E; 1; 2; 3; 0x7E] accepted_world
     = flags_loop 2 calm_owner 6 0 [0x7E; 1; 2; 3; 0x7E] accepted_world.
Proof.
  assert (H1 : connected accepted_world 0).
  { eexists. split; [reflexivity|]. split; [eexists; reflexivity|].
    intros p [= <-]. eexists. reflexivity. }
  assert (H2 : FLAG ∉ [9])
    by (intros H; apply list_elem_of_singleton in H; discriminate).
  split; [exact H1|]. split; [exact H2|].
  destruct (closing_flag_retained 2 calm_owner 0 accepted_world
              (encode [1; 2; 3]) [9] [1; 2; 3; 0x7E] H1 H2)
    as (Ha & Hb & _).
  split.
  - apply Ha; vm_compute; discriminate.
  - apply Hb.
Defined.

Lemma partial_frame_held_witness :
  connected accepted_world 0
  /\ Forall (fun c : bytes => c <> []) [[0x7E; 1]; [2; 3]]
  /\ concat [[0x7E; 1]; [2; 3]] = FLAG :: escape [1; 2; 3]
  /\ read_loop 2 calm_owner 0 (map Received [[0x7E; 1]; [2; 3]]) no_retries
       accepted_world
     = Ret (Some (FLAG :: escape [1; 2; 3])) accepted_world
  /\ exists w',
       read_loop 2 calm_owner 0
         (map Received ([[0x7E; 1]; [2; 3]] ++ [[FLAG]])) no_retries
         accepted_world
       = Ret (Some [FLAG]) w'
       /\ deliveries 0 (trace w')
          = deliveries 0 (trace accepted_world) ++ [[1; 2; 3]].
Proof.
  assert (H1 : connected accepted_world 0).
  { eexists. split; [reflexivity|]. split; [eexists; reflexivity|].
    intros p [= <-]. eexists. reflexivity. }
  assert (H2 : Forall (fun c : bytes => c <> []) [[0x7E; 1]; [2; 3]])
    by (repeat constructor; discriminate).
  assert (H3 : concat [[0x7E; 1]; [2; 3]] = FLAG :: escape [1; 2; 3])
    by reflexivity.
  split; [exact H1|]. split; [exact H2|]. split; [exact H3|].
  destruct (partial_frame_held 2 calm_owner 0 accepted_world no_retries
              [1; 2; 3] _ H1 H2 H3) as (Ha & Hb & _).
  split; [exact Ha|].
  destruct Hb as (w' & _ & E & D); [cbn; lia|].
  exists w'. split; [exact E|exact D].
Defined.


Lemma teardown_twice_witness :
  clients_heap accepted_world !! 0%nat
  = Some (spawned_interface_of 0 example_server example_handler)
  /\ at_most_once 0 (interfaces accepted_world)
  /\ at_most_once 0 (local_client_interfaces accepted_world)
  /\ exists w1 w2,
       teardown 0 true accepted_world = Ret tt w1
       /\ interfaces w1 = [] /\ local_client_interfaces w1 = []
       /\ clients <$> servers_heap w1 !! 0%nat = Some 0
       /\ (teardown 0 false w1 = Ret tt w2 \/ teardown 0 false w1 = Exited w2)
       /\ interfaces w2 = interfaces w1
       /\ local_client_interfaces w2 = local_client_interfaces w1
       /\ servers_heap w2 = servers_heap w1.
Proof.
  assert (H1 : clients_heap accepted_world !! 0%nat
               = Some (spawned_interface_of 0 example_server example_handler))
    by reflexivity.
  assert (H2 : forall p,
             parent_interface
               (spawned_interface_of 0 example_server example_handler)
             = Some p ->
             is_Some (servers_heap accepted_world !! p))
    by (intros p [= <-]; eexists; reflexivity).
  assert (H3 : at_most_once 0 (interfaces accepted_world))
    by (intros [|i] [|j] Hi Hj; try reflexivity; discriminate).
  assert (H4 : at_most_once 0 (local_client_interfaces accepted_world))
    by (intros [|i] [|j] Hi Hj; try reflexivity; discriminate).
  split; [exact H1|]. split; [exact H3|]. split; [exact H4|].
  destruct (teardown_twice 0 true false accepted_world _ H1 H2 H3 H4)
    as (w1 & w2 & Hout & Hi & _ & Hl & _ & _ & _ & Hs & _ & Hout2 & E1 & E2 & E3).
  exists w1, w2.
  assert (Hin : (0%nat : nat) ∈ interfaces accepted_world) by (left).
  assert (Hinl : (0%nat : nat) ∈ local_client_interfaces accepted_world)
    by (left).
  specialize (Hi Hin). specialize (Hl Hinl).
  injection Hi as Hi. injection Hl as Hl.
  split.
  { destruct Hout as [E|E]; [exact E|].
    rewrite (teardown_eq 0 true accepted_world _ H1 H2) in E. discriminate. }
  split; [symmetry; exact Hi|]. split; [symmetry; exact Hl|].
  split.
  { rewrite (Hs 0%nat (set_clients 1 example_server) Hinl eq_refl eq_refl).
    reflexivity. }
  split; [exact Hout2|]. split; [exact E1|]. split; [exact E2|exact E3].
Defined.

Lemma tx_accounting_witness :
  clients_heap accepted_world !! 0%nat
  = Some (spawned_interface_of 0 example_server example_handler)
  /\ exists w',
       send_all steady_clock 0 [[1; 2]; [0x7E]] accepted_world = Ret tt w'
       /\ txb <$> clients_heap w' !! 0%nat = Some 8
       /\ s_txb <$> servers_heap w' !! 0%nat = Some 8.
Proof.
  assert (H1 : clients_heap accepted_world !! 0%nat
               = Some (spawned_interface_of 0 example_server example_handler))
    by reflexivity.
  split; [exact H1|].
  destruct (tx_accounting steady_clock 0 [[1; 2]; [0x7E]] accepted_world _ H1)
    as (_ & w' & E & Ht & Hp).
  - reflexivity.
  - eexists. reflexivity.
  - intros [=].
  - intros p [= <-]. eexists. reflexivity.
  - exists w'. split; [exact E|]. split; [exact Ht|].
    exact (Hp 0%nat (set_clients 1 example_server) eq_refl eq_refl).
Defined.

Lemma clients_counter_invariant_witness :
  reachable 2 calm_owner steady_clock accepted_world
  /\ servers_heap accepted_world !! 0%nat = Some (set_clients 1 example_server)
  /\ clients (set_clients 1 example_server)
     = Z.of_nat (length (children accepted_world 0 (interfaces accepted_world))).
Proof.
  assert (H1 : reachable 2 calm_owner steady_clock accepted_world).
  { apply (reachable_step 2 calm_owner steady_clock fresh_world).
    - apply reachable_initial.
      split; [intros c o [=]|]. split; [constructor|]. split; [constructor|].
      split; [intros c Hc; apply not_elem_of_nil in Hc; contradiction|].
      split; [intros c Hc; apply not_elem_of_nil in Hc; contradiction|].
      repeat constructor.
    - apply (step_accept 2 calm_owner steady_clock 0 example_handler).
      reflexivity. }
  split; [exact H1|]. split; [reflexivity|].
  apply (clients_counter_invariant 2 calm_owner steady_clock accepted_world 0 _ H1).
  reflexivity.
Defined.

Lemma str_representations_witness :
  bind_port example_server = Some (PyInt 37428)
  /\ client_str example_initiator = "LocalInterface[37428]"%string
  /\ server_str example_server = Some "Shared Instance[37428]"%string.
Proof.
  split; [reflexivity|].
  exact (str_representations example_initiator example_server (PyInt 37428)
           eq_refl).
Defined.

(** The spec's spelling of the server's representation, without the space,
    is not what [__str__] returns. *)
Lemma server_str_counterexample :
  ~ (client_str example_initiator
     = ("LocalInterface[" +:+ py_str (target_port example_initiator) +:+ "]")%string
     /\ server_str example_server
        = Some ("SharedInstance[" +:+ py_str (PyInt 37428) +:+ "]")%string).
Proof. intros [_ H]. vm_compute in H. discriminate. Qed.

Lemma process_incoming_counts_then_delivers_witness :
  clients_heap accepted_world !! 0%nat
  = Some (spawned_interface_of 0 example_server example_handler)
  /\ auditing_owner accepted_world [1; 2; 3] 0 = true
  /\ exists w',
       process_incoming auditing_owner 0 [1; 2; 3] accepted_world = Ret tt w'
       /\ rxb <$> clients_heap w' !! 0%nat = Some 3
       /\ s_rxb <$> servers_heap w' !! 0%nat = Some 3
       /\ trace w' = [EvInbound [1; 2; 3] 0].
Proof.
  assert (H1 : clients_heap accepted_world !! 0%nat
               = Some (spawned_interface_of 0 example_server example_handler))
    by reflexivity.
  split; [exact H1|]. split; [reflexivity|].
  destruct (process_incoming_counts_then_delivers auditing_owner 0 [1; 2; 3]
              accepted_world _ H1)
    as (w1 & w' & _ & _ & Hr & Hp & E & Ec & Es & Ht).
  - intros p [= <-]. eexists. reflexivity.
  - exists w'. split; [exact E|].
    split; [rewrite Ec; exact Hr|].
    split; [rewrite Es;
            exact (Hp 0%nat (set_clients 1 example_server) eq_refl eq_refl)|].
    rewrite Ht. unfold auditing_owner.
    destruct (clients_heap w1 !! 0%nat) as [o1|]; [|discriminate].
    injection Hr as Hr. rewrite Hr. reflexivity.
Defined.

(** * The model at work *)

Example replace_does_not_overlap : replace [1; 1] [9] [1; 1; 1; 1; 1] = [9; 9; 1].
Proof. reflexivity. Qed.

Example escape_flag_and_esc :
  escape [0x7E; 0x10; 0x7D] = [0x7D; 0x5E; 0x10; 0x7D; 0x5D].
Proof. reflexivity. Qed.

Example unescape_keeps_escaped_pair : unescape (escape [0x7D; 0x5E]) = [0x7D; 0x5E].
Proof. reflexivity. Qed.

Example find_from_second_byte : find FLAG 1 [0x7E; 5; 0x7E; 0x7E] = 2.
Proof. reflexivity. Qed.

Example find_without_flag : find FLAG 0 [1; 2; 3] = -1.
Proof. reflexivity. Qed.

(** Two frames read byte by byte with a minimum header size of 2: the
    second, of two bytes, is dropped. *)
Example read_loop_byte_by_byte :
  exists w',
    read_loop 2 calm_owner 0
      (map (fun b => Received [b]) (encode [1; 0x7E; 3] ++ encode [4; 0x7D]))
      no_retries accepted_world
    = Ret (Some [FLAG]) w'
    /\ trace w' = [EvInbound [1; 0x7E; 3] 0]
    /\ rxb <$> clients_heap w' !! 0%nat = Some 3
    /\ s_rxb <$> servers_heap w' !! 0%nat = Some 3.
Proof. eexists. split; [vm_compute; reflexivity|]. repeat split. Qed.

(** A connection accepted, one frame received, the peer gone: the interface
    is out of both registries and the client counter is back at 0. *)
Example incoming_connection_to_the_end :
  exists w',
    incoming_connection 2 calm_owner 0 example_handler
      [Received (encode [1; 2; 3]); Received []] no_retries fresh_world
    = Ret tt w'
    /\ interfaces w' = [] /\ local_client_interfaces w' = []
    /\ clients <$> servers_heap w' !! 0%nat = Some 0
    /\ trace w' = [EvInbound [1; 2; 3] 0; EvTeardown 0 true].
Proof. eexists. split; [vm_compute; reflexivity|]. repeat split. Qed.

(** A server built without a bind port cannot accept: the call raises and
    nothing is created or counted. *)
Example accept_without_owner (rate : Z) :
  let w := with_servers_heap [unbound_server rate] fresh_world in
  incoming_connection 2 calm_owner 0 example_handler
    [Received (encode [1; 2; 3]); Received []] no_retries w
  = Exn AttributeError w.
Proof. reflexivity. Qed.

(** A failed send tears the interface down, with the warning. *)
Example failed_send_tears_down :
  exists w',
    process_outgoing steady_clock 0 [1; 2; 3] false accepted_world = Ret tt w'
    /\ wire 0 (trace w') = []
    /\ EvSendallRaised 0 (encode [1; 2; 3]) ∈ trace w'
    /\ interfaces w' = []
    /\ clients <$> servers_heap w' !! 0%nat = Some 0
    /\ txb <$> clients_heap w' !! 0%nat = Some 0.
Proof.
  eexists. split; [vm_compute; reflexivity|]. split; [reflexivity|].
  split; [|repeat split].
  vm_compute. apply elem_of_cons. left. reflexivity.
Qed.

(** The read loop of a detached initiating connection ends the process. *)
Example detached_initiator_exits :
  exists w1 w',
    detach 0 true true dialed_world = Ret tt w1
    /\ read_loop 2 calm_owner 0 [RecvRaises] no_retries w1 = Exited w'
    /\ interfaces w' = [].
Proof.
  eexists _, _. split; [vm_compute; reflexivity|].
  split; [vm_compute; reflexivity|]. reflexivity.
Qed.

(** * The further properties on concrete states *)

Lemma accepted_world_connected : connected accepted_world 0.
Proof.
  eexists. split; [reflexivity|]. split; [eexists; reflexivity|].
  intros p [= <-]. eexists. reflexivity.
Qed.

Lemma accepted_world_parent (p : nat) :
  parent_interface (spawned_interface_of 0 example_server example_handler)
  = Some p ->
  is_Some (servers_heap accepted_world !! p).
Proof. intros [= <-]. eexists. reflexivity. Qed.

Lemma accepted_world_reachable :
  reachable 2 calm_owner steady_clock accepted_world.
Proof.
  apply (reachable_step 2 calm_owner steady_clock fresh_world).
  - apply reachable_initial.
    split; [intros c o [=]|]. split; [constructor|]. split; [constructor|].
    split; [intros c Hc; apply not_elem_of_nil in Hc; contradiction|].
    split; [intros c Hc; apply not_elem_of_nil in Hc; contradiction|].
    repeat constructor.
  - apply (step_accept 2 calm_owner steady_clock 0 example_handler). reflexivity.
Qed.

Lemma deframer_frames_in_order_witness :
  Forall (fun c : bytes => c <> [])
    [[9; 9; 0x7E; 1]; [2; 0x7D; 0x5E; 0x7E; 0x7E; 5]; [0x7E; 0x7E; 0x7D];
     [0x5D; 5; 6; 0x7E]]
  /\ (FLAG ∉ [9; 9])
  /\ concat [[9; 9; 0x7E; 1]; [2; 0x7D; 0x5E; 0x7E; 0x7E; 5];
             [0x7E; 0x7E; 0x7D]; [0x5D; 5; 6; 0x7E]]
     = [9; 9] ++ concat (map encode [[1; 2; 0x7E]; [5]; [0x7D; 5; 6]])
  /\ exists w',
       read_loop 2 calm_owner 0
         (map Received
            [[9; 9; 0x7E; 1]; [2; 0x7D; 0x5E; 0x7E; 0x7E; 5];
             [0x7E; 0x7E; 0x7D]; [0x5D; 5; 6; 0x7E]])
         no_retries accepted_world
       = Ret (Some [FLAG]) w'
       /\ deliveries 0 (trace w')
          = deliveries 0 (trace accepted_world)
            ++ filter (fun f => (2 < length f)%nat)
                 [[1; 2; 0x7E]; [5]; [0x7D; 5; 6]].
Proof.
  assert (H2 : Forall (fun c : bytes => c <> [])
                 [[9; 9; 0x7E; 1]; [2; 0x7D; 0x5E; 0x7E; 0x7E; 5];
                  [0x7E; 0x7E; 0x7D]; [0x5D; 5; 6; 0x7E]])
    by (repeat constructor; discriminate).
  assert (H3 : FLAG ∉ [9; 9]).
  { intros H. repeat (apply elem_of_cons in H as [H|H]; [discriminate|]).
    exact (not_elem_of_nil _ H). }
  split; [exact H2|]. split; [exact H3|]. split; [reflexivity|].
  apply (deframer_frames_in_order 2 calm_owner 0 accepted_world no_retries
           [9; 9] [[1; 2; 0x7E]; [5]; [0x7D; 5; 6]] _
           accepted_world_connected H2 H3);
    [discriminate|reflexivity].
Defined.

Lemma deframer_bytes_between_frames_witness :
  (FLAG ∉ [8; 8; 8])
  /\ concat [[0x7E; 1; 2; 3; 0x7E; 8]; [8; 8; 0x7E; 4; 5; 6; 0x7E]]
     = encode [1; 2; 3] ++ [8; 8; 8] ++ encode [4; 5; 6]
  /\ exists w',
       read_loop 2 calm_owner 0
         (map Received [[0x7E; 1; 2; 3; 0x7E; 8]; [8; 8; 0x7E; 4; 5; 6; 0x7E]])
         no_retries accepted_world
       = Ret (Some [FLAG]) w'
       /\ deliveries 0 (trace w')
          = deliveries 0 (trace accepted_world)
            ++ filter (fun f => (2 < length f)%nat)
                 [[1; 2; 3]; unescape [8; 8; 8]; [4; 5; 6]].
Proof.
  assert (H3 : FLAG ∉ [8; 8; 8]).
  { intros H. repeat (apply elem_of_cons in H as [H|H]; [discriminate|]).
    exact (not_elem_of_nil _ H). }
  split; [exact H3|]. split; [reflexivity|].
  destruct (deframer_bytes_between_frames 2 calm_owner 0 accepted_world
              no_retries [1; 2; 3] [8; 8; 8] [4; 5; 6]
              [[0x7E; 1; 2; 3; 0x7E; 8]; [8; 8; 0x7E; 4; 5; 6; 0x7E]]
              accepted_world_connected)
    as (w' & E & D & _);
    [repeat constructor; discriminate|exact H3|reflexivity|].
  exists w'. split; [exact E|exact D].
Defined.

Lemma deframer_without_flag_witness :
  (FLAG ∉ concat [[1; 2]; [0x7D; 3]])
  /\ read_loop 2 calm_owner 0 (map Received [[1; 2]; [0x7D; 3]]) no_retries
       accepted_world
     = Ret (Some [1; 2; 0x7D; 3]) accepted_world.
Proof.
  assert (H3 : FLAG ∉ concat [[1; 2]; [0x7D; 3]]).
  { cbn [concat app]. intros H.
    repeat (apply elem_of_cons in H as [H|H]; [discriminate|]).
    exact (not_elem_of_nil _ H). }
  split; [exact H3|].
  apply (deframer_without_flag 2 calm_owner 0 accepted_world no_retries
           [[1; 2]; [0x7D; 3]] accepted_world_connected);
    [repeat constructor; discriminate|exact H3].
Defined.

Lemma read_loop_chunking_witness :
  concat [[0x7E; 1; 2; 3; 0x7E]] = concat [[0x7E; 1]; [2]; [3; 0x7E]]
  /\ read_loop 2 calm_owner 0 (map Received [[0x7E; 1; 2; 3; 0x7E]]) no_retries
       accepted_world
     = read_loop 2 calm_owner 0 (map Received [[0x7E; 1]; [2]; [3; 0x7E]])
         no_retries accepted_world.
Proof.
  split; [reflexivity|].
  apply (read_loop_chunking 2 calm_owner 0 accepted_world no_retries
           [[0x7E; 1; 2; 3; 0x7E]] [[0x7E; 1]; [2]; [3; 0x7E]]
           accepted_world_connected);
    [repeat constructor; discriminate..|reflexivity].
Defined.

Lemma rx_accounting_witness :
  clients_heap accepted_world !! 0%nat
  = Some (spawned_interface_of 0 example_server example_handler)
  /\ exists w',
       read_loop 2 calm_owner 0
         (map Received [[0x7E; 1; 2; 3; 0x7E; 9]; [0x7E; 4; 5; 6; 7; 0x7E]])
         no_retries accepted_world
       = Ret (Some [FLAG]) w'
       /\ rxb <$> clients_heap w' !! 0%nat = Some 7
       /\ s_rxb <$> servers_heap w' !! 0%nat = Some 7.
Proof.
  assert (H1 : clients_heap accepted_world !! 0%nat
               = Some (spawned_interface_of 0 example_server example_handler))
    by reflexivity.
  split; [exact H1|].
  destruct (rx_accounting 2 calm_owner 0 no_retries
              [[0x7E; 1; 2; 3; 0x7E; 9]; [0x7E; 4; 5; 6; 7; 0x7E]]
              accepted_world _ H1)
    as (_ & w' & E & _ & Hr & _ & Hp).
  - eexists. reflexivity.
  - exact accepted_world_parent.
  - repeat constructor; discriminate.
  - exists w'. split; [exact E|]. split; [exact Hr|].
    exact (Hp 0%nat (set_clients 1 example_server) eq_refl eq_refl).
Defined.

Lemma process_outgoing_never_raises_witness :
  clients_heap accepted_world !! 0%nat
  = Some (spawned_interface_of 0 example_server example_handler)
  /\ exists w',
       process_outgoing steady_clock 0 [1; 2; 3] false accepted_world = Ret tt w'
       \/ process_outgoing steady_clock 0 [1; 2; 3] false accepted_world = Exited w'.
Proof.
  assert (H1 : clients_heap accepted_world !! 0%nat
               = Some (spawned_interface_of 0 example_server example_handler))
    by reflexivity.
  split; [exact H1|].
  exact (proj1 (process_outgoing_never_raises steady_clock 0 [1; 2; 3] false accepted_world
                  _ H1 accepted_world_parent)).
Defined.

Lemma send_failure_tears_down_witness :
  clients_heap accepted_world !! 0%nat
  = Some (spawned_interface_of 0 example_server example_handler)
  /\ send_fails steady_clock
       (spawned_interface_of 0 example_server example_handler) [1; 2; 3] false
  /\ exists w',
       process_outgoing steady_clock 0 [1; 2; 3] false accepted_world = Ret tt w'
       /\ online <$> clients_heap w' !! 0%nat = Some false
       /\ txb <$> clients_heap w' !! 0%nat = Some 0
       /\ process_outgoing steady_clock 0 [4] true w' = Ret tt w'.
Proof.
  assert (H1 : clients_heap accepted_world !! 0%nat
               = Some (spawned_interface_of 0 example_server example_handler))
    by reflexivity.
  assert (H2 : send_fails steady_clock
                 (spawned_interface_of 0 example_server example_handler)
                 [1; 2; 3] false)
    by (right; left; reflexivity).
  split; [exact H1|]. split; [exact H2|].
  destruct (send_failure_tears_down steady_clock 0 [1; 2; 3] false accepted_world _ H1
              eq_refl H2 accepted_world_parent)
    as (w' & o' & tl & E & _ & _ & _ & _ & Ho' & Hoff & _ & Htx & _ & Hnext).
  exists w'. split; [exact E|].
  split; [rewrite Ho'; cbn; f_equal; exact Hoff|].
  split; [rewrite (Htx 0%nat); reflexivity|apply Hnext].
Defined.


Lemma read_error_tears_down_witness :
  clients_heap dialed_world !! 0%nat = Some example_initiator
  /\ exists w' tl,
       read_loop 2 calm_owner 0
         (map Received [[0x7E; 1; 2; 3; 0x7E]] ++ [RecvRaises; Received [7]])
         no_retries dialed_world
       = Exited w'
       /\ trace w' = trace dialed_world ++ tl
       /\ Forall no_reconnect tl
       /\ deliveries 0 (trace w') = [[1; 2; 3]].
Proof.
  assert (H1 : clients_heap dialed_world !! 0%nat = Some example_initiator)
    by reflexivity.
  split; [exact H1|].
  destruct (read_error_tears_down 2 calm_owner 0 no_retries
              [[0x7E; 1; 2; 3; 0x7E]] RecvRaises [Received [7]] dialed_world
              _ H1)
    as (w' & tl & E & Ht & Hq & _ & D & _).
  - intros p [=].
  - repeat constructor; discriminate.
  - left. split; [eexists; reflexivity|reflexivity].
  - exists w', tl. split; [exact E|]. split; [exact Ht|].
    split; [exact Hq|exact D].
Defined.

Lemma detach_closes_once_witness :
  clients_heap accepted_world !! 0%nat
  = Some (spawned_interface_of 0 example_server example_handler)
  /\ exists w',
       detach 0 false true accepted_world = Ret tt w'
       /\ interfaces w' = [0%nat]
       /\ trace w'
          = [EvLog MsgDetaching LOG_DEBUG 0;
             EvLog MsgShutdownError LOG_NOTICE 0; EvClose 0]
       /\ detach 0 true true w' = Ret tt w'.
Proof.
  assert (H1 : clients_heap accepted_world !! 0%nat
               = Some (spawned_interface_of 0 example_server example_handler))
    by reflexivity.
  split; [exact H1|].
  destruct (detach_closes_once 0 false true true true accepted_world _ H1)
    as (w' & E & _ & _ & Hi & _ & Ht & Hagain);
    [eexists; reflexivity|].
  exists w'. split; [exact E|]. split; [exact Hi|].
  split; [exact Ht|exact Hagain].
Defined.

Lemma reconnect_cases_witness :
  clients_heap accepted_world !! 0%nat
  = Some (spawned_interface_of 0 example_server example_handler)
  /\ reconnect 0 no_retries accepted_world
     = Exn IOError
         (with_trace
            [EvReconnect 0; EvLog MsgNonInitiatorReconnect LOG_ERROR 0]
            accepted_world).
Proof.
  assert (H1 : clients_heap accepted_world !! 0%nat
               = Some (spawned_interface_of 0 example_server example_handler))
    by reflexivity.
  split; [exact H1|].
  exact (proj1 (reconnect_cases 0 no_retries accepted_world _ H1) eq_refl).
Defined.

Lemma teardown_effects_witness :
  clients_heap accepted_world !! 0%nat
  = Some (spawned_interface_of 0 example_server example_handler)
  /\ exists w' tl,
       teardown 0 false accepted_world = Ret tt w'
       /\ socket <$> clients_heap w' !! 0%nat = Some (Some 7%nat)
       /\ trace w' = EvTeardown 0 false :: tl
       /\ Forall no_socket_call tl.
Proof.
  assert (H1 : clients_heap accepted_world !! 0%nat
               = Some (spawned_interface_of 0 example_server example_handler))
    by reflexivity.
  split; [exact H1|].
  destruct (teardown_effects 0 false accepted_world _ H1 accepted_world_parent)
    as (w' & tl & E & Hh & _ & _ & Ht & Hq & _).
  exists w', tl. split; [exact E|].
  split; [rewrite Hh; reflexivity|]. split; [exact Ht|exact Hq].
Defined.

Lemma accepted_connection_lifecycle_witness :
  servers_heap fresh_world !! 0%nat = Some example_server
  /\ has_owner example_server = true
  /\ exists w' tl,
       incoming_connection 2 calm_owner 0 example_handler
         (map Received [[0x7E; 1; 2]; [3; 0x7E]] ++ [Received []])
         no_retries fresh_world
       = Ret tt w'
       /\ interfaces w' = []
       /\ local_client_interfaces w' = []
       /\ clients <$> servers_heap w' !! 0%nat = Some 0
       /\ s_rxb <$> servers_heap w' !! 0%nat = Some 3
       /\ trace w' = tl
       /\ deliveries 0 tl = [[1; 2; 3]].
Proof.
  assert (H1 : servers_heap fresh_world !! 0%nat = Some example_server)
    by reflexivity.
  split; [exact H1|]. split; [reflexivity|].
  destruct (accepted_connection_lifecycle 2 calm_owner 0 example_handler
              no_retries [[0x7E; 1; 2]; [3; 0x7E]] [] fresh_world _ H1
              eq_refl)
    as (w' & tl & E & Hi & Hl & Hc & Hr & _ & Ht & _ & D).
  - intros c Hc. apply not_elem_of_nil in Hc. contradiction.
  - intros c Hc. apply not_elem_of_nil in Hc. contradiction.
  - repeat constructor; discriminate.
  - exists w', tl. split; [exact E|]. split; [exact Hi|]. split; [exact Hl|].
    split; [exact Hc|]. split; [exact Hr|]. split; [exact Ht|exact D].
Defined.

Lemma wire_round_trip_witness :
  clients_heap accepted_world !! 0%nat
  = Some (spawned_interface_of 0 example_server example_handler)
  /\ concat [[0x7E; 1; 2]; [0x7D; 0x5E; 0x7E; 0x7E; 4; 5]; [6; 0x7E]]
     = concat (map encode [[1; 2; 0x7E]; [4; 5; 6]])
  /\ exists ws' wr',
       send_all steady_clock 0 [[1; 2; 0x7E]; [4; 5; 6]] accepted_world = Ret tt ws'
       /\ wire 0 (trace ws')
          = concat [[0x7E; 1; 2]; [0x7D; 0x5E; 0x7E; 0x7E; 4; 5]; [6; 0x7E]]
       /\ read_loop 2 calm_owner 0
            (map Received
               [[0x7E; 1; 2]; [0x7D; 0x5E; 0x7E; 0x7E; 4; 5]; [6; 0x7E]])
            no_retries dialed_world
          = Ret (Some [FLAG]) wr'
       /\ deliveries 0 (trace wr')
          = filter (fun f => (2 < length f)%nat) [[1; 2; 0x7E]; [4; 5; 6]].
Proof.
  assert (H1 : clients_heap accepted_world !! 0%nat
               = Some (spawned_interface_of 0 example_server example_handler))
    by reflexivity.
  split; [exact H1|]. split; [reflexivity|].
  destruct (wire_round_trip 2 calm_owner steady_clock 0 0 [[1; 2; 0x7E]; [4; 5; 6]]
              [[0x7E; 1; 2]; [0x7D; 0x5E; 0x7E; 0x7E; 4; 5]; [6; 0x7E]]
              no_retries accepted_world dialed_world _ H1)
    as (ws' & wr' & E & Hw & Hr).
  - reflexivity.
  - eexists. reflexivity.
  - intros [=].
  - exact accepted_world_parent.
  - eexists. split; [reflexivity|]. split; [eexists; reflexivity|].
    intros p [=].
  - repeat constructor; discriminate.
  - discriminate.
  - destruct (Hr eq_refl) as [Er D].
    exists ws', wr'. split; [exact E|]. split; [exact Hw|].
    split; [exact Er|exact D].
Defined.

Lemma lost_connection_is_reestablished_witness :
  clients_heap dialed_world !! 0%nat = Some example_initiator
  /\ exists w' o',
       read_loop 2 calm_owner 0
         (map Received [[0x7E; 1; 2; 3; 0x7E]] ++ [Received []])
         {| failed_attempts := [5%nat; 6%nat]; final_socket := 8%nat |}
         dialed_world
       = Ret None w'
       /\ clients_heap w' !! 0%nat = Some o'
       /\ online o' = true
       /\ socket o' = Some 8%nat
       /\ interfaces w' = [0%nat]
       /\ deliveries 0 (trace w') = [[1; 2; 3]].
Proof.
  assert (H1 : clients_heap dialed_world !! 0%nat = Some example_initiator)
    by reflexivity.
  split; [exact H1|].
  destruct (lost_connection_is_reestablished 2 calm_owner 0
              {| failed_attempts := [5%nat; 6%nat]; final_socket := 8%nat |}
              [[0x7E; 1; 2; 3; 0x7E]] [] dialed_world _ H1)
    as (w' & o' & tl & E & Ho' & Hon & Hs & _ & _ & _ & Hi & _ & D & _).
  - eexists. reflexivity.
  - intros p [=].
  - reflexivity.
  - reflexivity.
  - reflexivity.
  - repeat constructor; discriminate.
  - exists w', o'. split; [exact E|]. split; [exact Ho'|].
    split; [exact Hon|]. split; [exact Hs|]. split; [exact Hi|exact D].
Defined.

Lemma reachable_registries_witness :
  reachable 2 calm_owner steady_clock accepted_world
  /\ NoDup (interfaces accepted_world)
  /\ at_most_once 0 (local_client_interfaces accepted_world).
Proof.
  split; [exact accepted_world_reachable|].
  destruct (reachable_registries 2 calm_owner steady_clock accepted_world
              accepted_world_reachable)
    as (Hn & _ & _ & _ & _ & _ & Ha).
  split; [exact Hn|exact (proj2 (Ha 0%nat))].
Defined.
